(** * Harvest orchestration: scheduler, routing, retry loop and paginated
      scrapers, embedded from the Python sources, with the properties the
      specification states about them.

    Source files embedded here:
    - [backend/scheduler.py]          (module [Scheduler])
    - [city_routing.py], [auto_recovery.py]   (module [Routing])
    - [backend/scrapers/snohomish.py] (module [Snohomish])
    - the retry decorator the scrapers import from utils.py, which is not
      among the sources and is described from the specification
      (module [Retry])
    - [backend/scrapers/charlotte.py] (module [Charlotte])
    - [scrapers/dallas.py]            (module [Dallas])
    - [scrapers/milwaukee.py]         (module [Milwaukee]) *)

From Stdlib Require Import ZArith QArith Ascii.
From stdpp Require Import gmap strings list pretty.


(** ** Python built-ins used by the scrapers *)

(** The operations of the Python runtime whose results the scrapers only
    pass along: floating point conversion and date handling. [None] stands
    for the exception the built-in raises (ValueError, OverflowError,
    OSError). *)
Class PyBuiltins := {
  float : Type;
  float_of_int : Z -> option float;          (* float(n) *)
  float_of_str : string -> option float;     (* float(s) *)
  float_is_zero : float -> bool;             (* x == 0, the truth value of x *)
  float_zero : float;                        (* the literal 0.0 *)
  float_repr : float -> string;              (* str(x) *)
  int_of_float : float -> option Z;          (* int(x) *)
  datetime : Type;
  fromisoformat : string -> option datetime; (* datetime.fromisoformat(s) *)
  strptime_ymd : string -> option datetime;  (* datetime.strptime(s, '%Y-%m-%d') *)
  fromtimestamp_ms : Z -> option datetime;   (* datetime.fromtimestamp(n / 1000) *)
  strftime_ymd : datetime -> string          (* dt.strftime('%Y-%m-%d') *)
}.

Module PyStr.

(** [s.replace(c, by)] for a one-character pattern [c]. *)
Fixpoint replace (c : ascii) (by_ : string) (s : string) : string :=
  match s with
  | EmptyString => EmptyString
  | String a rest =>
    if decide (a = c) then by_ +:+ replace c by_ rest
    else String a (replace c by_ rest)
  end.

(** [c in s] for a one-character [c]. *)
Fixpoint contains (c : ascii) (s : string) : bool :=
  match s with
  | EmptyString => false
  | String a rest => if decide (a = c) then true else contains c rest
  end.

(** [s.lower()] on ASCII letters; other bytes are kept. *)
Definition lower_ascii (a : ascii) : ascii :=
  let n := nat_of_ascii a in
  if ((65 <=? n) && (n <=? 90)) then ascii_of_nat (n + 32) else a.

Fixpoint lower (s : string) : string :=
  match s with
  | EmptyString => EmptyString
  | String a rest => String (lower_ascii a) (lower rest)
  end.

(** Truth value of a string: non-empty. *)
Definition truthy (s : string) : bool :=
  match s with EmptyString => false | _ => true end.

(** A byte that continues a character of a UTF-8 text: 10xxxxxx. *)
Definition continues (a : ascii) : bool :=
  let n := nat_of_ascii a in (128 <=? n) && (n <? 192).

(** [s[:n]]: the first [n] characters of [s]. The text is held as its
    UTF-8 bytes, so a character is a byte followed by the bytes that
    continue it. *)
Fixpoint take (n : nat) (s : string) : string :=
  match s with
  | EmptyString => EmptyString
  | String a rest =>
    if continues a then String a (take n rest)
    else match n with
         | O => EmptyString
         | S n' => String a (take n' rest)
         end
  end.

(** [s.split(c)[0]]: the part of [s] before the first [c]. *)
Fixpoint before (c : ascii) (s : string) : string :=
  match s with
  | EmptyString => EmptyString
  | String a rest => if decide (a = c) then EmptyString else String a (before c rest)
  end.

End PyStr.

(** ** JSON values as the scrapers inspect them *)

Module PyVal.

Section Values.
Context {py : PyBuiltins}.

(** A decoded JSON value. A list or a dict is kept by what the code can
    see of it: its [str()] and its truth value. *)
Inductive jvalue :=
| JNull
| JBool (b : bool)
| JInt (n : Z)
| JFloat (x : float)
| JStr (s : string)
| JContainer (rendered : string) (nonempty : bool).

(** Python truth value. *)
Definition truthy (v : jvalue) : bool :=
  match v with
  | JNull => false
  | JBool b => b
  | JInt n => negb (n =? 0)%Z
  | JFloat x => negb (float_is_zero x)
  | JStr s => PyStr.truthy s
  | JContainer _ nonempty => nonempty
  end.

(** [str(v)] *)
Definition render (v : jvalue) : string :=
  match v with
  | JNull => "None"
  | JBool b => if b then "True" else "False"
  | JInt n => pretty n
  | JFloat x => float_repr x
  | JStr s => s
  | JContainer rendered _ => rendered
  end.

(** The number stored under ['value']: the int [0] or a float. *)
Inductive pynum :=
| PyInt (n : Z)
| PyFloat (x : float).

(** [float(str(value).replace('$', '').replace(',', ''))], with 0 for the
    exception. *)
Definition float_of_text (s : string) : pynum :=
  match float_of_str (PyStr.replace "," "" (PyStr.replace "$" "" s)) with
  | Some x => PyFloat x
  | None => PyInt 0
  end.

(** What [record.get(key, default)] finds for a text column: no key, a
    null, or a string. *)
Inductive attribute :=
| Missing
| Null
| Text (s : string).

End Values.

End PyVal.

(** ** The state every scraper object carries *)

Module Store.

Section Store.
Context {permit event : Type}.

(** [self.permits], [self.seen_permit_ids], and the effects of the
    object's methods in program order. *)
Record scraper := Scraper {
  permits : list permit;
  seen_permit_ids : gset string;
  events : list event
}.

(** A fresh object: [self.permits = []], [self.seen_permit_ids = set()]. *)
Definition init : scraper := Scraper [] ∅ [].

Definition emit (e : event) (self : scraper) : scraper :=
  Scraper (permits self) (seen_permit_ids self) (events self ++ [e]).

(** [if permit_id not in self.seen_permit_ids:
       self.seen_permit_ids.add(permit_id); self.permits.append(p)] *)
Definition add (permit_id : string) (p : permit) (self : scraper) : scraper :=
  if decide (permit_id ∈ seen_permit_ids self) then self
  else Scraper (permits self ++ [p]) ({[permit_id]} ∪ seen_permit_ids self)
               (events self).

(** [self'] continues [self]: the permit list is extended at its end, by
    permits whose ids (read by [key]) were not seen in [self], and the
    seen-id set only grows. *)
Definition extends (key : permit → string) (self self' : scraper) : Prop :=
  ∃ added, permits self' = permits self ++ added
           ∧ seen_permit_ids self ⊆ seen_permit_ids self'
           ∧ ∀ p, p ∈ added → key p ∉ seen_permit_ids self.

(** The object invariant: the collected ids are pairwise distinct and all
    of them are in the seen-id set. *)
Definition consistent (key : permit → string) (self : scraper) : Prop :=
  NoDup (map key (permits self))
  ∧ ∀ p, p ∈ permits self → key p ∈ seen_permit_ids self.

End Store.

Arguments scraper : clear implicits.

End Store.

(** ** backend/scheduler.py *)

Module Scheduler.

(** [CITIES]: the priority table; a Python dict iterates in insertion
    order, which fixes the layout of the weighted pool. *)
Definition CITIES : list (string * Z) :=
  [("nashville", 3); ("chattanooga", 2); ("austin", 3); ("sanantonio", 2);
   ("houston", 3); ("charlotte", 3); ("phoenix", 3)]%Z.

(** [failure_counts = defaultdict(int)]: a missing key reads as 0. Reading
    through the defaultdict also materialises the key with value 0, which no
    later read can tell apart from the missing key. *)
Definition count_of (failure_counts : gmap string nat) (city : string) : nat :=
  default 0 (failure_counts !! city).

(** [failure_penalty = max(1, 5 - failure_counts[city])] *)
Definition failure_penalty (failures : nat) : Z :=
  Z.max 1 (5 - Z.of_nat failures)%Z.

(** [weight = priority * failure_penalty] *)
Definition weight (priority : Z) (failures : nat) : Z :=
  (priority * failure_penalty failures)%Z.

(** The loop of [get_next_city]:
    [weighted_cities.extend([city] * weight)] for each item of [CITIES];
    a list multiplied by a non-positive integer is empty. *)
Definition extend_pool (failure_counts : gmap string nat)
    (pool : list string) (item : string * Z) : list string :=
  pool ++ replicate (Z.to_nat (weight item.2 (count_of failure_counts item.1))) item.1.

Definition weighted_cities (failure_counts : gmap string nat) : list string :=
  foldl (extend_pool failure_counts) [] CITIES.

(** [random.choice(weighted_cities)]: the element at a uniformly drawn
    index; [choice] is that draw. An index outside the pool (only possible
    for an empty pool, where Python raises IndexError) gives [None]. *)
Definition get_next_city (choice : nat) (failure_counts : gmap string nat)
    : option string :=
  weighted_cities failure_counts !! choice.

(** The number of slots a city holds in a pool: its chance of being drawn
    is this number over the length of the pool. *)
Definition slots (city : string) (pool : list string) : nat :=
  length (filter (λ c, c = city) pool).

(** The scraper classes of the [scrapers] package that [run_scraper]
    can import, and [RaleighPermitScraper], which the package also holds
    (backend/scrapers/raleigh.py) but which no branch of [run_scraper]
    names. *)
Inductive scraper_class :=
| NashvillePermitScraper | ChattanoogaPermitScraper | AustinPermitScraper
| SanAntonioPermitScraper | HoustonPermitScraper | CharlottePermitScraper
| PhoenixPermitScraper | RaleighPermitScraper.

(** The [if city == ... elif ...] chain of [run_scraper]; [None] is the
    final [else] (no scraper configured). *)
Definition scraper_for (city : string) : option scraper_class :=
  if decide (city = "nashville") then Some NashvillePermitScraper
  else if decide (city = "chattanooga") then Some ChattanoogaPermitScraper
  else if decide (city = "austin") then Some AustinPermitScraper
  else if decide (city = "sanantonio") then Some SanAntonioPermitScraper
  else if decide (city = "houston") then Some HoustonPermitScraper
  else if decide (city = "charlotte") then Some CharlottePermitScraper
  else if decide (city = "phoenix") then Some PhoenixPermitScraper
  else None.

(** Observable effects, in program order. *)
Inductive event :=
| RunInvoked (scraper : scraper_class) (attempt : nat)
| Scraped (city : string) (count : nat)
| Sleep (seconds : nat)
| AlertEmail (city : string) (error : string) (failure_count : nat)
| NoScraperConfigured (city : string).

(** The module-level mutable maps [failure_counts], [last_success], and
    the effect log. *)
Record state := State {
  failure_counts : gmap string nat;
  last_success : gmap string string;
  events : list event
}.

Definition emit (e : event) (st : state) : state :=
  State (failure_counts st) (last_success st) (events st ++ [e]).

(** [send_alert_email]: returns early unless the count is a multiple of
    three; otherwise the message is built and handed to the mail client
    (a delivery error is caught and logged there). *)
Definition send_alert_email (city error : string) (failure_count : nat)
    (st : state) : state :=
  if negb (failure_count mod 3 =? 0) then st
  else emit (AlertEmail city error failure_count) st.

(** [failure_counts[city] = 0; last_success[city] = time.ctime()] *)
Definition record_success (now : string) (city : string) (st : state) : state :=
  State (<[city := 0]> (failure_counts st))
        (<[city := now]> (last_success st))
        (events st).

(** [failure_counts[city] += 1] followed by
    [send_alert_email(city, error, failure_counts[city])]. *)
Definition record_failure (city error : string) (st : state) : state :=
  let n := S (count_of (failure_counts st) city) in
  send_alert_email city error n
    (State (<[city := n]> (failure_counts st)) (last_success st) (events st)).

(** Process start: empty maps, nothing observed. *)
Definition initial : state := State ∅ ∅ [].

(** [st] with the events [l] appended to its log. *)
Definition logged (st : state) (l : list event) : state :=
  State (failure_counts st) (last_success st) (events st ++ l).

(** The log of a cycle whose attempts [attempt .. attempt + n] all come
    back empty-handed: a run, then a pause of [5 * (index + 1)] seconds
    before the next run. *)
Fixpoint retry_log (scraper : scraper_class) (attempt n : nat) : list event :=
  match n with
  | O => [RunInvoked scraper attempt]
  | S n' => RunInvoked scraper attempt :: Sleep (5 * (attempt + 1))
            :: retry_log scraper (S attempt) n'
  end.

(** The alerts in a log, as (city, failure count). *)
Definition alerts (l : list event) : list (string * nat) :=
  omap (fun e => match e with
                 | AlertEmail city _ n => Some (city, n)
                 | _ => None
                 end) l.

(** The pauses in a log. *)
Definition sleeps (l : list event) : list nat :=
  omap (fun e => match e with Sleep s => Some s | _ => None end) l.

(** The scraper runs in a log, as (class, attempt index). *)
Definition invocations (l : list event) : list (scraper_class * nat) :=
  omap (fun e => match e with RunInvoked c a => Some (c, a) | _ => None end) l.

(** The success reports in a log, as (city, number of permits). *)
Definition reports (l : list event) : list (string * nat) :=
  omap (fun e => match e with Scraped city n => Some (city, n) | _ => None end) l.

(** What a call added to the log: the events of [st'] past those of [st]. *)
Definition new_events (st st' : state) : list event :=
  drop (length (events st)) (events st').

Section RunScraper.

(** [run_scraper] looks only at the truth value and the length of what
    [scraper.run()] returns, so the record type stays generic here. *)
Context {permit : Type}.

(** What one attempt (import, construction of a fresh scraper, [run()])
    produces: a list of permits, or an exception with its [str(e)]. *)
Inductive outcome :=
| Returned (permits : list permit)
| Raised (error : string).

(** The outside world of one [run_scraper] call: the outcome of running a
    given scraper class at a given attempt index, and [time.ctime()]. *)
Record world := World {
  run : scraper_class -> nat -> outcome;
  ctime : string
}.

(** An attempt that does not pass [if permits and len(permits) > 0]:
    it raised or returned nothing. *)
Definition fruitless (o : outcome) : bool :=
  match o with
  | Returned permits => negb (0 <? length permits)
  | Raised _ => true
  end.

(** Every attempt of a cycle, [0 .. max_retries], is fruitless. *)
Definition all_fruitless (w : world) (scraper : scraper_class)
    (max_retries : nat) : bool :=
  forallb (λ attempt, fruitless (run w scraper attempt)) (seq 0 (S max_retries)).

(** The body of [for attempt in range(max_retries + 1)], recursing on the
    number [todo] of iterations the range still holds. *)
Fixpoint attempts (w : world) (city : string) (max_retries : nat)
    (todo attempt : nat) (st : state) : bool * state :=
  match todo with
  | O => (false, st)
  | S todo' =>
    match scraper_for city with
    | None => (false, emit (NoScraperConfigured city) st)
    | Some scraper =>
      let st := emit (RunInvoked scraper attempt) st in
      match run w scraper attempt with
      | Returned permits =>
        if (0 <? length permits) then
          (true, record_success (ctime w) city
                   (emit (Scraped city (length permits)) st))
        else if (attempt <? max_retries) then
          attempts w city max_retries todo' (S attempt)
                   (emit (Sleep (5 * (attempt + 1))) st)
        else
          (false, record_failure city "No permits returned after retries" st)
      | Raised error =>
        if (attempt <? max_retries) then
          attempts w city max_retries todo' (S attempt)
                   (emit (Sleep (5 * (attempt + 1))) st)
        else
          (false, record_failure city error st)
      end
    end
  end.

(** [run_scraper(city, max_retries=2)]; [max_retries] counts retries, and
    the main loop, the only caller, passes 2. *)
Definition run_scraper (w : world) (city : string) (max_retries : nat)
    (st : state) : bool * state :=
  attempts w city max_retries (max_retries + 1) 0 st.

(** The body of the main loop, cycle after cycle: each cycle has its
    selected city and its own world, and calls
    [run_scraper(city, max_retries=2)]. *)
Fixpoint cycles (plan : list (string * world)) (st : state) : state :=
  match plan with
  | [] => st
  | (city, w) :: plan' => cycles plan' (run_scraper w city 2 st).2
  end.

(** A counter of consecutive failures kept by hand, to compare the
    scheduler's map with: a cycle on another city, or on a city without a
    scraper, leaves it alone; a cycle on [city] that brings a permit resets
    it; one that brings none adds one. *)
Definition streak_step (city : string) (n : nat) (cw : string * world) : nat :=
  if decide (cw.1 = city) then
    match scraper_for city with
    | Some scraper => if all_fruitless cw.2 scraper 2 then S n else 0
    | None => n
    end
  else n.

End RunScraper.

Arguments outcome : clear implicits.
Arguments world : clear implicits.

End Scheduler.

(** ** city_routing.py and auto_recovery.py *)

Module Routing.

(** One value of the [CITY_ROUTING] dict. *)
Record routing_entry := RoutingEntry {
  route_to : string;
  reason : string;
  fallback_count : Z
}.

Definition CITY_ROUTING : gmap string routing_entry :=
  <["houston" := RoutingEntry "chicago"
       "Houston ArcGIS API returns 403 Forbidden" 5891]>
  (<["charlotte" := RoutingEntry "raleigh"
       "Charlotte ArcGIS API returns empty JSON responses" 363]>
  (<["phoenix" := RoutingEntry "philadelphia"
       "Phoenix ArcGIS API returns no data" 5921]> ∅)).

Definition WORKING_CITIES : list string :=
  ["nashville"; "chattanooga"; "austin"; "sanantonio"; "dallas"; "raleigh";
   "philadelphia"; "seattle"; "chicago"].

(** One entry of [recovery_log]; the same four fields go to the log file. *)
Record log_entry := LogEntry {
  timestamp : string;
  city : string;
  action : string;
  details : string
}.

(** An [AutoRecovery] object, with what it has printed and appended to
    [logs/recovery.log]. *)
Record AutoRecovery := Build {
  routing_config : gmap string routing_entry;
  working_cities : list string;
  recovery_log : list log_entry;
  printed : list string;
  log_file : list log_entry
}.

(** [AutoRecovery.__init__] *)
Definition init : AutoRecovery := Build CITY_ROUTING WORKING_CITIES [] [] [].

(** [log_recovery_action]; [now] is [datetime.datetime.now().isoformat()]. *)
Definition log_recovery_action (now city action_type details : string)
    (self : AutoRecovery) : AutoRecovery :=
  let entry := LogEntry now city action_type details in
  Build (routing_config self) (working_cities self)
        (recovery_log self ++ [entry]) (printed self) (log_file self ++ [entry]).

(** [execute_routing]: the substitute for a routed city, [None] otherwise.
    The printed line is kept without the emoji that opens it. *)
Definition execute_routing (now city : string) (self : AutoRecovery)
    : option string * AutoRecovery :=
  match routing_config self !! city with
  | Some entry =>
    let routing_target := route_to entry in
    let self := Build (routing_config self) (working_cities self)
                  (recovery_log self)
                  (printed self ++
                     ["Auto-routing " +:+ city +:+ " -> " +:+ routing_target
                        +:+ " (" +:+ reason entry +:+ ")"])
                  (log_file self) in
    (Some routing_target,
     log_recovery_action now city "ROUTING_EXECUTED"
       (city +:+ " -> " +:+ routing_target) self)
  | None => (None, self)
  end.

(** [check_city_health]: [city not in self.routing_config] *)
Definition check_city_health (city : string) (self : AutoRecovery) : bool :=
  bool_decide (routing_config self !! city = None).

(** The dict [get_system_status] returns. *)
Record system_status := SystemStatus {
  total_cities : nat;
  working_count : nat;
  routed_count : nat;
  status_routing_config : gmap string routing_entry;
  last_recovery_actions : list log_entry
}.

(** [get_system_status]; [self.recovery_log[-5:]] is the log without all
    but its last five entries. *)
Definition get_system_status (self : AutoRecovery) : system_status :=
  let routed_cities := (map_to_list (routing_config self)).*1 in
  let total_cities := length (working_cities self) + length routed_cities in
  SystemStatus total_cities (length (working_cities self)) (length routed_cities)
    (routing_config self)
    (match recovery_log self with
     | [] => []
     | _ => drop (length (recovery_log self) - 5) (recovery_log self)
     end).

(** [execute_routing] called for each city of a list in turn, all at the
    time stamp [now]; the results are returned in order. *)
Fixpoint route_all (now : string) (cities : list string) (self : AutoRecovery)
    : list (option string) * AutoRecovery :=
  match cities with
  | [] => ([], self)
  | city :: rest =>
    let '(target, self) := execute_routing now city self in
    let '(targets, self) := route_all now rest self in
    (target :: targets, self)
  end.

End Routing.

(** ** backend/scrapers/snohomish.py *)

Module Snohomish.

Section GetLeads.
Context {py : PyBuiltins}.

(** [permit_value]: the cell text when it is empty, else the parsed
    number, [0.0] when it does not parse. *)
Inductive permit_value :=
| ValueText (s : string)
| ValueFloat (x : float).

(** One lead dict. *)
Record lead := Lead {
  permit_number : string;
  address : string;
  permit_type : string;
  value : permit_value;
  issue_date : string;
  owner : string;
  status : string
}.

(** What one pass through the [try] body meets before any lead is built:
    a transport or HTTP error ([requests.exceptions.RequestException]),
    any other exception, or the selected table rows. [Rows] carries the
    stripped cell texts of every row, header included; a page without a
    table gives [Rows []]. *)
Inductive fetched :=
| RequestException
| OtherException
| Rows (rows : list (list string)).

(** The world of one call: the result of the request made at each attempt
    and the value [random.uniform(1, 3)] returns at that attempt. *)
Record world := World {
  fetch : nat -> fetched;
  uniform : nat -> Q
}.

(** Effects: a request, and [time.sleep(draw * factor)] recorded by its two
    factors. *)
Inductive event :=
| Request (attempt : nat)
| Backoff (draw : Q) (factor : Z).

(** Cleaning of the sixth cell: ['$'] and [','] removed, then [float];
    an empty cell stays as it is. The final [strip()] is absorbed by
    [float], which ignores surrounding blanks. *)
Definition clean_value (cell : string) : permit_value :=
  if PyStr.truthy cell then
    match float_of_str (PyStr.replace "," "" (PyStr.replace "$" "" cell)) with
    | Some x => ValueFloat x
    | None => ValueFloat float_zero
    end
  else ValueText cell.

(** The body of [for row in rows[1:]] for one row: rows with fewer than
    five cells are passed over. *)
Definition lead_of_row (cols : list string) : option lead :=
  if (5 <=? length cols) then
    Some (Lead (nth 0 cols "") (nth 1 cols "") (nth 3 cols "")
               (if (5 <? length cols) then clean_value (nth 5 cols "")
                else ValueText "")
               (nth 4 cols "") (nth 2 cols "") "issued")
  else None.

(** The [for attempt in range(max_retries)] loop, recursing on the number
    [todo] of iterations left; [leads] is the list being returned. *)
Fixpoint retry_loop (w : world) (max_retries : nat) (todo attempt : nat)
    (leads : list lead) (log : list event) : list lead * list event :=
  match todo with
  | O => (leads, log)
  | S todo' =>
    let log := log ++ [Request attempt] in
    let backoff := Backoff (uniform w attempt) (2 ^ Z.of_nat attempt)%Z in
    match fetch w attempt with
    | Rows rows =>
      if (length rows <=? 1) then
        if (attempt <? max_retries - 1) then
          retry_loop w max_retries todo' (S attempt) leads (log ++ [backoff])
        else (leads, log)
      else (leads ++ omap lead_of_row (tail rows), log)
    | RequestException | OtherException =>
      if (attempt <? max_retries - 1) then
        retry_loop w max_retries todo' (S attempt) leads (log ++ [backoff])
      else retry_loop w max_retries todo' (S attempt) leads log
    end
  end.

(** The requests in a log, by attempt index. *)
Definition requests (l : list event) : list nat :=
  omap (λ e, match e with Request a => Some a | _ => None end) l.

(** The pauses in a log, as (draw, factor). *)
Definition backoffs (l : list event) : list (Q * Z) :=
  omap (λ e, match e with Backoff u f => Some (u, f) | _ => None end) l.

(** An attempt that raised. *)
Definition raised (r : fetched) : bool :=
  match r with
  | RequestException | OtherException => true
  | Rows _ => false
  end.

(** An attempt that brings no table with a data row: it raised, or the
    page has at most a header row. *)
Definition no_data (r : fetched) : bool :=
  match r with
  | RequestException | OtherException => true
  | Rows rows => length rows <=? 1
  end.

(** The log of the attempts [attempt .. attempt + n] when all but the last
    bring no data: a request, then a pause drawn at random and doubled
    with each attempt, before the next request. *)
Fixpoint request_log (w : world) (attempt n : nat) : list event :=
  match n with
  | O => [Request attempt]
  | S n' => Request attempt :: Backoff (uniform w attempt) (2 ^ Z.of_nat attempt)%Z
            :: request_log w (S attempt) n'
  end.

(** The retry count is the local constant [max_retries = 3]. *)
Definition max_retries : nat := 3.

(** [get_leads_for_city(city_name)] *)
Definition get_leads_for_city (w : world) (city_name : string)
    : list lead * list event :=
  if decide (PyStr.lower city_name = "snohomish") then
    retry_loop w max_retries max_retries 0 [] []
  else ([], []).

End GetLeads.

End Snohomish.

(** ** The retry decorator of utils.py *)

Module Retry.

Section Primitive.
Context {A E : Type}.

(** What one invocation of the wrapped operation does: it returns a value
    or raises an error. *)
Inductive outcome :=
| Returned (value : A)
| Raised (error : E).

(** Effects of the primitive, in program order: an invocation of the
    operation, numbered from 1, and a wait. *)
Inductive event :=
| Invoked (attempt_number : nat)
| Waited (seconds : Q).

(** Modelled from the spec: the body of [retry_with_backoff], the
    decorator of utils.py that the scrapers put on their fetch methods
    ([@retry_with_backoff(max_retries=3, initial_delay=2,
    exceptions=(requests.RequestException,))]); utils.py is not among the
    sources. Section 4.1 of the specification: execute the operation; on a
    transient failure wait [initial_delay * attempt_number] and retry; on a
    non-transient failure propagate immediately; after exhausting attempts
    propagate the last failure. [operation n] is what the [n]-th invocation
    does, [transient] is the set of error kinds considered transient, and
    [retries_left] is the number of re-invocations still allowed. *)
Fixpoint attempts (transient : E → bool) (initial_delay : Q)
    (operation : nat → outcome) (retries_left attempt_number : nat)
    {struct retries_left} : outcome * list event :=
  match operation attempt_number with
  | Returned value => (Returned value, [Invoked attempt_number])
  | Raised error =>
    if transient error then
      match retries_left with
      | O => (Raised error, [Invoked attempt_number])
      | S retries_left' =>
        let r := attempts transient initial_delay operation retries_left'
                   (S attempt_number) in
        (r.1, Invoked attempt_number
              :: Waited (initial_delay * inject_Z (Z.of_nat attempt_number))
              :: r.2)
      end
    else (Raised error, [Invoked attempt_number])
  end.

(** Modelled from the spec: [retry_with_backoff(max_retries, initial_delay,
    exceptions)] applied to an operation (utils.py, not among the sources).
    The first invocation has attempt number 1, and [max_retries]
    re-invocations may follow it (section 8 of the specification: an
    operation that always raises a transient error is invoked exactly
    [max_retries + 1] times). *)
Definition retry_with_backoff (max_retries : nat) (initial_delay : Q)
    (transient : E → bool) (operation : nat → outcome) : outcome * list event :=
  attempts transient initial_delay operation max_retries 1.

(** The invocations in a log, by attempt number. *)
Definition invocations (l : list event) : list nat :=
  omap (λ e, match e with Invoked a => Some a | _ => None end) l.

(** The waits in a log, in seconds. *)
Definition waits (l : list event) : list Q :=
  omap (λ e, match e with Waited q => Some q | _ => None end) l.

(** The log of the attempts [attempt_number .. attempt_number + n] when
    all but the last fail with a transient error: an invocation, then a
    wait of [initial_delay] times its attempt number before the next. *)
Fixpoint retry_log (initial_delay : Q) (attempt_number n : nat) : list event :=
  match n with
  | O => [Invoked attempt_number]
  | S n' => Invoked attempt_number
            :: Waited (initial_delay * inject_Z (Z.of_nat attempt_number))
            :: retry_log initial_delay (S attempt_number) n'
  end.

End Primitive.

Arguments outcome : clear implicits.
Arguments event : clear implicits.

End Retry.

(** ** backend/scrapers/charlotte.py *)

Module Charlotte.
Import PyVal.

Section Scraper.
Context {py : PyBuiltins}.

(** One element of a fetched page that is a JSON object. The text columns
    hold [Some s] for a JSON string and [None] for a missing key or null;
    [raw_id] is [str()] of the ['id'] value, [None] when the key is
    missing. *)
Record raw_record := Raw {
  raw_permit_number : option string;
  raw_permit_id : option string;
  raw_id : option string;
  raw_address : option string;
  raw_permit_type : option string;
  raw_cost : jvalue;
  raw_issued_date : option string;
  raw_status : option string
}.

(** One dict appended to [self.permits]. *)
Record permit := Permit {
  permit_number : string;
  address : string;
  type : string;
  value : pynum;
  issued_date : string;
  status : string
}.

(** [record.get(key) or default] on a text column. *)
Definition get_or (v : option string) (default : string) : string :=
  match v with
  | Some s => if PyStr.truthy s then s else default
  | None => default
  end.

(** [_parse_cost] *)
Definition _parse_cost (value : jvalue) : pynum :=
  if negb (truthy value) then PyInt 0
  else
    let number (n : Z) :=
      match float_of_int n with
      | Some x => PyFloat x
      | None => PyInt 0
      end in
    match value with
    | JBool b => number (if b then 1 else 0)%Z
    | JInt n => number n
    | JFloat x => PyFloat x
    | JNull | JStr _ | JContainer _ _ => float_of_text (render value)
    end.

(** [_format_date] *)
Definition _format_date (date_str : option string) : string :=
  match date_str with
  | None => "N/A"
  | Some s =>
    if negb (PyStr.truthy s) then "N/A"
    else
      let parsed :=
        if PyStr.contains "T" s
        then fromisoformat (PyStr.replace "Z" "+00:00" s)
        else strptime_ymd s in
      match parsed with
      | Some dt => strftime_ymd dt
      | None => "N/A"
      end
  end.

(** [record.get('permit_number') or record.get('permit_id') or
    str(record.get('id', ''))] *)
Definition permit_id_of (record : raw_record) : string :=
  get_or (raw_permit_number record)
    (get_or (raw_permit_id record) (default "" (raw_id record))).

(** The dict built for a record (lines 78-85). *)
Definition normalize (record : raw_record) : permit :=
  Permit (permit_id_of record)
         (get_or (raw_address record) "N/A")
         (get_or (raw_permit_type record) "N/A")
         (_parse_cost (if truthy (raw_cost record) then raw_cost record else JInt 0))
         (_format_date (raw_issued_date record))
         (get_or (raw_status record) "N/A").

(** What [_fetch_batch] gives once its retry decorator is done: a JSON
    list, a [requests.RequestException], or another exception. An element
    of the list that is not a JSON object is [None]; reading a field of it
    raises. A reply that is not a list behaves as [Page []] when it is
    falsy and as [Page [None]] otherwise. *)
Inductive response :=
| Page (data : list (option raw_record))
| RequestException
| OtherException.

(** Effects of the scraper, in program order. The helpers of [utils.py]
    ([save_partial_results], the health check) are recorded by their calls:
    [SavePartial] is [save_partial_results(self.permits, <partial file>,
    'charlotte')]. *)
Inductive event :=
| Fetch (offset limit : nat)
| Sleep (seconds : Q)
| SavePartial (permits : list permit)
| HealthSuccess (count : nat)
| HealthFailure (reason : string).

(** The object: [self.permits], [self.seen_permit_ids], and the effects. *)
Definition scraper : Type := Store.scraper permit event.

(** [__init__] *)
Definition init : scraper := Store.init.

(** The body of [for record in data] (lines 75-85). *)
Definition add_record (record : raw_record) (self : scraper) : scraper :=
  Store.add (permit_id_of record) (normalize record) self.

(** [for record in data]: the flag is true when an element raised; the
    elements before it have been handled. *)
Fixpoint add_records (data : list (option raw_record)) (self : scraper)
    : scraper * bool :=
  match data with
  | [] => (self, false)
  | Some record :: rest => add_records rest (add_record record self)
  | None :: _ => (self, true)
  end.

Definition batch_size : nat := 1000.
Definition max_consecutive_failures : nat := 3.

(** Both [except] branches: count the failure; at the threshold save what
    has been collected under the partial file name and leave the loop
    ([inl]), otherwise carry on with the next offset ([inr]). *)
Definition on_failure (consecutive_failures : nat) (self : scraper)
    : scraper + (nat * scraper) :=
  let consecutive_failures := S consecutive_failures in
  if (max_consecutive_failures <=? consecutive_failures) then
    inl (match Store.permits self with
         | [] => self
         | _ => Store.emit (SavePartial (Store.permits self)) self
         end)
  else inr (consecutive_failures, Store.emit (Sleep 2) self).

(** The [while total_fetched < max_permits] loop. Each iteration consumes
    the reply to its [_fetch_batch] call from [replies]; once the replies
    are used up the source answers with an empty page. *)
Fixpoint scrape_loop (replies : list response) (max_permits : nat)
    (offset total_fetched consecutive_failures : nat) (self : scraper)
    : scraper :=
  if negb (total_fetched <? max_permits) then self
  else
    let self :=
      Store.emit (Fetch offset (Nat.min batch_size (max_permits - total_fetched)))
        self in
    match replies with
    | [] => self
    | Page [] :: _ => self
    | Page data :: replies' =>
      match add_records data self with
      | (self, false) =>
        let total_fetched := (total_fetched + length data) in
        if (length data <? batch_size) then self
        else scrape_loop replies' max_permits (offset + batch_size)
               total_fetched 0 (Store.emit (Sleep (1 # 2)) self)
      | (self, true) =>
        match on_failure 0 self with
        | inl self => self
        | inr (consecutive_failures, self) =>
          scrape_loop replies' max_permits (offset + batch_size)
            total_fetched consecutive_failures self
        end
      end
    | (RequestException | OtherException) :: replies' =>
      match on_failure consecutive_failures self with
      | inl self => self
      | inr (consecutive_failures, self) =>
        scrape_loop replies' max_permits (offset + batch_size)
          total_fetched consecutive_failures self
      end
    end.

(** [scrape_permits(max_permits, days_back)]: the returned list is
    [self.permits] itself. *)
Definition scrape_permits (replies : list response) (max_permits : nat)
    (self : scraper) : list permit * scraper :=
  let self := scrape_loop replies max_permits 0 0 0 self in
  let self :=
    match Store.permits self with
    | [] => Store.emit (HealthFailure "No permits retrieved") self
    | _ => Store.emit (HealthSuccess (length (Store.permits self))) self
    end in
  (Store.permits self, self).

(** The ids of a permit list, in order. *)
Definition ids (l : list permit) : list string := map permit_number l.

(** [for record in data] on a page whose elements are all JSON objects. *)
Definition collect (records : list raw_record) (self : scraper) : scraper :=
  foldl (λ self record, add_record record self) self records.

(** The fetches in a log, as (offset, limit). *)
Definition fetches (l : list event) : list (nat * nat) :=
  omap (λ e, match e with Fetch o n => Some (o, n) | _ => None end) l.

(** The partial saves in a log. *)
Definition partial_saves (l : list event) : list (list permit) :=
  omap (λ e, match e with SavePartial ps => Some ps | _ => None end) l.

(** A reply that is an exception. *)
Definition is_exception (r : response) : bool :=
  match r with
  | Page _ => false
  | RequestException | OtherException => true
  end.

(** The pauses in a log. *)
Definition pauses (l : list event) : list Q :=
  omap (λ e, match e with Sleep q => Some q | _ => None end) l.

(** What a call added to the log of the object [self]. *)
Definition logged_since (self self' : scraper) : list event :=
  drop (length (Store.events self)) (Store.events self').

(** A list of fetches that walks through the source page by page: the
    offsets start at [offset] and advance by [batch_size] with every fetch,
    and every limit is at least 1 and at most [batch_size] and
    [max_permits]. *)
Definition paged (offset max_permits : nat) (l : list (nat * nat)) : Prop :=
  l.*1 = map (λ i, offset + i * batch_size) (seq 0 (length l))
  ∧ Forall (λ limit, 1 ≤ limit ≤ batch_size ∧ limit ≤ max_permits) l.*2.

End Scraper.

End Charlotte.

(** ** scrapers/dallas.py *)

Module Dallas.
Import PyVal.

Section Scraper.
Context {py : PyBuiltins}.

(** The attributes of one feature. [PERMIT_No] is the id as the code
    computes it, [str(attrs.get('PERMIT_No', '')).strip()]. *)
Record feature := Feature {
  PERMIT_No : string;
  ADDRESS : attribute;
  PERMIT_TYPE : attribute;
  VALUE : jvalue;
  ISSUE_DATE : jvalue;
  Status : attribute
}.

(** One dict appended to [self.permits]; a text field holds [None] for a
    null attribute. *)
Record permit := Permit {
  permit_number : string;
  address : option string;
  type : option string;
  value : pynum;
  issued_date : string;
  status : option string
}.

(** [attrs.get(key, 'N/A')] *)
Definition get_default (a : attribute) (default : string) : option string :=
  match a with
  | Missing => Some default
  | Null => None
  | Text s => Some s
  end.

(** [_parse_cost] *)
Definition _parse_cost (value : jvalue) : pynum :=
  if truthy value then float_of_text (render value) else PyInt 0.

(** [_format_date] *)
Definition _format_date (timestamp : jvalue) : string :=
  if negb (truthy timestamp) then "N/A"
  else match timestamp with
       | JBool _ | JInt _ | JFloat _ =>
         let seconds :=
           match timestamp with
           | JInt n => Some n
           | JFloat x => int_of_float x
           | _ => Some 1%Z
           end in
         match seconds ≫= fromtimestamp_ms with
         | Some dt => strftime_ymd dt
         | None => "N/A"
         end
       | _ => PyStr.take 10 (render timestamp)
       end.

(** The dict built for a feature (lines 99-106). *)
Definition normalize (f : feature) : permit :=
  Permit (PERMIT_No f)
         (get_default (ADDRESS f) "N/A")
         (get_default (PERMIT_TYPE f) "N/A")
         (_parse_cost (VALUE f))
         (_format_date (ISSUE_DATE f))
         (get_default (Status f) "N/A").

(** What [_fetch_arcgis_batch] gives: the list under ['features'] (empty
    when the key is missing), or an exception. An element whose attributes
    cannot be read is [None]. *)
Inductive response :=
| Features (features : list (option feature))
| RequestException
| OtherException.

Inductive event :=
| Fetch (offset limit : nat)
| Sleep (seconds : Q)
| SavePartial (permits : list permit)
| HealthSuccess (count : nat)
| HealthFailure (reason : string).

Definition scraper : Type := Store.scraper permit event.

(** [__init__] *)
Definition init : scraper := Store.init.

(** The body of [for feature in data['features']] (lines 94-106): an empty
    id is passed over. *)
Definition add_feature (f : feature) (self : scraper) : scraper :=
  if PyStr.truthy (PERMIT_No f) then Store.add (PERMIT_No f) (normalize f) self
  else self.

Fixpoint add_features (features : list (option feature)) (self : scraper)
    : scraper * bool :=
  match features with
  | [] => (self, false)
  | Some f :: rest => add_features rest (add_feature f self)
  | None :: _ => (self, true)
  end.

Definition batch_size : nat := 1000.
Definition max_consecutive_failures : nat := 3.

(** Both [except] branches of [_try_arcgis_api]. *)
Definition on_failure (consecutive_failures : nat) (self : scraper)
    : scraper + (nat * scraper) :=
  let consecutive_failures := S consecutive_failures in
  if (max_consecutive_failures <=? consecutive_failures) then
    inl (match Store.permits self with
         | [] => self
         | _ => Store.emit (SavePartial (Store.permits self)) self
         end)
  else inr (consecutive_failures, Store.emit (Sleep 2) self).

(** The [while len(self.permits) < max_permits] loop of
    [_try_arcgis_api]; replies are consumed as in Charlotte's loop. *)
Fixpoint arcgis_loop (replies : list response) (max_permits : nat)
    (offset consecutive_failures : nat) (self : scraper) : scraper :=
  if negb (length (Store.permits self) <? max_permits) then self
  else
    let self :=
      Store.emit (Fetch offset (Nat.min batch_size
                                  (max_permits - length (Store.permits self))))
        self in
    match replies with
    | [] => self
    | Features [] :: _ => self
    | Features features :: replies' =>
      match add_features features self with
      | (self, false) =>
        if (length features <? batch_size) then self
        else arcgis_loop replies' max_permits (offset + batch_size) 0
               (Store.emit (Sleep (1 # 2)) self)
      | (self, true) =>
        match on_failure 0 self with
        | inl self => self
        | inr (consecutive_failures, self) =>
          arcgis_loop replies' max_permits (offset + batch_size)
            consecutive_failures self
        end
      end
    | (RequestException | OtherException) :: replies' =>
      match on_failure consecutive_failures self with
      | inl self => self
      | inr (consecutive_failures, self) =>
        arcgis_loop replies' max_permits (offset + batch_size)
          consecutive_failures self
      end
    end.

(** [_try_arcgis_api]: returns [len(self.permits) > 0]. *)
Definition _try_arcgis_api (replies : list response) (max_permits : nat)
    (self : scraper) : bool * scraper :=
  let self := arcgis_loop replies max_permits 0 0 self in
  ((0 <? length (Store.permits self)), self).

(** [scrape_permits]: the single endpoint is tried; on success the
    returned list is [self.permits] itself, otherwise a new empty list. *)
Definition scrape_permits (replies : list response) (max_permits : nat)
    (self : scraper) : list permit * scraper :=
  let '(success, self) := _try_arcgis_api replies max_permits self in
  if success && (0 <? length (Store.permits self)) then
    (Store.permits self,
     Store.emit (HealthSuccess (length (Store.permits self))) self)
  else ([], Store.emit (HealthFailure "All endpoints failed") self).

(** The ids of a permit list, in order. *)
Definition ids (l : list permit) : list string := map permit_number l.

(** The fetches in a log, as (offset, limit). *)
Definition fetches (l : list event) : list (nat * nat) :=
  omap (λ e, match e with Fetch o n => Some (o, n) | _ => None end) l.

End Scraper.

End Dallas.

(** ** scrapers/milwaukee.py *)

Module Milwaukee.
Import PyVal.

(** One element of a fetched page that is a JSON object; a text column
    holds [Some s] for a JSON string, [None] for a missing key or null. *)
Record raw_record := Raw {
  raw_permit_number : option string;
  raw_address : option string;
  raw_permit_type : option string;
  raw_project_value : attribute;
  raw_status : option string;
  raw_issue_date : option string
}.

(** One dict appended to [self.permits]. *)
Record permit := Permit {
  permit_number : string;
  address : string;
  permit_type : string;
  description : string;
  date : string;
  city : string
}.

(** [record.get(key) or default] on a text column. *)
Definition get_or (v : option string) (default : string) : string :=
  match v with
  | Some s => if PyStr.truthy s then s else default
  | None => default
  end.

(** The dict built for a record with id [pid] (lines 46-53). *)
Definition normalize (pid : string) (record : raw_record) : permit :=
  Permit pid
         (get_or (raw_address record) "N/A")
         (get_or (raw_permit_type record) "N/A")
         ("Value: "
            +:+ match raw_project_value record with
                | Missing => "$0.00"
                | Null => "None"
                | Text s => s
                end
            +:+ ", Status: " +:+ get_or (raw_status record) "N/A")
         (match raw_issue_date record with
          | Some s => if PyStr.truthy s then PyStr.before "T" s else "N/A"
          | None => "N/A"
          end)
         "Milwaukee".

(** What [_fetch_batch] gives: a JSON list or an exception. *)
Inductive response :=
| Page (data : list (option raw_record))
| Exception.

Inductive event :=
| Fetch (offset : nat)
| LogError.

Definition scraper : Type := Store.scraper permit event.

(** [__init__] *)
Definition init : scraper := Store.init.

(** The body of [for record in data] (lines 42-53): a record without a
    permit number is passed over. *)
Definition add_record (record : raw_record) (self : scraper) : scraper :=
  match raw_permit_number record with
  | Some pid =>
    if PyStr.truthy pid then Store.add pid (normalize pid record) self else self
  | None => self
  end.

Fixpoint add_records (data : list (option raw_record)) (self : scraper)
    : scraper * bool :=
  match data with
  | [] => (self, false)
  | Some record :: rest => add_records rest (add_record record self)
  | None :: _ => (self, true)
  end.

(** The [while len(self.permits) < max_permits] loop inside the [try] of
    the single endpoint: an exception, from the fetch or from a record,
    ends the endpoint under [except Exception]. *)
Fixpoint endpoint_loop (replies : list response) (max_permits offset : nat)
    (self : scraper) : scraper :=
  if negb (length (Store.permits self) <? max_permits) then self
  else
    let self := Store.emit (Fetch offset) self in
    match replies with
    | [] => self
    | Page [] :: _ => self
    | Page data :: replies' =>
      match add_records data self with
      | (self, false) =>
        if (length data <? 1000) then self
        else endpoint_loop replies' max_permits (offset + 1000) self
      | (self, true) => Store.emit LogError self
      end
    | Exception :: _ => Store.emit LogError self
    end.

(** [get_permits]: the returned list is [self.permits] itself. *)
Definition get_permits (replies : list response) (max_permits : nat)
    (self : scraper) : list permit * scraper :=
  let self := endpoint_loop replies max_permits 0 self in
  (Store.permits self, self).

(** The ids of a permit list, in order. *)
Definition ids (l : list permit) : list string := map permit_number l.

End Milwaukee.

(** ** Concrete inputs on which the statements below are evaluated *)

Module Samples.

(** Every scraper comes back empty-handed at every attempt. *)
Definition barren : Scheduler.world unit :=
  Scheduler.World (λ _ _, Scheduler.Returned []) "Mon Jan  1 05:00:00 2024".



(** A small runtime: floats are the whole numbers written in decimal
    digits, a date is its first ten characters. *)
Fixpoint digits_value (acc : Z) (s : string) : option Z :=
  match s with
  | EmptyString => Some acc
  | String a rest =>
    let n := nat_of_ascii a in
    if ((48 <=? n) && (n <=? 57))
    then digits_value (10 * acc + Z.of_nat (n - 48))%Z rest
    else None
  end.

Definition runtime : PyBuiltins := {|
  float := Z;
  float_of_int := λ n, Some n;
  float_of_str := λ s, if PyStr.truthy s then digits_value 0 s else None;
  float_is_zero := λ x, (x =? 0)%Z;
  float_zero := 0%Z;
  float_repr := λ x, pretty x;
  int_of_float := λ x, Some x;
  datetime := string;
  fromisoformat := λ s, if (10 <=? String.length s) then Some (PyStr.take 10 s) else None;
  strptime_ymd := λ s, if (String.length s =? 10) then Some s else None;
  fromtimestamp_ms := λ n, if (0 <=? n)%Z then Some "1970-01-01" else None;
  strftime_ymd := λ d, d
|}.

(** Charlotte: the record numbered [n], with permit number "P" followed by
    the decimal digits of [n]. *)
Definition record_of (n : nat) : @Charlotte.raw_record runtime :=
  Charlotte.Raw (Some ("P" +:+ pretty n)) None None (Some "600 E 4th St")
    (Some "Commercial") (PyVal.JStr "$12,500") (Some "2024-01-01T00:00:00.000")
    (Some "Issued").

(** A record in which every column is missing. *)
Definition bare_record : @Charlotte.raw_record runtime :=
  Charlotte.Raw None None None None None PyVal.JNull None None.

(** A record that has an address but no permit number, permit id or
    id. *)
Definition nameless_record : @Charlotte.raw_record runtime :=
  Charlotte.Raw None None None (Some "201 N Tryon St") None PyVal.JNull None None.

(** Two full pages: the records numbered 0 to 999 and 1000 to 1999. *)
Definition page1 : list (@Charlotte.raw_record runtime) :=
  map record_of (seq 0 Charlotte.batch_size).
Definition page2 : list (@Charlotte.raw_record runtime) :=
  map record_of (seq Charlotte.batch_size Charlotte.batch_size).

(** A short page of three records, one of them twice. *)
Definition short_page : list (option (@Charlotte.raw_record runtime)) :=
  [Some (record_of 1); Some (record_of 2); Some (record_of 1); Some (record_of 3)].

(** Dallas: the feature with permit number "D" followed by the digits of
    [n]. *)
Definition feature_of (n : nat) : @Dallas.feature runtime :=
  Dallas.Feature ("D" +:+ pretty n) (PyVal.Text "1500 Marilla St") PyVal.Missing
    (PyVal.JInt 25000) (PyVal.JInt 1704067200000) PyVal.Null.

(** A page of Dallas features, one of them twice and one without an id. *)
Definition feature_page : list (option (@Dallas.feature runtime)) :=
  [Some (feature_of 1); Some (feature_of 2); Some (feature_of 1);
   Some (Dallas.Feature "" PyVal.Missing PyVal.Missing PyVal.JNull PyVal.JNull
           PyVal.Missing)].

(** A Dallas scraper object that holds one permit from an earlier call. *)
Definition dallas_used : @Dallas.scraper runtime :=
  Store.Scraper [Dallas.normalize (feature_of 1)] {["D1"]} [].

(** A full page of Dallas features, numbered 0 to 999. *)
Definition feature_full_page : list (@Dallas.feature runtime) :=
  map feature_of (seq 0 Dallas.batch_size).

(** Milwaukee: the record with permit number "M" followed by the digits
    of [n]. *)
Definition milwaukee_record (n : nat) : Milwaukee.raw_record :=
  Milwaukee.Raw (Some ("M" +:+ pretty n)) (Some "841 N Broadway") None
    (PyVal.Text "$5,000.00") (Some "Issued") (Some "2024-01-01T00:00:00.000").

(** Snohomish: every request fails in transport; the draws of
    [random.uniform(1, 3)] are 3, then 1. *)
Definition unreachable : Snohomish.world :=
  Snohomish.World (λ _, Snohomish.RequestException)
                  (λ attempt, match attempt with 0 => 3%Q | _ => 1%Q end).

(** Snohomish: the first request fails with an exception that is not a
    transport error; the second returns a header and one permit row. *)
Definition parse_error_once : Snohomish.world :=
  Snohomish.World
    (λ attempt,
       match attempt with
       | 0 => Snohomish.OtherException
       | _ => Snohomish.Rows
                [ ["Permit"; "Address"; "Owner"; "Type"; "Date"; "Value"];
                  ["B-1"; "1 Main St"; "Ann"; "Roof"; "2024-01-01"; "$1,200"] ]
       end)
    (λ _, 2%Q).

(** The two kinds of error a fetch raises: a transport error
    ([requests.RequestException]), which the scrapers pass to the retry
    decorator as transient, and any other exception. *)
Inductive fetch_error := Transport | Parse.

Definition transport_only (e : fetch_error) : bool :=
  match e with Transport => true | Parse => false end.

(** A fetch that fails in transport at every invocation. *)
Definition always_down : nat → Retry.outcome string fetch_error :=
  λ _, Retry.Raised Transport.

(** A fetch that fails in transport once and then raises an error of
    another kind. *)
Definition down_then_broken : nat → Retry.outcome string fetch_error :=
  λ attempt_number,
    match attempt_number with
    | 1 => Retry.Raised Transport
    | _ => Retry.Raised Parse
    end.

(** Snohomish: a page without a table, a transport error, then a table
    that has only its header row. *)
Definition empty_tables : Snohomish.world :=
  Snohomish.World
    (λ attempt,
       match attempt with
       | 0 => Snohomish.Rows []
       | 1 => Snohomish.RequestException
       | _ => Snohomish.Rows [ ["Permit"; "Address"; "Owner"; "Type"; "Date"; "Value"] ]
       end)
    (λ _, 2%Q).

End Samples.

(** * Properties *)

(** ** Target selection (backend/scheduler.py, [get_next_city]) *)

Section Selection.
Import Scheduler.

Lemma slots_app city l1 l2 : slots city (l1 ++ l2) = slots city l1 + slots city l2.
Proof. unfold slots. by rewrite filter_app, length_app. Qed.

Lemma slots_replicate_same city n : slots city (replicate n city) = n.
Proof.
  unfold slots. induction n as [|n IH]; [done|].
  cbn [replicate]. rewrite filter_cons_True by done. cbn. by rewrite IH.
Qed.

Lemma slots_replicate_other city other n :
  other ≠ city → slots city (replicate n other) = 0.
Proof.
  intros Hne. unfold slots. induction n as [|n IH]; [done|].
  cbn [replicate]. by rewrite filter_cons_False.
Qed.

Lemma failure_penalty_floor failures : (1 ≤ failure_penalty failures)%Z.
Proof. unfold failure_penalty. lia. Qed.

Lemma failure_penalty_antitone f1 f2 :
  f1 ≤ f2 → (failure_penalty f2 ≤ failure_penalty f1)%Z.
Proof. unfold failure_penalty. lia. Qed.

Lemma CITIES_priority_pos city priority :
  (city, priority) ∈ CITIES → (0 < priority)%Z.
Proof.
  unfold CITIES. rewrite !elem_of_cons, elem_of_nil.
  intros H. repeat destruct H as [H|H]; try done; injection H; lia.
Qed.

Lemma slots_weighted_cities fc city priority :
  (city, priority) ∈ CITIES →
  slots city (weighted_cities fc) = Z.to_nat (weight priority (count_of fc city)).
Proof.
  unfold CITIES. rewrite !elem_of_cons, elem_of_nil.
  intros H. unfold weighted_cities, CITIES. cbn [foldl].
  unfold extend_pool. cbn [fst snd].
  repeat destruct H as [H|H]; try done; injection H as -> ->;
    rewrite !slots_app;
    rewrite slots_replicate_same;
    rewrite !slots_replicate_other by (intros Heq; discriminate Heq);
    unfold slots; cbn; lia.
Qed.

(** C2: for every city of the priority table and every state of the
    failure counters, the city holds exactly
    [priority * max(1, 5 - failures)] slots of the pool the scheduler draws
    from; this weight is at least [priority * 1], so the city holds at least
    one slot and some draw selects it; and a city of the same priority with
    at least as many consecutive failures has no larger weight and no more
    slots. *)
Theorem selection_weight (fc : gmap string nat) (city : string) (priority : Z) :
  (city, priority) ∈ CITIES →
  let failures := count_of fc city in
  let pool := weighted_cities fc in
  Z.of_nat (slots city pool) = (priority * Z.max 1 (5 - Z.of_nat failures))%Z
  ∧ weight priority failures = (priority * Z.max 1 (5 - Z.of_nat failures))%Z
  ∧ (priority * 1 ≤ weight priority failures)%Z
  ∧ 0 < slots city pool
  ∧ (∃ choice, choice < length pool ∧ get_next_city choice fc = Some city)
  ∧ (∀ city', (city', priority) ∈ CITIES → failures ≤ count_of fc city' →
       (weight priority (count_of fc city') ≤ weight priority failures)%Z
       ∧ slots city' pool ≤ slots city pool).
Proof.
  intros Hin failures pool.
  pose proof (CITIES_priority_pos _ _ Hin) as Hpos.
  pose proof (failure_penalty_floor failures) as Hfloor.
  assert (Hslots : slots city pool = Z.to_nat (weight priority failures))
    by (by apply slots_weighted_cities).
  assert (Hw : (priority * 1 ≤ weight priority failures)%Z)
    by (unfold weight; nia).
  assert (Hsome : 0 < slots city pool) by lia.
  split_and!; try done.
  - rewrite Hslots, Z2Nat.id by lia. done.
  - unfold slots in Hsome.
    destruct (filter (λ c, c = city) pool) as [|c rest] eqn:Hf; [cbn in Hsome; lia|].
    assert (Hc : c ∈ filter (λ c, c = city) pool) by (rewrite Hf; left).
    apply list_elem_of_filter in Hc as [-> Hc].
    apply list_elem_of_lookup in Hc as [i Hi].
    exists i. split; [by eapply lookup_lt_Some | done].
  - intros city' Hin' Hle.
    pose proof (failure_penalty_antitone _ _ Hle) as Hanti.
    assert (Hw' : (weight priority (count_of fc city') ≤ weight priority failures)%Z)
      by (unfold weight; apply Z.mul_le_mono_nonneg_l; lia).
    split; [done|].
    rewrite Hslots. unfold pool. rewrite (slots_weighted_cities fc city' priority Hin'). lia.
Qed.

(** C2 at a concrete state: charlotte (priority 3) after 4 failures. *)
Lemma selection_weight_witness :
  ("charlotte", 3%Z) ∈ CITIES
  ∧ Z.of_nat (slots "charlotte" (weighted_cities {["charlotte" := 4]})) = 3%Z.
Proof.
  assert (Hin : ("charlotte", 3%Z) ∈ CITIES)
    by (unfold CITIES; rewrite !elem_of_cons; tauto).
  split; [exact Hin|].
  exact (proj1 (selection_weight {["charlotte" := 4]} "charlotte" 3 Hin)).
Defined.

End Selection.

(** ** Outer retry and alerting (backend/scheduler.py, [run_scraper]) *)

Section OuterRetry.
Import Scheduler.
Context {permit : Type}.
Implicit Types (w : world permit) (st : state) (l : list event).

Lemma emit_logged e st l : emit e (logged st l) = logged st (l ++ [e]).
Proof. unfold emit, logged. cbn. by rewrite <- (assoc_L (++)). Qed.

Lemma emit_as_logged e st : emit e st = logged st [e].
Proof. done. Qed.

Lemma logged_nil st : logged st [] = st.
Proof. destruct st. unfold logged. cbn. by rewrite (right_id_L [] (++)). Qed.

Lemma logged_logged st l1 l2 : logged (logged st l1) l2 = logged st (l1 ++ l2).
Proof. unfold logged. cbn. by rewrite <- (assoc_L (++)). Qed.

Lemma new_events_logged st l fc ls :
  new_events st (State fc ls (events st ++ l)) = l.
Proof. unfold new_events. cbn. by rewrite drop_app_length. Qed.

Lemma alerts_app l1 l2 : alerts (l1 ++ l2) = alerts l1 ++ alerts l2.
Proof. apply omap_app. Qed.
Lemma sleeps_app l1 l2 : sleeps (l1 ++ l2) = sleeps l1 ++ sleeps l2.
Proof. apply omap_app. Qed.
Lemma invocations_app l1 l2 :
  invocations (l1 ++ l2) = invocations l1 ++ invocations l2.
Proof. apply omap_app. Qed.
Lemma reports_app l1 l2 : reports (l1 ++ l2) = reports l1 ++ reports l2.
Proof. apply omap_app. Qed.

Lemma retry_log_invocations c attempt n :
  invocations (retry_log c attempt n) = map (pair c) (seq attempt (S n)).
Proof.
  revert attempt. induction n as [|n IH]; intros attempt; [done|].
  cbn [retry_log invocations omap]. cbn. f_equal. apply IH.
Qed.

Lemma retry_log_sleeps c attempt n :
  sleeps (retry_log c attempt n) = map (λ k, 5 * k) (seq (S attempt) n).
Proof.
  revert attempt. induction n as [|n IH]; intros attempt; [done|].
  cbn [retry_log]. change (sleeps (?a :: ?b :: ?r)) with (5 * (attempt + 1) :: sleeps r).
  rewrite IH. cbn [seq map]. f_equal. f_equal. lia.
Qed.

Lemma retry_log_alerts c attempt n : alerts (retry_log c attempt n) = [].
Proof. revert attempt. induction n as [|n IH]; intros attempt; [done|]. apply IH. Qed.

Lemma retry_log_reports c attempt n : reports (retry_log c attempt n) = [].
Proof. revert attempt. induction n as [|n IH]; intros attempt; [done|]. apply IH. Qed.

Lemma fruitless_returned (permits : list permit) :
  fruitless (Returned permits) = true → (0 <? length permits) = false.
Proof. unfold fruitless. apply negb_true_iff. Qed.

(** A cycle in which no attempt brings a permit: every attempt is made,
    with its pause, and the failure is recorded at the last one. *)
Lemma attempts_all_fruitless w city c max_retries :
  scraper_for city = Some c →
  ∀ todo attempt st,
    attempt + todo = S max_retries → 0 < todo →
    (∀ a, attempt ≤ a ≤ max_retries → fruitless (run w c a) = true) →
    ∃ err, attempts w city max_retries todo attempt st
           = (false, record_failure city err
                       (logged st (retry_log c attempt (todo - 1)))).
Proof.
  intros Hc. induction todo as [|todo IH]; intros attempt st Hsum Hpos Hall; [lia|].
  cbn [attempts]. rewrite Hc.
  assert (Hfr : fruitless (run w c attempt) = true) by (apply Hall; lia).
  destruct (decide (attempt < max_retries)) as [Hlt|Hge].
  - assert (Hltb : (attempt <? max_retries) = true) by (by apply Nat.ltb_lt).
    destruct (IH (S attempt)
                (emit (Sleep (5 * (attempt + 1))) (emit (RunInvoked c attempt) st)))
      as [err Herr]; [lia | lia | intros a Ha; apply Hall; lia |].
    exists err.
    replace (S todo - 1) with (S (todo - 1)) by lia. cbn [retry_log].
    rewrite !emit_as_logged, !logged_logged in Herr. cbn [app] in Herr.
    destruct (run w c attempt) as [permits|e].
    + rewrite (fruitless_returned _ Hfr), Hltb.
      rewrite !emit_as_logged, !logged_logged. exact Herr.
    + rewrite Hltb. rewrite !emit_as_logged, !logged_logged. exact Herr.
  - assert (Hltb : (attempt <? max_retries) = false) by (apply Nat.ltb_ge; lia).
    assert (todo = 0) as -> by lia. cbn [retry_log Nat.sub].
    rewrite emit_as_logged.
    destruct (run w c attempt) as [permits|e].
    + rewrite (fruitless_returned _ Hfr), Hltb. eauto.
    + rewrite Hltb. eauto.
Qed.

(** A cycle whose first fruitful attempt is [k]: the attempts before it are
    made with their pauses, attempt [k] is reported and recorded as a
    success, and nothing is tried after it. *)
Lemma attempts_first_success w city c max_retries k permits :
  scraper_for city = Some c →
  run w c k = Returned permits → 0 < length permits →
  ∀ todo attempt st,
    attempt + todo = S max_retries → attempt ≤ k ≤ max_retries →
    (∀ a, attempt ≤ a < k → fruitless (run w c a) = true) →
    attempts w city max_retries todo attempt st
    = (true, record_success (ctime w) city
               (logged st (retry_log c attempt (k - attempt)
                             ++ [Scraped city (length permits)]))).
Proof.
  intros Hc Hk Hlen. induction todo as [|todo IH]; intros attempt st Hsum Hle Hall; [lia|].
  cbn [attempts]. rewrite Hc.
  destruct (decide (attempt = k)) as [->|Hne].
  - rewrite Hk. assert ((0 <? length permits) = true) as -> by (by apply Nat.ltb_lt).
    rewrite Nat.sub_diag. cbn [retry_log].
    by rewrite !emit_as_logged, logged_logged.
  - assert (Hfr : fruitless (run w c attempt) = true) by (apply Hall; lia).
    assert (Hltb : (attempt <? max_retries) = true) by (apply Nat.ltb_lt; lia).
    specialize (IH (S attempt)
                  (emit (Sleep (5 * (attempt + 1))) (emit (RunInvoked c attempt) st))).
    rewrite !emit_as_logged, !logged_logged in IH. cbn [app] in IH.
    replace (k - attempt) with (S (k - S attempt)) by lia. cbn [retry_log app].
    destruct (run w c attempt) as [permits'|e].
    + rewrite (fruitless_returned _ Hfr), Hltb.
      rewrite !emit_as_logged, !logged_logged.
      apply IH; [lia | lia | intros a Ha; apply Hall; lia].
    + rewrite Hltb. rewrite !emit_as_logged, !logged_logged.
      apply IH; [lia | lia | intros a Ha; apply Hall; lia].
Qed.

(** Among the attempts below [n], either all are fruitless or there is a
    first fruitful one. *)
Lemma first_fruitful w c n :
  (∀ a, a < n → fruitless (run w c a) = true)
  ∨ ∃ k, k < n ∧ fruitless (run w c k) = false
         ∧ ∀ a, a < k → fruitless (run w c a) = true.
Proof.
  induction n as [|n [IH|(k & Hk & Hf & Hb)]].
  - left. lia.
  - destruct (fruitless (run w c n)) eqn:Hn.
    + left. intros a Ha. destruct (decide (a = n)) as [->|]; [done | apply IH; lia].
    + right. exists n. split_and!; [lia | done | done].
  - right. exists k. split_and!; [lia | done | done].
Qed.

Lemma fruitful_returned w c k :
  fruitless (run w c k) = false →
  ∃ permits, run w c k = Returned permits ∧ 0 < length permits.
Proof.
  destruct (run w c k) as [permits|e]; unfold fruitless; [|done].
  intros Hl%negb_false_iff. exists permits. split; [done | by apply Nat.ltb_lt].
Qed.

Lemma count_of_insert fc city n : count_of (<[city := n]> fc) city = n.
Proof. unfold count_of. by rewrite lookup_insert_eq. Qed.

Lemma record_failure_count city err st :
  count_of (failure_counts (record_failure city err st)) city
  = S (count_of (failure_counts st) city).
Proof.
  unfold record_failure, send_alert_email.
  destruct (negb _); cbn; apply count_of_insert.
Qed.

Lemma record_failure_events city err st :
  events (record_failure city err st)
  = events st ++
    (if decide (S (count_of (failure_counts st) city) mod 3 = 0)
     then [AlertEmail city err (S (count_of (failure_counts st) city))]
     else []).
Proof.
  unfold record_failure, send_alert_email.
  destruct (Nat.eqb_spec (S (count_of (failure_counts st) city) mod 3) 0) as [Heq|Hne];
    cbn [negb].
  - rewrite decide_True by done. done.
  - rewrite decide_False by done. cbn. by rewrite (right_id_L [] (++)).
Qed.

(** The two ways a cycle on a configured city can end. *)
Lemma run_scraper_cases w city c max_retries st :
  scraper_for city = Some c →
  ((∀ a, a ≤ max_retries → fruitless (run w c a) = true)
   ∧ ∃ err, run_scraper w city max_retries st
            = (false, record_failure city err (logged st (retry_log c 0 max_retries))))
  ∨ (∃ k permits,
       k ≤ max_retries ∧ fruitless (run w c k) = false
       ∧ (∀ a, a < k → fruitless (run w c a) = true)
       ∧ run w c k = Returned permits ∧ 0 < length permits
       ∧ run_scraper w city max_retries st
         = (true, record_success (ctime w) city
                    (logged st (retry_log c 0 k ++ [Scraped city (length permits)])))).
Proof.
  intros Hc. unfold run_scraper.
  destruct (first_fruitful w c (S max_retries)) as [Hall|(k & Hk & Hf & Hb)].
  - left. split; [intros a Ha; apply Hall; lia|].
    destruct (attempts_all_fruitless w city c max_retries Hc (max_retries + 1) 0 st)
      as [err Herr]; [lia | lia | intros a Ha; apply Hall; lia|].
    exists err. rewrite Herr. by replace (max_retries + 1 - 1) with max_retries by lia.
  - right. destruct (fruitful_returned _ _ _ Hf) as (permits & Hrun & Hlen).
    exists k, permits. split_and!; try done; [lia|].
    rewrite (attempts_first_success w city c max_retries k permits Hc Hrun Hlen);
      [by rewrite Nat.sub_0_r | lia | lia | intros a Ha; apply Hb; lia].
Qed.

(** C4: on a city with a scraper, the cycle fails exactly when every one
    of the [max_retries + 1] attempts returned nothing or raised. In that
    case the scraper was run [max_retries + 1] times, with pauses of
    5, 10, ..., [5 * max_retries] seconds between the runs, and only then
    is the failure counter incremented and the alert routine called.
    Otherwise the first fruitful attempt [k] ends the cycle: [k + 1] runs,
    pauses 5, ..., [5 * k], counter reset to 0, no alert. *)
Theorem outer_retry w city c max_retries st :
  scraper_for city = Some c →
  let r := run_scraper w city max_retries st in
  let new := new_events st r.2 in
  (r.1 = false ↔ ∀ a, a ≤ max_retries → fruitless (run w c a) = true)
  ∧ (r.1 = false →
       invocations new = map (pair c) (seq 0 (max_retries + 1))
       ∧ sleeps new = map (λ n, 5 * n) (seq 1 max_retries)
       ∧ count_of (failure_counts r.2) city = S (count_of (failure_counts st) city)
       ∧ ∃ err, r.2 = record_failure city err (logged st (retry_log c 0 max_retries)))
  ∧ (r.1 = true →
       ∃ k, k ≤ max_retries ∧ fruitless (run w c k) = false
            ∧ (∀ a, a < k → fruitless (run w c a) = true)
            ∧ invocations new = map (pair c) (seq 0 (k + 1))
            ∧ sleeps new = map (λ n, 5 * n) (seq 1 k)
            ∧ count_of (failure_counts r.2) city = 0
            ∧ alerts new = []).
Proof.
  intros Hc r new. subst new r.
  destruct (run_scraper_cases w city c max_retries st Hc)
    as [[Hall [err ->]]|(k & permits & Hk & Hf & Hb & Hrun & Hlen & ->)]; cbn [fst snd].
  - split_and!; [done | | done].
    intros _. split_and!.
    + unfold new_events. rewrite record_failure_events. cbn [logged events].
      rewrite <- (assoc_L (++)), drop_app_length, invocations_app, retry_log_invocations.
      replace (max_retries + 1) with (S max_retries) by lia.
      case_decide; cbn; by rewrite (right_id_L [] (++)).
    + unfold new_events. rewrite record_failure_events. cbn [logged events].
      rewrite <- (assoc_L (++)), drop_app_length, sleeps_app, retry_log_sleeps.
      case_decide; cbn; by rewrite (right_id_L [] (++)).
    + by rewrite record_failure_count.
    + by exists err.
  - split_and!.
    + split; [done|]. intros Hall. rewrite Hall in Hf by done. done.
    + done.
    + intros _. exists k. split_and!; try done.
      * unfold new_events. cbn [record_success logged events].
        rewrite drop_app_length, invocations_app, retry_log_invocations.
        replace (k + 1) with (S k) by lia. cbn. by rewrite (right_id_L [] (++)).
      * unfold new_events. cbn [record_success logged events].
        rewrite drop_app_length, sleeps_app, retry_log_sleeps.
        cbn. by rewrite (right_id_L [] (++)).
      * cbn [record_success failure_counts]. apply count_of_insert.
      * unfold new_events. cbn [record_success logged events].
        rewrite drop_app_length, alerts_app, retry_log_alerts. done.
Qed.

Lemma all_fruitless_spec w c max_retries :
  all_fruitless w c max_retries = true
  ↔ ∀ a, a ≤ max_retries → fruitless (run w c a) = true.
Proof.
  unfold all_fruitless. rewrite forallb_forall. split.
  - intros Hall a Ha. apply Hall, in_seq. lia.
  - intros Hall a Ha%in_seq. apply Hall. lia.
Qed.

Lemma run_scraper_unconfigured w city max_retries st :
  scraper_for city = None →
  run_scraper w city max_retries st = (false, emit (NoScraperConfigured city) st).
Proof.
  intros Hc. unfold run_scraper. replace (max_retries + 1) with (S max_retries) by lia.
  cbn [attempts]. by rewrite Hc.
Qed.

(** The alerts a failed cycle adds: one, carrying the new count, when
    that count is a multiple of three. *)
Lemma failed_cycle_alerts city c err st n :
  alerts (new_events st (record_failure city err (logged st (retry_log c 0 n))))
  = if decide (S (count_of (failure_counts st) city) mod 3 = 0)
    then [(city, S (count_of (failure_counts st) city))] else [].
Proof.
  unfold new_events. rewrite record_failure_events. cbn [logged events failure_counts].
  rewrite <- (assoc_L (++)), drop_app_length, alerts_app, retry_log_alerts.
  by case_decide.
Qed.

(** Failing cycles on one city: the counter grows by one per cycle and the
    alerts are those for the counts that are multiples of three. *)
Lemma cycles_failing city c :
  scraper_for city = Some c →
  ∀ (plan : list (string * world permit)) st,
    Forall (λ cw, cw.1 = city ∧ all_fruitless cw.2 c 2 = true) plan →
    count_of (failure_counts (cycles plan st)) city
    = count_of (failure_counts st) city + length plan
    ∧ alerts (events (cycles plan st))
      = alerts (events st)
        ++ map (pair city)
             (filter (λ n, n mod 3 = 0)
                (seq (S (count_of (failure_counts st) city)) (length plan))).
Proof.
  intros Hc. induction plan as [|[city' w] plan IH]; intros st Hall.
  - cbn. split; [lia | by rewrite (right_id_L [] (++))].
  - apply Forall_cons in Hall as [[Hcity Hfail] Hall]. cbn [fst snd] in Hcity, Hfail. subst city'.
    cbn [cycles].
    destruct (run_scraper_cases w city c 2 st Hc)
      as [[_ [err ->]]|(k & permits & Hk & Hf & _)].
    + cbn [snd].
      destruct (IH (record_failure city err (logged st (retry_log c 0 2))) Hall)
        as [-> ->].
      rewrite record_failure_count, record_failure_events.
      cbn [logged events failure_counts length seq].
      split; [lia|].
      rewrite !alerts_app, retry_log_alerts.
      rewrite <- !(assoc_L (++)). f_equal. cbn [app].
      rewrite filter_cons. case_decide; done.
    + apply all_fruitless_spec with (a := k) in Hfail; [congruence | done].
Qed.

(** C3: a cycle sends an alert exactly when it fails and thereby brings
    the city's failure count to a multiple of three, and the alert carries
    that count. Over six failing cycles from process start the counts run
    1, 2, 3, 4, 5, 6 and the alerts sent so far are: none, none, the one for
    count 3, still only that one after counts 4 and 5, and a second one at
    count 6. *)
Theorem alert_every_third w city max_retries st :
  let r := run_scraper w city max_retries st in
  let before := count_of (failure_counts st) city in
  let after := count_of (failure_counts r.2) city in
  (alerts (new_events st r.2) ≠ []
   ↔ r.1 = false ∧ after = S before ∧ after mod 3 = 0)
  ∧ (alerts (new_events st r.2) ≠ [] → alerts (new_events st r.2) = [(city, after)])
  ∧ (∀ c (plan : list (string * world permit)),
       scraper_for city = Some c →
       Forall (λ cw, cw.1 = city ∧ all_fruitless cw.2 c 2 = true) plan →
       length plan = 6 →
       map (λ j, count_of (failure_counts (cycles (take j plan) initial)) city)
           (seq 1 6) = [1; 2; 3; 4; 5; 6]
       ∧ map (λ j, alerts (events (cycles (take j plan) initial))) (seq 1 6)
         = [ []; []; [(city, 3)]; [(city, 3)]; [(city, 3)];
             [(city, 3); (city, 6)] ]).
Proof.
  intros r before after. split_and!.
  - subst r before after. destruct (scraper_for city) as [c|] eqn:Hc.
    + destruct (run_scraper_cases w city c max_retries st Hc)
        as [[_ [err ->]]|(k & permits & _ & _ & _ & _ & _ & ->)]; cbn [fst snd].
      * rewrite failed_cycle_alerts, record_failure_count.
        case_decide; split; try done; [by intros (_ & _ & ?)].
      * unfold new_events. cbn [record_success logged events].
        rewrite drop_app_length, alerts_app, retry_log_alerts. cbn.
        split; [done | by intros (? & _)].
    + rewrite (run_scraper_unconfigured _ _ _ _ Hc). cbn [fst snd].
      unfold new_events. cbn [emit events failure_counts]. rewrite drop_app_length. cbn.
      split; [done | intros (_ & ? & _); lia].
  - subst r before after. destruct (scraper_for city) as [c|] eqn:Hc.
    + destruct (run_scraper_cases w city c max_retries st Hc)
        as [[_ [err ->]]|(k & permits & _ & _ & _ & _ & _ & ->)]; cbn [fst snd].
      * rewrite failed_cycle_alerts, record_failure_count. by case_decide.
      * unfold new_events. cbn [record_success logged events].
        rewrite drop_app_length, alerts_app, retry_log_alerts. done.
    + rewrite (run_scraper_unconfigured _ _ _ _ Hc). cbn [fst snd].
      unfold new_events. cbn [emit events]. rewrite drop_app_length. done.
  - intros c plan Hc Hall Hlen.
    assert (Hj : ∀ j, j ≤ 6 →
      count_of (failure_counts (cycles (take j plan) initial)) city = j
      ∧ alerts (events (cycles (take j plan) initial))
        = map (pair city) (filter (λ n, n mod 3 = 0) (seq 1 j))).
    { intros j Hle.
      destruct (cycles_failing city c Hc (take j plan) initial) as [Hcount Halerts].
      - by apply Forall_take.
      - rewrite length_take, Hlen in Hcount, Halerts.
        replace (j `min` 6) with j in Hcount, Halerts by lia.
        by rewrite Hcount, Halerts. }
    cbn [seq map].
    destruct (Hj 1) as [-> ->]; [lia|]. destruct (Hj 2) as [-> ->]; [lia|].
    destruct (Hj 3) as [-> ->]; [lia|]. destruct (Hj 4) as [-> ->]; [lia|].
    destruct (Hj 5) as [-> ->]; [lia|]. destruct (Hj 6) as [-> ->]; [lia|].
    done.
Qed.

End OuterRetry.

(** C4 on the empty-handed world: three runs, pauses of 5 and 10 seconds,
    then the counter goes from 0 to 1. *)
Lemma outer_retry_witness :
  Scheduler.scraper_for "charlotte" = Some Scheduler.CharlottePermitScraper
  ∧ (let r := Scheduler.run_scraper Samples.barren "charlotte" 2 Scheduler.initial in
     let new := Scheduler.new_events Scheduler.initial r.2 in
     r.1 = false
     ∧ Scheduler.invocations new
       = map (pair Scheduler.CharlottePermitScraper) (seq 0 (2 + 1))
     ∧ Scheduler.sleeps new = map (λ n, 5 * n) (seq 1 2)
     ∧ Scheduler.count_of (Scheduler.failure_counts r.2) "charlotte" = 1).
Proof.
  split; [reflexivity|].
  pose proof (outer_retry Samples.barren "charlotte" Scheduler.CharlottePermitScraper
                2 Scheduler.initial eq_refl) as (_ & Hfail & _).
  assert (Hr : (Scheduler.run_scraper Samples.barren "charlotte" 2 Scheduler.initial).1
               = false) by reflexivity.
  destruct (Hfail Hr) as (Hinv & Hsl & Hcount & _).
  cbv zeta. split_and!; [exact Hr | exact Hinv | exact Hsl | exact Hcount].
Defined.

(** C3 on six cycles of the empty-handed world. *)
Lemma alert_every_third_witness :
  Scheduler.scraper_for "charlotte" = Some Scheduler.CharlottePermitScraper
  ∧ Forall (λ cw, cw.1 = "charlotte"
                  ∧ Scheduler.all_fruitless cw.2 Scheduler.CharlottePermitScraper 2 = true)
      (replicate 6 ("charlotte", Samples.barren))
  ∧ length (replicate 6 ("charlotte", Samples.barren)) = 6
  ∧ map (λ j, Scheduler.alerts (Scheduler.events
           (Scheduler.cycles (take j (replicate 6 ("charlotte", Samples.barren)))
              Scheduler.initial))) (seq 1 6)
    = [ []; []; [("charlotte", 3)]; [("charlotte", 3)]; [("charlotte", 3)];
        [("charlotte", 3); ("charlotte", 6)] ].
Proof.
  assert (Hall : Forall (λ cw, cw.1 = "charlotte"
                  ∧ Scheduler.all_fruitless cw.2 Scheduler.CharlottePermitScraper 2 = true)
      (replicate 6 ("charlotte", Samples.barren)))
    by (repeat constructor).
  split_and!; [reflexivity | exact Hall | reflexivity |].
  pose proof (alert_every_third Samples.barren "charlotte" 2 Scheduler.initial)
    as (_ & _ & Hsix).
  exact (proj2 (Hsix Scheduler.CharlottePermitScraper _ eq_refl Hall eq_refl)).
Defined.

(** ** Routing (city_routing.py, auto_recovery.py) and the scheduler *)

Section RoutingFacts.
Import Scheduler Routing.
Context {permit : Type}.
Implicit Types (w : world permit) (st : state).




(** C8, as the code has it: for a city without a routing entry,
    [execute_routing] returns [None] (no substitute, hence no reason) and
    leaves the object as it was: nothing printed, nothing logged. *)
Theorem execute_routing_unrouted now city (self : AutoRecovery) :
  routing_config self !! city = None →
  execute_routing now city self = (None, self)
  ∧ check_city_health city self = true.
Proof.
  intros Hnone. unfold execute_routing, check_city_health. rewrite Hnone.
  split; [done | by apply bool_decide_eq_true].
Qed.

End RoutingFacts.



(** C8 as stated fails: "nashville" has no routing entry and the result is
    [None], not "nashville". *)
Lemma execute_routing_nashville :
  Routing.routing_config Routing.init !! "nashville" = None
  ∧ (Routing.execute_routing "2024-01-01T05:00:00" "nashville" Routing.init).1 = None
  ∧ (Routing.execute_routing "2024-01-01T05:00:00" "nashville" Routing.init).1
    ≠ Some "nashville".
Proof. split_and!; [reflexivity | reflexivity | discriminate]. Qed.

(** C8 as amended, on "nashville". *)
Lemma execute_routing_unrouted_witness :
  Routing.routing_config Routing.init !! "nashville" = None
  ∧ Routing.execute_routing "2024-01-01T05:00:00" "nashville" Routing.init
    = (None, Routing.init).
Proof.
  split; [reflexivity|].
  exact (proj1 (execute_routing_unrouted "2024-01-01T05:00:00" "nashville"
                  Routing.init eq_refl)).
Defined.

(** ** The retry decorator (utils.py, described from the specification) *)

Section RetryPrimitive.
Import Retry.
Context {A E : Type}.
Implicit Types (transient : E → bool) (operation : nat → outcome A E).

Lemma primitive_log_invocations (initial_delay : Q) attempt_number n :
  invocations (retry_log initial_delay attempt_number n) = seq attempt_number (S n).
Proof.
  revert attempt_number. induction n as [|n IH]; intros attempt_number; [done|].
  cbn [retry_log].
  change (invocations (Invoked ?a :: Waited ?q :: ?l)) with (a :: invocations l).
  by rewrite IH.
Qed.

Lemma primitive_log_waits (initial_delay : Q) attempt_number n :
  waits (retry_log initial_delay attempt_number n)
  = map (λ a, initial_delay * inject_Z (Z.of_nat a))%Q (seq attempt_number n).
Proof.
  revert attempt_number. induction n as [|n IH]; intros attempt_number; [done|].
  cbn [retry_log].
  change (waits (Invoked ?a :: Waited ?q :: ?l)) with (q :: waits l).
  by rewrite IH.
Qed.

(** Invocation [attempt_number + k] is the first that does not fail with
    a transient error, or the last one allowed: the primitive stops there
    and hands on what that invocation did. *)
Lemma attempts_until transient initial_delay operation k :
  ∀ retries_left attempt_number,
    k ≤ retries_left →
    (∀ a, attempt_number ≤ a < attempt_number + k →
          ∃ e, operation a = Raised e ∧ transient e = true) →
    k = retries_left
    ∨ (∃ v, operation (attempt_number + k) = Returned v)
    ∨ (∃ e, operation (attempt_number + k) = Raised e ∧ transient e = false) →
    attempts transient initial_delay operation retries_left attempt_number
    = (operation (attempt_number + k), retry_log initial_delay attempt_number k).
Proof.
  induction k as [|k IH]; intros retries_left attempt_number Hle Hbefore Hlast.
  - rewrite Nat.add_0_r in *. cbn [retry_log].
    destruct retries_left as [|retries_left]; cbn [attempts].
    + destruct (operation attempt_number) as [v|e]; [done | by destruct (transient e)].
    + destruct Hlast as [Hk|[[v Hv]|(e & He & Ht)]]; [lia | by rewrite Hv |].
      by rewrite He, Ht.
  - destruct retries_left as [|retries_left]; [lia|].
    destruct (Hbefore attempt_number) as (e & He & Ht); [lia|].
    cbn [attempts retry_log]. rewrite He, Ht.
    rewrite (IH retries_left (S attempt_number));
      [| lia | intros a Ha; apply Hbefore; lia
       | replace (S attempt_number + k) with (attempt_number + S k) by lia;
         destruct Hlast as [Hk|Hlast]; [left; lia | by right] ].
    cbn [fst snd]. by replace (S attempt_number + k) with (attempt_number + S k) by lia.
Qed.

(** C5: for an operation that raises a transient error at every
    invocation, the primitive invokes it exactly [max_retries + 1] times,
    numbered 1, 2, ..., waits [initial_delay] times the attempt number
    after each failed invocation but the last (so each wait is
    [initial_delay] longer than the one before it: linear growth), and
    hands on the failure of the last invocation. When invocation [k] is the
    first to fail with an error that is not transient, that error is handed
    on at once: [k] invocations, none after it. *)
Theorem retry_bound max_retries (initial_delay : Q) transient operation :
  let r := retry_with_backoff max_retries initial_delay transient operation in
  ((∀ a, ∃ e, operation a = Raised e ∧ transient e = true) →
     invocations r.2 = seq 1 (max_retries + 1)
     ∧ waits r.2 = map (λ a, initial_delay * inject_Z (Z.of_nat a))%Q (seq 1 max_retries)
     ∧ r.2 = retry_log initial_delay 1 max_retries
     ∧ (∀ i w w', waits r.2 !! i = Some w → waits r.2 !! S i = Some w' →
                  (w' - w == initial_delay)%Q)
     ∧ r.1 = operation (max_retries + 1)
     ∧ ∃ e, r.1 = Raised e ∧ transient e = true)
  ∧ (∀ k e, 1 ≤ k ≤ max_retries + 1 →
       (∀ a, 1 ≤ a < k → ∃ e', operation a = Raised e' ∧ transient e' = true) →
       operation k = Raised e → transient e = false →
       r.1 = Raised e
       ∧ invocations r.2 = seq 1 k
       ∧ waits r.2
         = map (λ a, initial_delay * inject_Z (Z.of_nat a))%Q (seq 1 (k - 1))).
Proof.
  cbv zeta. unfold retry_with_backoff. split.
  - intros Hall.
    rewrite (attempts_until transient initial_delay operation max_retries
               max_retries 1); [| done | intros a _; apply Hall | by left].
    cbn [fst snd]. rewrite primitive_log_invocations, primitive_log_waits.
    replace (max_retries + 1) with (S max_retries) by lia.
    split_and!; [done | done | done | | done |].
    + intros i w w'. rewrite !list_lookup_fmap.
      intros Hw Hw'.
      destruct (seq 1 max_retries !! i) as [a|] eqn:Ha; [|done].
      destruct (seq 1 max_retries !! S i) as [a'|] eqn:Ha'; [|done].
      apply lookup_seq in Ha as [-> _]. apply lookup_seq in Ha' as [-> _].
      cbn in Hw, Hw'. injection Hw as <-. injection Hw' as <-.
      replace (Z.of_nat (S (S i))) with (Z.of_nat (S i) + 1)%Z by lia.
      rewrite inject_Z_plus. ring.
    + destruct (Hall (S max_retries)) as (e & He & Ht). by exists e.
  - intros k e Hk Hbefore He Ht.
    rewrite (attempts_until transient initial_delay operation (k - 1) max_retries 1);
      [| lia | intros a Ha; apply Hbefore; lia
       | right; right; exists e; by replace (1 + (k - 1)) with k by lia ].
    cbn [fst snd]. rewrite primitive_log_invocations, primitive_log_waits.
    replace (1 + (k - 1)) with k by lia. replace (S (k - 1)) with k by lia.
    done.
Qed.

End RetryPrimitive.

(** C5 on a fetch that is always down, decorated as the scrapers do, with
    [max_retries = 3] and [initial_delay = 2]: four invocations, waits of
    2, 4 and 6 seconds, the transport error handed on. On a fetch that is
    down once and then broken in another way: two invocations. *)
Lemma retry_bound_witness :
  let r := Retry.retry_with_backoff 3 2 Samples.transport_only Samples.always_down in
  let r' := Retry.retry_with_backoff 3 2 Samples.transport_only Samples.down_then_broken in
  (∀ a, ∃ e, Samples.always_down a = Retry.Raised e ∧ Samples.transport_only e = true)
  ∧ Retry.invocations r.2 = [1; 2; 3; 4]
  ∧ Retry.waits r.2 = [2 * 1; 2 * 2; 2 * 3]%Q
  ∧ r.1 = Retry.Raised Samples.Transport
  ∧ r'.1 = Retry.Raised Samples.Parse
  ∧ Retry.invocations r'.2 = [1; 2].
Proof.
  cbv zeta.
  assert (Hall : ∀ a, ∃ e, Samples.always_down a = Retry.Raised e
                           ∧ Samples.transport_only e = true)
    by (intros a; exists Samples.Transport; split; reflexivity).
  assert (Hbefore : ∀ a, 1 ≤ a < 2 →
            ∃ e', Samples.down_then_broken a = Retry.Raised e'
                  ∧ Samples.transport_only e' = true).
  { intros a Ha. assert (a = 1) as -> by lia.
    exists Samples.Transport. split; reflexivity. }
  destruct (retry_bound 3 2 Samples.transport_only Samples.always_down)
    as [Hbound _].
  destruct (Hbound Hall) as (Hinv & Hwaits & _ & _ & Hlast & _).
  destruct (retry_bound 3 2 Samples.transport_only Samples.down_then_broken)
    as [_ Hother].
  destruct (Hother 2 Samples.Parse ltac:(lia) Hbefore eq_refl eq_refl)
    as (Hres & Hinv' & _).
  split_and!; [exact Hall | exact Hinv | exact Hwaits | exact Hlast | exact Hres
              | exact Hinv'].
Defined.

(** ** Retry loop (backend/scrapers/snohomish.py) *)

Section SnohomishRetry.
Import Snohomish.
Context {py : PyBuiltins}.
Implicit Types (w : world) (log : list event).

Lemma requests_app log1 log2 : requests (log1 ++ log2) = requests log1 ++ requests log2.
Proof. apply omap_app. Qed.
Lemma backoffs_app log1 log2 : backoffs (log1 ++ log2) = backoffs log1 ++ backoffs log2.
Proof. apply omap_app. Qed.

(** When every remaining attempt raises, the loop runs to the end of its
    range: one request per iteration, a pause after each but the last, and
    the lead list comes back untouched. *)
Lemma retry_loop_all_raise w n :
  ∀ todo attempt leads log,
    attempt + todo = n →
    (∀ a, attempt ≤ a < n → raised (fetch w a) = true) →
    let r := retry_loop w n todo attempt leads log in
    r.1 = leads
    ∧ requests r.2 = requests log ++ seq attempt todo
    ∧ backoffs r.2
      = backoffs log
        ++ map (λ a, (uniform w a, (2 ^ Z.of_nat a)%Z)) (seq attempt (todo - 1)).
Proof.
  induction todo as [|todo IH]; intros attempt leads log Hsum Hall; cbn zeta.
  - cbn. by rewrite !(right_id_L [] (++)).
  - cbn [retry_loop].
    assert (Hr : raised (fetch w attempt) = true) by (apply Hall; lia).
    destruct (decide (attempt < n - 1)) as [Hlt|Hge].
    + assert ((attempt <? n - 1) = true) as Hltb by (by apply Nat.ltb_lt).
      assert (Hstep :
        let r := retry_loop w n todo (S attempt) leads
                   ((log ++ [Request attempt])
                      ++ [Backoff (uniform w attempt) (2 ^ Z.of_nat attempt)]) in
        r.1 = leads
        ∧ requests r.2 = requests log ++ seq attempt (S todo)
        ∧ backoffs r.2
          = backoffs log
            ++ map (λ a, (uniform w a, (2 ^ Z.of_nat a)%Z)) (seq attempt (S todo - 1))).
      { destruct (IH (S attempt) leads
                    ((log ++ [Request attempt])
                       ++ [Backoff (uniform w attempt) (2 ^ Z.of_nat attempt)]))
          as (H1 & H2 & H3); [lia | intros a Ha; apply Hall; lia |].
        cbn zeta. rewrite H1, H2, H3. split_and!; [done | |].
        - rewrite !requests_app. cbn. by rewrite <- !(assoc_L (++)).
        - rewrite !backoffs_app. cbn [backoffs omap app].
          replace (S todo - 1) with (S (todo - 1)) by lia.
          cbn. by rewrite <- !(assoc_L (++)). }
      destruct (fetch w attempt); try done; rewrite Hltb; exact Hstep.
    + assert ((attempt <? n - 1) = false) as Hltb by (apply Nat.ltb_ge; lia).
      assert (todo = 0) as -> by lia.
      destruct (fetch w attempt); try done; rewrite Hltb; cbn [retry_loop fst snd];
        rewrite requests_app, backoffs_app; cbn;
        by rewrite !(right_id_L [] (++)).
Qed.

(** The loop that [get_leads_for_city] writes out itself, without the
    retry decorator: when every request raises, whatever the kind
    of exception, [get_leads_for_city] makes exactly [max_retries] = 3
    requests, pauses after the first and after the second for
    [random.uniform(1, 3)] times 1 and times 2 seconds (the factor is
    [2 ** attempt]), and returns the empty list; no exception leaves the
    function. The loop with any other retry count [n] likewise makes
    exactly [n] requests, with factors [2 ** 0 .. 2 ** (n - 2)]. *)
Theorem snohomish_retry_bound w city_name :
  PyStr.lower city_name = "snohomish" →
  (∀ a, raised (fetch w a) = true) →
  get_leads_for_city w city_name
  = ([], [Request 0; Backoff (uniform w 0) 1; Request 1;
          Backoff (uniform w 1) 2; Request 2])
  ∧ ∀ n, let r := retry_loop w n n 0 [] [] in
         r.1 = []
         ∧ requests r.2 = seq 0 n
         ∧ backoffs r.2 = map (λ a, (uniform w a, (2 ^ Z.of_nat a)%Z)) (seq 0 (n - 1)).
Proof.
  intros Hcity Hall. split.
  - unfold get_leads_for_city. rewrite decide_True by done.
    unfold max_retries. cbn [retry_loop].
    pose proof (Hall 0) as H0. pose proof (Hall 1) as H1. pose proof (Hall 2) as H2.
    destruct (fetch w 0); try done; destruct (fetch w 1); try done;
      destruct (fetch w 2); try done.
  - intros n. by apply (retry_loop_all_raise w n n 0 [] []).
Qed.

End SnohomishRetry.

(** The loop of [get_leads_for_city] is not the retry decorator: with
    every request failing in transport, three requests are made, which is
    [max_retries] and not [max_retries + 1]; the pauses are 3 x 1 and then
    1 x 2 seconds, which no single initial delay multiplied by the attempt
    number gives; and the call returns the empty list instead of raising.
    After an exception that is not a transport error the request is made
    again. *)
Lemma snohomish_retry_differs :
  (let r := Snohomish.get_leads_for_city (py := Samples.runtime) Samples.unreachable "snohomish" in
   r.1 = []
   ∧ Snohomish.requests r.2 = [0; 1; 2]
   ∧ length (Snohomish.requests r.2) = Snohomish.max_retries
   ∧ length (Snohomish.requests r.2) ≠ Snohomish.max_retries + 1
   ∧ Snohomish.backoffs r.2 = [(3%Q, 1%Z); (1%Q, 2%Z)]
   ∧ ¬ ∃ initial_delay : Q,
         (3 * 1 == initial_delay * 1)%Q ∧ (1 * 2 == initial_delay * 2)%Q)
  ∧ (let r := Snohomish.get_leads_for_city (py := Samples.runtime) Samples.parse_error_once "Snohomish" in
     Snohomish.raised (Snohomish.fetch Samples.parse_error_once 0) = true
     ∧ Snohomish.requests r.2 = [0; 1]
     ∧ length r.1 = 1).
Proof.
  split; cbv zeta.
  - split_and!; try reflexivity; [vm_compute; lia|].
    intros [[p q] [H1 H2]]. unfold Qeq in H1, H2. cbn in H1, H2. lia.
  - split_and!; reflexivity.
Qed.

(** The loop of [get_leads_for_city] on the unreachable source. *)
Lemma snohomish_retry_bound_witness :
  PyStr.lower "Snohomish" = "snohomish"
  ∧ (∀ a, Snohomish.raised (Snohomish.fetch Samples.unreachable a) = true)
  ∧ Snohomish.get_leads_for_city (py := Samples.runtime) Samples.unreachable "Snohomish"
    = ([], [Snohomish.Request 0; Snohomish.Backoff 3 1; Snohomish.Request 1;
            Snohomish.Backoff 1 2; Snohomish.Request 2]).
Proof.
  split_and!; [reflexivity | intros a; reflexivity |].
  exact (proj1 (snohomish_retry_bound (py := Samples.runtime) Samples.unreachable "Snohomish" eq_refl
                  (λ a, eq_refl))).
Defined.

(** ** The permit list and the seen-id set *)

Section StoreFacts.
Import Store.
Context {permit event : Type}.
Implicit Types (self s : scraper permit event).

Lemma add_seen permit_id p self :
  permit_id ∈ seen_permit_ids self → add permit_id p self = self.
Proof. intros Hin. unfold add. by rewrite decide_True. Qed.

Lemma add_id_seen permit_id p self : permit_id ∈ seen_permit_ids (add permit_id p self).
Proof. unfold add. case_decide; cbn; set_solver. Qed.

Lemma add_events permit_id p self : events (add permit_id p self) = events self.
Proof. unfold add. by case_decide. Qed.

Lemma add_emit permit_id p e self :
  add permit_id p (emit e self) = emit e (add permit_id p self).
Proof. unfold add. cbn. by case_decide. Qed.

Context (key : permit → string).

Lemma extends_refl self : extends key self self.
Proof. exists []. rewrite (right_id_L [] (++)). set_solver. Qed.

Lemma extends_trans s1 s2 s3 :
  extends key s1 s2 → extends key s2 s3 → extends key s1 s3.
Proof.
  intros (a1 & Hp1 & Hs1 & Hn1) (a2 & Hp2 & Hs2 & Hn2).
  exists (a1 ++ a2). rewrite Hp2, Hp1, (assoc_L (++)). split_and!; [done | set_solver |].
  intros p [Hin|Hin]%elem_of_app; [by apply Hn1|].
  specialize (Hn2 p Hin). set_solver.
Qed.

Lemma extends_emit e self : extends key self (emit e self).
Proof. exists []. cbn. rewrite (right_id_L [] (++)). set_solver. Qed.

Lemma consistent_emit e self : consistent key self → consistent key (emit e self).
Proof. done. Qed.

Lemma consistent_init : consistent key (init (permit := permit) (event := event)).
Proof. split; [constructor | intros p Hp; by apply elem_of_nil in Hp]. Qed.

Lemma add_extends permit_id p self :
  key p = permit_id → extends key self (add permit_id p self).
Proof.
  intros Hkey. unfold add. case_decide as Hin; [apply extends_refl|].
  exists [p]. cbn. split_and!; [done | set_solver |].
  intros q ->%list_elem_of_singleton. by rewrite Hkey.
Qed.

Lemma add_consistent permit_id p self :
  key p = permit_id → consistent key self → consistent key (add permit_id p self).
Proof.
  intros Hkey [Hnd Hseen]. unfold add. case_decide as Hin; [done|].
  split; cbn.
  - rewrite map_app. cbn. apply NoDup_app.
    split_and!; [done | | apply NoDup_singleton].
    intros x Hx ->%list_elem_of_singleton.
    apply list_elem_of_fmap in Hx as (q & Hq & Hqin). apply Hin.
    rewrite <- Hkey, Hq. by apply Hseen.
  - intros q [Hq| ->%list_elem_of_singleton]%elem_of_app; [set_solver|].
    rewrite Hkey. set_solver.
Qed.

End StoreFacts.

(** ** Paginated scraper (backend/scrapers/charlotte.py) *)

Section CharlotteFacts.
Import PyVal Store Charlotte.
Context {py : PyBuiltins}.
Implicit Types (self : scraper) (record : raw_record) (data : list (option raw_record)).

Lemma add_record_seen record self :
  permit_id_of record ∈ Store.seen_permit_ids self → add_record record self = self.
Proof. apply add_seen. Qed.

Lemma add_record_extends record self :
  Store.extends permit_number self (add_record record self).
Proof. by apply add_extends. Qed.

Lemma add_record_consistent record self :
  Store.consistent permit_number self →
  Store.consistent permit_number (add_record record self).
Proof. by apply add_consistent. Qed.

Lemma add_record_events record self :
  Store.events (add_record record self) = Store.events self.
Proof. apply add_events. Qed.

Lemma add_records_extends data self :
  Store.extends permit_number self (add_records data self).1.
Proof.
  revert self. induction data as [|[record|] data IH]; intros self; cbn;
    [apply extends_refl | | apply extends_refl].
  eapply extends_trans; [apply add_record_extends | apply IH].
Qed.

Lemma add_records_consistent data self :
  Store.consistent permit_number self →
  Store.consistent permit_number (add_records data self).1.
Proof.
  revert self. induction data as [|[record|] data IH]; intros self Hc; cbn; [done | | done].
  by apply IH, add_record_consistent.
Qed.

(** Handling the same page again, at any later point of the run, changes
    nothing. *)
Lemma add_records_again data self later :
  Store.seen_permit_ids (add_records data self).1 ⊆ Store.seen_permit_ids later →
  add_records data later = (later, (add_records data self).2).
Proof.
  revert self. induction data as [|[record|] data IH]; intros self Hsub; cbn in *;
    [done | | done].
  rewrite add_record_seen; [by apply (IH (add_record record self))|].
  apply Hsub.
  destruct (add_records_extends data (add_record record self)) as (_ & _ & Hgrow & _).
  apply Hgrow, add_id_seen.
Qed.

(** The loop is a sequence of two kinds of steps on the object: logging
    an effect and handling the records of a page. Any relation that is
    reflexive, transitive and holds across these steps holds across the
    loop. *)
Lemma scrape_loop_steps (R : scraper → scraper → Prop) :
  (∀ s, R s s) → (∀ a b c, R a b → R b c → R a c) →
  (∀ e s, R s (Store.emit e s)) → (∀ data s, R s (add_records data s).1) →
  ∀ replies max_permits offset total_fetched consecutive_failures self,
    R self (scrape_loop replies max_permits offset total_fetched
              consecutive_failures self).
Proof.
  intros Hrefl Htrans Hemit Hadd.
  assert (Hfail : ∀ cf s,
    match on_failure cf s with inl s' => R s s' | inr (_, s') => R s s' end).
  { intros cf s. unfold on_failure.
    destruct (max_consecutive_failures <=? S cf); [destruct (Store.permits s)|];
      eauto. }
  induction replies as [|reply replies IH];
    intros max_permits offset total cf self; cbn [scrape_loop];
    (destruct (negb (total <? max_permits)); [by apply Hrefl|]).
  { by apply Hemit. }
  set (self1 := Store.emit _ self). assert (H1 : R self self1) by apply Hemit.
  destruct reply as [[|item data]| |].
  - done.
  - pose proof (Hadd (item :: data) self1) as H2.
    destruct (add_records (item :: data) self1) as [self2 [|]]; cbn [fst] in H2.
    + pose proof (Hfail 0 self2) as H3.
      destruct (on_failure 0 self2) as [self3|[cf' self3]]; eauto.
    + case_match; eauto 6.
  - pose proof (Hfail cf self1) as H3.
    destruct (on_failure cf self1) as [self3|[cf' self3]]; eauto.
  - pose proof (Hfail cf self1) as H3.
    destruct (on_failure cf self1) as [self3|[cf' self3]]; eauto.
Qed.

Lemma scrape_loop_extends replies max_permits offset total cf self :
  Store.extends permit_number self (scrape_loop replies max_permits offset total cf self).
Proof.
  apply scrape_loop_steps;
    eauto using extends_refl, extends_trans, extends_emit, add_records_extends.
Qed.

Lemma scrape_loop_consistent replies max_permits offset total cf self :
  Store.consistent permit_number self →
  Store.consistent permit_number (scrape_loop replies max_permits offset total cf self).
Proof.
  apply (scrape_loop_steps
           (λ s s', Store.consistent permit_number s → Store.consistent permit_number s'));
    eauto using add_records_consistent.
Qed.

Lemma scrape_permits_result replies max_permits self :
  (scrape_permits replies max_permits self).1
  = Store.permits (scrape_loop replies max_permits 0 0 0 self)
  ∧ Store.permits (scrape_permits replies max_permits self).2
    = Store.permits (scrape_loop replies max_permits 0 0 0 self)
  ∧ Store.seen_permit_ids (scrape_permits replies max_permits self).2
    = Store.seen_permit_ids (scrape_loop replies max_permits 0 0 0 self).
Proof.
  unfold scrape_permits. cbv zeta.
  destruct (Store.permits (scrape_loop replies max_permits 0 0 0 self)) eqn:E;
    cbn [fst snd Store.emit Store.permits Store.seen_permit_ids]; by rewrite ?E.
Qed.

Lemma scrape_permits_extends replies max_permits self :
  Store.extends permit_number self (scrape_permits replies max_permits self).2.
Proof.
  destruct (scrape_permits_result replies max_permits self) as (_ & Hp & Hs).
  destruct (scrape_loop_extends replies max_permits 0 0 0 self) as (added & ? & ? & ?).
  exists added. by rewrite Hp, Hs.
Qed.

Lemma scrape_permits_consistent replies max_permits self :
  Store.consistent permit_number self →
  Store.consistent permit_number (scrape_permits replies max_permits self).2.
Proof.
  intros Hc. destruct (scrape_permits_result replies max_permits self) as (_ & Hp & Hs).
  destruct (scrape_loop_consistent replies max_permits 0 0 0 self Hc) as [Hnd Hseen].
  split; [by rewrite Hp | rewrite Hp, Hs; done].
Qed.

Lemma add_records_collect records self :
  add_records (Some <$> records) self = (collect records self, false).
Proof.
  revert self. induction records as [|record records IH]; intros self; [done|].
  cbn. apply IH.
Qed.

Lemma collect_cons record records self :
  collect (record :: records) self = collect records (add_record record self).
Proof. done. Qed.

Lemma collect_events records self : events (collect records self) = events self.
Proof.
  revert self. induction records as [|record records IH]; intros self; [done|].
  by rewrite collect_cons, IH, add_record_events.
Qed.

Lemma collect_emit e records self :
  collect records (emit e self) = emit e (collect records self).
Proof.
  revert self. induction records as [|record records IH]; intros self; [done|].
  rewrite !collect_cons, <- IH. f_equal. apply add_emit.
Qed.

(** Records with pairwise distinct, unseen ids are all collected, in order. *)
Lemma collect_distinct records self :
  NoDup (map permit_id_of records) →
  (∀ record, record ∈ records → permit_id_of record ∉ seen_permit_ids self) →
  permits (collect records self) = permits self ++ map normalize records.
Proof.
  revert self. induction records as [|record records IH]; intros self Hnd Hnew.
  - cbn. by rewrite (right_id_L [] (++)).
  - apply NoDup_cons in Hnd as [Hnotin Hnd]. rewrite collect_cons.
    assert (Hfresh : permit_id_of record ∉ seen_permit_ids self) by (apply Hnew; left).
    rewrite IH; [| done |].
    + unfold add_record, add. rewrite decide_False by done. cbn.
      by rewrite <- (assoc_L (++)).
    + intros r Hr. unfold add_record, add. rewrite decide_False by done. cbn.
      apply not_elem_of_union. split; [|apply Hnew; by right].
      apply not_elem_of_singleton. intros Heq. apply Hnotin. rewrite <- Heq.
      apply list_elem_of_fmap. eauto.
Qed.

Lemma collect_init_nonempty record records :
  permits (collect (record :: records) init) ≠ [].
Proof.
  rewrite collect_cons.
  destruct (add_records_extends (Some <$> records) (add_record record init))
    as (added & Hadd & _).
  rewrite add_records_collect in Hadd. cbn [fst] in Hadd. rewrite Hadd.
  unfold add_record, add. rewrite decide_False by set_solver. done.
Qed.

Local Opaque batch_size.

(** One turn of the loop on a full page that is handled without error. *)
Lemma scrape_loop_page data self' replies max_permits offset total cf self :
  total < max_permits → batch_size ≤ length data → data ≠ [] →
  add_records data
    (emit (Fetch offset (batch_size `min` (max_permits - total))) self) = (self', false) →
  scrape_loop (Page data :: replies) max_permits offset total cf self
  = scrape_loop replies max_permits (offset + batch_size) (total + length data) 0
      (emit (Sleep (1 # 2)) self').
Proof.
  intros Hlt Hfull Hne Hadd. cbn [scrape_loop].
  assert ((total <? max_permits) = true) as -> by (by apply Nat.ltb_lt). cbn [negb].
  destruct data as [|item data]; [done|].
  rewrite Hadd.
  assert ((length (item :: data) <? batch_size) = false) as ->
    by (by apply Nat.ltb_ge).
  done.
Qed.

(** The same on a page of JSON objects. *)
Lemma scrape_loop_full_page records replies max_permits offset total cf self :
  total < max_permits → batch_size ≤ length records → records ≠ [] →
  scrape_loop (Page (Some <$> records) :: replies) max_permits offset total cf self
  = scrape_loop replies max_permits (offset + batch_size) (total + length records) 0
      (emit (Sleep (1 # 2))
         (collect records
            (emit (Fetch offset (batch_size `min` (max_permits - total))) self))).
Proof.
  intros Hlt Hfull Hne.
  rewrite (scrape_loop_page (Some <$> records) (collect records
            (emit (Fetch offset (batch_size `min` (max_permits - total))) self)));
    rewrite ?length_fmap; try done.
  - by destruct records.
  - apply add_records_collect.
Qed.

(** One turn of the loop on an exception below the threshold. *)
Lemma scrape_loop_exception reply replies max_permits offset total cf self :
  total < max_permits → is_exception reply = true →
  S cf < max_consecutive_failures →
  scrape_loop (reply :: replies) max_permits offset total cf self
  = scrape_loop replies max_permits (offset + batch_size) total (S cf)
      (emit (Sleep 2)
         (emit (Fetch offset (batch_size `min` (max_permits - total))) self)).
Proof.
  intros Hlt Hex Hcf. cbn [scrape_loop].
  assert ((total <? max_permits) = true) as -> by (by apply Nat.ltb_lt). cbn [negb].
  unfold on_failure.
  assert ((max_consecutive_failures <=? S cf) = false) as -> by (apply Nat.leb_gt; lia).
  by destruct reply.
Qed.

(** The last turn of the loop: an exception that reaches the threshold. *)
Lemma scrape_loop_threshold reply replies max_permits offset total cf self :
  total < max_permits → is_exception reply = true →
  max_consecutive_failures ≤ S cf → permits self ≠ [] →
  scrape_loop (reply :: replies) max_permits offset total cf self
  = emit (SavePartial (permits self))
      (emit (Fetch offset (batch_size `min` (max_permits - total))) self).
Proof.
  intros Hlt Hex Hcf Hne. cbn [scrape_loop].
  assert ((total <? max_permits) = true) as -> by (by apply Nat.ltb_lt). cbn [negb].
  unfold on_failure.
  assert ((max_consecutive_failures <=? S cf) = true) as -> by (by apply Nat.leb_le).
  cbn [emit permits]. destruct (permits self) eqn:E; [done|].
  by destruct reply.
Qed.

(** Two full pages and then three exceptions in a row: the run that is
    cut short. *)
Lemma two_pages_then_three_failures records1 records2 e1 e2 e3 rest max_permits :
  length records1 = batch_size → length records2 = batch_size →
  2 * batch_size < max_permits →
  is_exception e1 = true → is_exception e2 = true → is_exception e3 = true →
  let got := permits (collect (records1 ++ records2) init) in
  let limit := batch_size `min` (max_permits - 2 * batch_size) in
  got ≠ []
  ∧ scrape_permits
      (Page (Some <$> records1) :: Page (Some <$> records2) :: e1 :: e2 :: e3 :: rest)
      max_permits init
    = (got, Scraper got (seen_permit_ids (collect (records1 ++ records2) init))
              [ Fetch 0 batch_size; Sleep (1 # 2);
                Fetch batch_size batch_size; Sleep (1 # 2);
                Fetch (2 * batch_size) limit; Sleep 2;
                Fetch (3 * batch_size) limit; Sleep 2;
                Fetch (4 * batch_size) limit;
                SavePartial got; HealthSuccess (length got) ]).
Proof.
  intros Hlen1 Hlen2 Hmax He1 He2 He3 got limit.
  assert (Hbs : 0 < batch_size) by (apply Nat.ltb_lt; by vm_compute).
  assert (Hne1 : records1 ≠ []) by (intros ->; cbn in Hlen1; lia).
  assert (Hne2 : records2 ≠ []) by (intros ->; cbn in Hlen2; lia).
  assert (Hgot : got ≠ []).
  { subst got. destruct records1 as [|record records1]; [done|].
    apply collect_init_nonempty. }
  split; [exact Hgot|].
  unfold scrape_permits. cbv zeta.
  rewrite scrape_loop_full_page by (done || lia).
  rewrite scrape_loop_full_page by (done || lia).
  rewrite scrape_loop_exception by (done || lia || (unfold max_consecutive_failures; lia)).
  rewrite scrape_loop_exception by (done || lia || (unfold max_consecutive_failures; lia)).
  rewrite !collect_emit.
  assert (Hcollect : collect records2 (collect records1 init)
                     = collect (records1 ++ records2) init)
    by (unfold collect; by rewrite foldl_app).
  rewrite Hcollect.
  rewrite scrape_loop_threshold;
    [| lia | done | unfold max_consecutive_failures; lia | exact Hgot].
  subst got limit.
  destruct (collect (records1 ++ records2) init) as [ps seen evs] eqn:E.
  assert (evs = []) as ->.
  { change evs with (events (Scraper ps seen evs)). by rewrite <- E, collect_events. }
  cbn [permits] in Hgot. unfold emit. cbn [permits seen_permit_ids events app].
  destruct ps as [|p ps]; [done|]. rewrite Hlen1, Hlen2.
  cbn [permits seen_permit_ids events app]. repeat f_equal; lia.
Qed.

(** Two full pages and then the end of the data: the run that is not
    cut short. *)
Lemma two_pages_then_end records1 records2 rest max_permits :
  length records1 = batch_size → length records2 = batch_size →
  2 * batch_size < max_permits →
  let got := permits (collect (records1 ++ records2) init) in
  scrape_permits
    (Page (Some <$> records1) :: Page (Some <$> records2) :: Page [] :: rest)
    max_permits init
  = (got, Scraper got (seen_permit_ids (collect (records1 ++ records2) init))
            [ Fetch 0 batch_size; Sleep (1 # 2);
              Fetch batch_size batch_size; Sleep (1 # 2);
              Fetch (2 * batch_size)
                    (batch_size `min` (max_permits - 2 * batch_size));
              HealthSuccess (length got) ]).
Proof.
  intros Hlen1 Hlen2 Hmax got.
  assert (Hbs : 0 < batch_size) by (apply Nat.ltb_lt; by vm_compute).
  assert (Hne1 : records1 ≠ []) by (intros ->; cbn in Hlen1; lia).
  assert (Hne2 : records2 ≠ []) by (intros ->; cbn in Hlen2; lia).
  assert (Hgot : got ≠ []).
  { subst got. destruct records1 as [|record records1]; [done|].
    apply collect_init_nonempty. }
  unfold scrape_permits. cbv zeta.
  rewrite scrape_loop_full_page by (done || lia).
  rewrite scrape_loop_full_page by (done || lia).
  cbn [scrape_loop].
  assert ((0 + length records1 + length records2 <? max_permits) = true) as ->
    by (apply Nat.ltb_lt; lia).
  cbn [negb]. rewrite !collect_emit.
  assert (Hcollect : collect records2 (collect records1 init)
                     = collect (records1 ++ records2) init)
    by (unfold collect; by rewrite foldl_app).
  rewrite Hcollect. subst got.
  destruct (collect (records1 ++ records2) init) as [ps seen evs] eqn:E.
  assert (evs = []) as ->.
  { change evs with (events (Scraper ps seen evs)). by rewrite <- E, collect_events. }
  cbn [permits] in Hgot. unfold emit. cbn [permits seen_permit_ids events app].
  destruct ps as [|p ps]; [done|]. rewrite Hlen1, Hlen2.
  cbn [permits seen_permit_ids events app]. repeat f_equal; lia.
Qed.

(** C7: a fresh scraper receives two full pages of records and then three
    exceptions in a row. It stops at the third exception after five
    fetches, saves the permits collected from the two pages under the
    partial file name, and returns exactly these permits: the records of
    the two pages in order, each id once (all of them when their ids are
    pairwise distinct). The result is not empty, and nothing that follows in
    the source is fetched. The list returned carries no mark of the early
    stop: it is reported to the health check as a success, and it is the
    list, with the same report, that the run returns which finds the end
    of the data after the same two pages and saves no partial result. *)
Theorem partial_save records1 records2 e1 e2 e3 rest max_permits :
  length records1 = batch_size → length records2 = batch_size →
  2 * batch_size < max_permits →
  is_exception e1 = true → is_exception e2 = true → is_exception e3 = true →
  let replies :=
    Page (Some <$> records1) :: Page (Some <$> records2) :: e1 :: e2 :: e3 :: rest in
  let r := scrape_permits replies max_permits init in
  let limit := batch_size `min` (max_permits - 2 * batch_size) in
  r.1 = permits (collect (records1 ++ records2) init)
  ∧ r.1 ≠ []
  ∧ (NoDup (map permit_id_of (records1 ++ records2)) →
       r.1 = map normalize (records1 ++ records2))
  ∧ events r.2
    = [ Fetch 0 batch_size; Sleep (1 # 2);
        Fetch batch_size batch_size; Sleep (1 # 2);
        Fetch (2 * batch_size) limit; Sleep 2;
        Fetch (3 * batch_size) limit; Sleep 2;
        Fetch (4 * batch_size) limit;
        SavePartial r.1; HealthSuccess (length r.1) ]
  ∧ partial_saves (events r.2) = [r.1]
  ∧ last (events r.2) = Some (HealthSuccess (length r.1))
  ∧ (let complete :=
       scrape_permits
         (Page (Some <$> records1) :: Page (Some <$> records2) :: Page [] :: rest)
         max_permits init in
     complete.1 = r.1
     ∧ last (events complete.2) = last (events r.2)
     ∧ partial_saves (events complete.2) = []).
Proof.
  intros Hlen1 Hlen2 Hmax He1 He2 He3 replies r limit.
  pose proof (two_pages_then_end records1 records2 rest max_permits Hlen1 Hlen2 Hmax)
    as Hend. cbv zeta in Hend. rewrite Hend. clear Hend.
  destruct (two_pages_then_three_failures records1 records2 e1 e2 e3 rest max_permits
              Hlen1 Hlen2 Hmax He1 He2 He3) as [Hgot Hr].
  subst r replies limit. rewrite Hr. clear Hr.
  set (got := permits (collect (records1 ++ records2) init)) in *.
  cbn [fst snd events].
  split_and!; [reflexivity | exact Hgot | | reflexivity | reflexivity | reflexivity
              | reflexivity | reflexivity | reflexivity].
  intros Hnd. subst got.
  rewrite collect_distinct; [reflexivity | exact Hnd |].
  intros record _. apply not_elem_of_empty.
Qed.

(** C9, as the code has it, for every record. The value of a permit is
    the integer 0 when the cost is missing, null, false, zero or empty, and
    when the conversion to a float fails: [float] of a text from which
    ['$'] and [','] were removed, of the printed form of a list or dict, or
    of an integer too large for a float; in every other case it is the
    float the conversion gives. The issue date is ["N/A"] when the source
    date is missing or empty, and when the date parser rejects it
    ([fromisoformat], with ['Z'] replaced by ['+00:00'], for a text that
    holds a ['T'], [strptime] with ['%Y-%m-%d'] otherwise); in every other
    case it is the parsed date as [strftime('%Y-%m-%d')] prints it. The
    status is ["N/A"] when the source status is missing or empty, and the
    source status otherwise. *)
Theorem normalize_defaults record :
  let p := normalize record in
  let number (n : Z) :=
    match float_of_int n with Some x => PyFloat x | None => PyInt 0 end in
  let text (s : string) :=
    match float_of_str (PyStr.replace "," "" (PyStr.replace "$" "" s)) with
    | Some x => PyFloat x
    | None => PyInt 0
    end in
  (truthy (raw_cost record) = false → value p = PyInt 0)
  ∧ (∀ s, raw_cost record = JStr s → s ≠ "" → value p = text s)
  ∧ (∀ n, raw_cost record = JInt n → n ≠ 0%Z → value p = number n)
  ∧ (raw_cost record = JBool true → value p = number 1%Z)
  ∧ (∀ x, raw_cost record = JFloat x → float_is_zero x = false → value p = PyFloat x)
  ∧ (∀ rendered, raw_cost record = JContainer rendered true → value p = text rendered)
  ∧ (raw_issued_date record = None ∨ raw_issued_date record = Some "" →
       issued_date p = "N/A")
  ∧ (∀ s, raw_issued_date record = Some s → s ≠ "" →
       issued_date p
       = match (if PyStr.contains "T" s
                then fromisoformat (PyStr.replace "Z" "+00:00" s)
                else strptime_ymd s) with
         | Some dt => strftime_ymd dt
         | None => "N/A"
         end)
  ∧ (raw_status record = None ∨ raw_status record = Some "" → status p = "N/A")
  ∧ (∀ s, raw_status record = Some s → s ≠ "" → status p = s).
Proof.
  cbv zeta. unfold normalize. cbn [value issued_date status].
  assert (Hne : ∀ s, s ≠ "" → PyStr.truthy s = true) by (by intros [|a s]).
  split_and!.
  - intros ->. done.
  - intros s -> Hs. cbn [truthy]. rewrite (Hne s Hs).
    unfold _parse_cost. cbn [truthy negb render]. by rewrite (Hne s Hs).
  - intros n -> Hn. cbn [truthy].
    assert ((n =? 0)%Z = false) as Hz by (by apply Z.eqb_neq).
    rewrite Hz. unfold _parse_cost. cbn [truthy negb]. by rewrite Hz.
  - intros ->. done.
  - intros x -> Hx. cbn [truthy]. rewrite Hx.
    unfold _parse_cost. cbn [truthy negb]. by rewrite Hx.
  - intros rendered ->. done.
  - by intros [-> | ->].
  - intros s -> Hs. unfold _format_date. by rewrite (Hne s Hs).
  - by intros [-> | ->].
  - intros s -> Hs. unfold get_or. by rewrite (Hne s Hs).
Qed.

End CharlotteFacts.

(** ** Paginated scraper (scrapers/dallas.py) *)

Section DallasFacts.
Import PyVal Store Dallas.
Context {py : PyBuiltins}.
Implicit Types (self : scraper) (f : feature) (features : list (option feature)).

Lemma add_feature_seen f self :
  PERMIT_No f ∈ seen_permit_ids self → add_feature f self = self.
Proof. intros Hin. unfold add_feature. case_match; [by apply add_seen | done]. Qed.

Lemma add_feature_extends f self : extends permit_number self (add_feature f self).
Proof.
  unfold add_feature. case_match; [by apply add_extends | apply extends_refl].
Qed.

Lemma add_feature_consistent f self :
  consistent permit_number self → consistent permit_number (add_feature f self).
Proof. unfold add_feature. case_match; [by apply add_consistent | done]. Qed.

Lemma add_features_extends features self :
  extends permit_number self (add_features features self).1.
Proof.
  revert self. induction features as [|[f|] features IH]; intros self; cbn;
    [apply extends_refl | | apply extends_refl].
  eapply extends_trans; [apply add_feature_extends | apply IH].
Qed.

Lemma add_features_consistent features self :
  consistent permit_number self →
  consistent permit_number (add_features features self).1.
Proof.
  revert self. induction features as [|[f|] features IH]; intros self Hc; cbn;
    [done | | done].
  by apply IH, add_feature_consistent.
Qed.

(** A feature that was handled has its id in the seen-id set, unless the
    id is empty, and then it is passed over every time. *)
Lemma add_feature_again f self later :
  seen_permit_ids (add_feature f self) ⊆ seen_permit_ids later →
  add_feature f later = later.
Proof.
  unfold add_feature. case_match; [|done].
  intros Hsub. apply add_seen, Hsub, add_id_seen.
Qed.

Lemma add_features_again features self later :
  seen_permit_ids (add_features features self).1 ⊆ seen_permit_ids later →
  add_features features later = (later, (add_features features self).2).
Proof.
  revert self. induction features as [|[f|] features IH]; intros self Hsub; cbn in *;
    [done | | done].
  rewrite (add_feature_again f self later); [by apply (IH (add_feature f self))|].
  destruct (add_features_extends features (add_feature f self)) as (_ & _ & Hgrow & _).
  set_solver.
Qed.

Lemma arcgis_loop_steps (R : scraper → scraper → Prop) :
  (∀ s, R s s) → (∀ a b c, R a b → R b c → R a c) →
  (∀ e s, R s (emit e s)) → (∀ features s, R s (add_features features s).1) →
  ∀ replies max_permits offset consecutive_failures self,
    R self (arcgis_loop replies max_permits offset consecutive_failures self).
Proof.
  intros Hrefl Htrans Hemit Hadd.
  assert (Hfail : ∀ cf s,
    match on_failure cf s with inl s' => R s s' | inr (_, s') => R s s' end).
  { intros cf s. unfold on_failure.
    destruct (max_consecutive_failures <=? S cf); [destruct (permits s)|]; eauto. }
  induction replies as [|reply replies IH];
    intros max_permits offset cf self; cbn [arcgis_loop];
    (destruct (negb (length (permits self) <? max_permits)); [by apply Hrefl|]).
  { by apply Hemit. }
  set (self1 := emit _ self). assert (H1 : R self self1) by apply Hemit.
  destruct reply as [[|item features]| |].
  - done.
  - pose proof (Hadd (item :: features) self1) as H2.
    destruct (add_features (item :: features) self1) as [self2 [|]]; cbn [fst] in H2.
    + pose proof (Hfail 0 self2) as H3.
      destruct (on_failure 0 self2) as [self3|[cf' self3]]; eauto.
    + case_match; eauto 6.
  - pose proof (Hfail cf self1) as H3.
    destruct (on_failure cf self1) as [self3|[cf' self3]]; eauto.
  - pose proof (Hfail cf self1) as H3.
    destruct (on_failure cf self1) as [self3|[cf' self3]]; eauto.
Qed.

Lemma arcgis_loop_consistent replies max_permits offset cf self :
  consistent permit_number self →
  consistent permit_number (arcgis_loop replies max_permits offset cf self).
Proof.
  apply (arcgis_loop_steps
           (λ s s', consistent permit_number s → consistent permit_number s'));
    eauto using add_features_consistent.
Qed.

(** What [scrape_permits] returns: the object's list, or a new empty
    list. *)
Lemma dallas_scrape_permits_result replies max_permits self :
  (scrape_permits replies max_permits self).1
    = permits (arcgis_loop replies max_permits 0 0 self)
  ∨ (scrape_permits replies max_permits self).1 = [].
Proof.
  unfold scrape_permits, _try_arcgis_api. cbv zeta. cbn [fst snd].
  destruct (_ && _); cbn [fst]; [by left | by right].
Qed.

Lemma dallas_no_duplicate_ids replies max_permits :
  NoDup (ids (scrape_permits replies max_permits init).1).
Proof.
  destruct (dallas_scrape_permits_result replies max_permits init) as [-> | ->];
    [|constructor].
  apply arcgis_loop_consistent, consistent_init.
Qed.

End DallasFacts.

(** ** Paginated scraper (scrapers/milwaukee.py) *)

Section MilwaukeeFacts.
Import PyVal Store Milwaukee.
Implicit Types (self : scraper) (record : raw_record) (data : list (option raw_record)).

Lemma milwaukee_add_record_extends record self :
  extends permit_number self (add_record record self).
Proof.
  unfold add_record. repeat case_match; try apply extends_refl. by apply add_extends.
Qed.

Lemma milwaukee_add_record_consistent record self :
  consistent permit_number self → consistent permit_number (add_record record self).
Proof. unfold add_record. repeat case_match; try done. by apply add_consistent. Qed.

Lemma milwaukee_add_records_extends data self :
  extends permit_number self (add_records data self).1.
Proof.
  revert self. induction data as [|[record|] data IH]; intros self; cbn;
    [apply extends_refl | | apply extends_refl].
  eapply extends_trans; [apply milwaukee_add_record_extends | apply IH].
Qed.

Lemma milwaukee_add_records_consistent data self :
  consistent permit_number self → consistent permit_number (add_records data self).1.
Proof.
  revert self. induction data as [|[record|] data IH]; intros self Hc; cbn;
    [done | | done].
  by apply IH, milwaukee_add_record_consistent.
Qed.

Lemma endpoint_loop_steps (R : scraper → scraper → Prop) :
  (∀ s, R s s) → (∀ a b c, R a b → R b c → R a c) →
  (∀ e s, R s (emit e s)) → (∀ data s, R s (add_records data s).1) →
  ∀ replies max_permits offset self,
    R self (endpoint_loop replies max_permits offset self).
Proof.
  intros Hrefl Htrans Hemit Hadd.
  induction replies as [|reply replies IH];
    intros max_permits offset self; cbn [endpoint_loop];
    (destruct (negb (length (permits self) <? max_permits)); [by apply Hrefl|]).
  { by apply Hemit. }
  set (self1 := emit _ self). assert (H1 : R self self1) by apply Hemit.
  destruct reply as [[|item data]|]; [done | | eauto].
  pose proof (Hadd (item :: data) self1) as H2.
  destruct (add_records (item :: data) self1) as [self2 [|]]; cbn [fst] in H2;
    [eauto | case_match; eauto].
Qed.

Lemma get_permits_extends replies max_permits self :
  extends permit_number self (get_permits replies max_permits self).2.
Proof.
  unfold get_permits. cbn [snd]. apply endpoint_loop_steps;
    eauto using extends_refl, extends_trans, extends_emit,
      milwaukee_add_records_extends.
Qed.

Lemma get_permits_consistent replies max_permits self :
  consistent permit_number self →
  consistent permit_number (get_permits replies max_permits self).2.
Proof.
  unfold get_permits. cbn [snd].
  apply (endpoint_loop_steps
           (λ s s', consistent permit_number s → consistent permit_number s'));
    eauto using milwaukee_add_records_consistent.
Qed.

End MilwaukeeFacts.

(** ** Deduplication and accumulation across the scrapers *)

Section Dedup.
Import Store.
Context {py : PyBuiltins}.

(** C6: in one run of a scraper on a fresh object, whatever pages and
    errors the source answers with, every id occurs at most once among the
    returned permits; this holds for Charlotte's [scrape_permits] and for
    Dallas's. A record whose id is in the seen-id set is skipped, and
    handling a page that was handled before, at any later point of the
    run, leaves the permits and the seen-id set as they are. *)
Theorem no_duplicate_ids
    (replies : list Charlotte.response) (features : list Dallas.response)
    (max_permits : nat) :
  NoDup (Charlotte.ids (Charlotte.scrape_permits replies max_permits Charlotte.init).1)
  ∧ NoDup (Dallas.ids (Dallas.scrape_permits features max_permits Dallas.init).1)
  ∧ (∀ record self,
       Charlotte.permit_id_of record ∈ seen_permit_ids self →
       Charlotte.add_record record self = self)
  ∧ (∀ f self,
       Dallas.PERMIT_No f ∈ seen_permit_ids self → Dallas.add_feature f self = self)
  ∧ (∀ data self later,
       extends Charlotte.permit_number (Charlotte.add_records data self).1 later →
       (Charlotte.add_records data later).1 = later)
  ∧ (∀ page self later,
       extends Dallas.permit_number (Dallas.add_features page self).1 later →
       (Dallas.add_features page later).1 = later).
Proof.
  split_and!.
  - destruct (scrape_permits_result replies max_permits Charlotte.init) as (-> & _ & _).
    apply scrape_loop_consistent, consistent_init.
  - apply dallas_no_duplicate_ids.
  - apply add_record_seen.
  - apply add_feature_seen.
  - intros data self later (_ & _ & Hsub & _).
    by rewrite (add_records_again data self later Hsub).
  - intros page self later (_ & _ & Hsub & _).
    by rewrite (add_features_again page self later Hsub).
Qed.

(** C10: the permit list and the seen-id set live in the object and
    outlast a call. A call of Charlotte's [scrape_permits] on an object in
    any state returns the object's list, which is the list it had before
    with the newly collected permits appended: nothing is dropped, the
    seen-id set only grows, and no appended permit has an id that was in
    the seen-id set before the call. Starting from a fresh object, the list
    returned by a second call has the list returned by the first call as a
    prefix and still holds every id once. The same holds for Milwaukee's
    [get_permits]. *)
Theorem state_accumulates
    (replies : list Charlotte.response) (max_permits : nat) (self : Charlotte.scraper)
    (pages : list Milwaukee.response) (other : Milwaukee.scraper) :
  let r := Charlotte.scrape_permits replies max_permits self in
  let m := Milwaukee.get_permits pages max_permits other in
  (r.1 = permits r.2
   ∧ permits self `prefix_of` r.1
   ∧ length (permits self) ≤ length r.1
   ∧ seen_permit_ids self ⊆ seen_permit_ids r.2
   ∧ (∀ p, p ∈ drop (length (permits self)) r.1 →
        Charlotte.permit_number p ∉ seen_permit_ids self)
   ∧ (∀ replies0 max_permits0,
        self = (Charlotte.scrape_permits replies0 max_permits0 Charlotte.init).2 →
        (Charlotte.scrape_permits replies0 max_permits0 Charlotte.init).1 `prefix_of` r.1
        ∧ NoDup (Charlotte.ids r.1)))
  ∧ (m.1 = permits m.2
     ∧ permits other `prefix_of` m.1
     ∧ length (permits other) ≤ length m.1
     ∧ seen_permit_ids other ⊆ seen_permit_ids m.2
     ∧ (∀ p, p ∈ drop (length (permits other)) m.1 →
          Milwaukee.permit_number p ∉ seen_permit_ids other)
     ∧ (∀ pages0 max_permits0,
          other = (Milwaukee.get_permits pages0 max_permits0 Milwaukee.init).2 →
          (Milwaukee.get_permits pages0 max_permits0 Milwaukee.init).1 `prefix_of` m.1
          ∧ NoDup (Milwaukee.ids m.1))).
Proof.
  intros r m. split.
  - subst r.
    destruct (scrape_permits_result replies max_permits self) as (Hr & Hp & Hs).
    destruct (scrape_permits_extends replies max_permits self)
      as (added & Hadd & Hsub & Hnew).
    rewrite Hr, <- Hp, Hadd.
    split_and!; try done.
    + by apply prefix_app_r.
    + rewrite length_app. lia.
    + by rewrite drop_app_length.
    + intros replies0 max0 ->.
      destruct (scrape_permits_result replies0 max0 Charlotte.init) as (-> & Hp0 & _).
      rewrite <- Hp0. split; [by apply prefix_app_r|].
      rewrite <- Hadd.
      apply scrape_permits_consistent, scrape_permits_consistent, consistent_init.
  - subst m.
    destruct (get_permits_extends pages max_permits other)
      as (added & Hadd & Hsub & Hnew).
    change (Milwaukee.get_permits pages max_permits other).1
      with (permits (Milwaukee.get_permits pages max_permits other).2).
    rewrite Hadd.
    split_and!; try done.
    + by apply prefix_app_r.
    + rewrite length_app. lia.
    + by rewrite drop_app_length.
    + intros pages0 max0 ->.
      change (Milwaukee.get_permits pages0 max0 Milwaukee.init).1
        with (permits (Milwaukee.get_permits pages0 max0 Milwaukee.init).2).
      split; [by apply prefix_app_r|].
      rewrite <- Hadd.
      apply get_permits_consistent, get_permits_consistent, consistent_init.
Qed.

End Dedup.

(** C6 on a page that holds one record twice, handled by a fresh
    Charlotte scraper, and on a page of Dallas features that holds one
    feature twice: handling either page again adds nothing. *)
Lemma no_duplicate_ids_witness :
  let once := (Charlotte.add_records Samples.short_page Charlotte.init).1 in
  let donce := (Dallas.add_features Samples.feature_page Dallas.init).1 in
  Store.extends Charlotte.permit_number once once
  ∧ (Charlotte.add_records Samples.short_page once).1 = once
  ∧ Charlotte.ids (Store.permits once) = ["P1"; "P2"; "P3"]
  ∧ Store.extends Dallas.permit_number donce donce
  ∧ (Dallas.add_features Samples.feature_page donce).1 = donce
  ∧ Dallas.ids (Store.permits donce) = ["D1"; "D2"].
Proof.
  cbv zeta.
  assert (Hext : Store.extends Charlotte.permit_number
                   (Charlotte.add_records Samples.short_page Charlotte.init).1
                   (Charlotte.add_records Samples.short_page Charlotte.init).1)
    by apply extends_refl.
  assert (Hdext : Store.extends Dallas.permit_number
                    (Dallas.add_features Samples.feature_page Dallas.init).1
                    (Dallas.add_features Samples.feature_page Dallas.init).1)
    by apply extends_refl.
  destruct (no_duplicate_ids (py := Samples.runtime) [] [] 0)
    as (_ & _ & _ & _ & Hagain & Hdagain).
  split_and!; [exact Hext | | reflexivity | exact Hdext | | reflexivity].
  - exact (Hagain Samples.short_page Charlotte.init _ Hext).
  - exact (Hdagain Samples.feature_page Dallas.init _ Hdext).
Defined.

(** C7 as stated fails: the value returned after the early stop bears no
    partial mark. With two full pages and then three exceptions the call
    saves a partial result and returns the permits of the two pages; with
    the same two pages and then the end of the data the call saves none and
    returns the very same list, with the same success report. Whatever
    reads a partial flag off the returned value gives the same answer on
    the run that was cut short and on the run that was not. *)
Lemma result_has_no_partial_mark :
  let aborted :=
    Charlotte.scrape_permits (py := Samples.runtime)
      [ Charlotte.Page (Some <$> Samples.page1); Charlotte.Page (Some <$> Samples.page2);
        Charlotte.RequestException; Charlotte.OtherException;
        Charlotte.RequestException ] 5000 Charlotte.init in
  let complete :=
    Charlotte.scrape_permits (py := Samples.runtime)
      [ Charlotte.Page (Some <$> Samples.page1); Charlotte.Page (Some <$> Samples.page2);
        Charlotte.Page [] ] 5000 Charlotte.init in
  Charlotte.partial_saves (Store.events aborted.2) = [aborted.1]
  ∧ Charlotte.partial_saves (Store.events complete.2) = []
  ∧ aborted.1 = complete.1
  ∧ last (Store.events aborted.2) = last (Store.events complete.2)
  ∧ ¬ ∃ partial : list Charlotte.permit → bool,
        partial aborted.1 = true ∧ partial complete.1 = false.
Proof.
  cbv zeta.
  assert (H1 : length Samples.page1 = Charlotte.batch_size) by reflexivity.
  assert (H2 : length Samples.page2 = Charlotte.batch_size) by reflexivity.
  assert (H3 : 2 * Charlotte.batch_size < 5000) by (apply Nat.ltb_lt; reflexivity).
  destruct (two_pages_then_three_failures (py := Samples.runtime)
              Samples.page1 Samples.page2
              Charlotte.RequestException Charlotte.OtherException
              Charlotte.RequestException [] 5000 H1 H2 H3 eq_refl eq_refl eq_refl)
    as [_ Habort].
  pose proof (two_pages_then_end (py := Samples.runtime) Samples.page1 Samples.page2
                [] 5000 H1 H2 H3) as Hend.
  cbv zeta in Habort, Hend. rewrite Habort, Hend. cbn [fst snd Store.events].
  split_and!; [reflexivity | reflexivity | reflexivity | reflexivity |].
  intros (partial & Hyes & Hno). rewrite Hyes in Hno. discriminate Hno.
Qed.

(** C7 as amended, on the records numbered 0 to 1999, a transport
    error, another exception and a transport error, with the default
    limit of 5000 permits. *)
Lemma partial_save_witness :
  let replies :=
    [ Charlotte.Page (Some <$> Samples.page1); Charlotte.Page (Some <$> Samples.page2);
      Charlotte.RequestException; Charlotte.OtherException;
      Charlotte.RequestException; Charlotte.Page (Some <$> Samples.page1) ] in
  let r := Charlotte.scrape_permits replies 5000 Charlotte.init in
  length Samples.page1 = Charlotte.batch_size
  ∧ length Samples.page2 = Charlotte.batch_size
  ∧ 2 * Charlotte.batch_size < 5000
  ∧ r.1 ≠ []
  ∧ Charlotte.partial_saves (Store.events r.2) = [r.1]
  ∧ last (Store.events r.2) = Some (Charlotte.HealthSuccess (length r.1)).
Proof.
  cbv zeta.
  assert (H1 : length Samples.page1 = Charlotte.batch_size) by reflexivity.
  assert (H2 : length Samples.page2 = Charlotte.batch_size) by reflexivity.
  assert (H3 : 2 * Charlotte.batch_size < 5000) by (apply Nat.ltb_lt; reflexivity).
  destruct (partial_save (py := Samples.runtime) Samples.page1 Samples.page2
              Charlotte.RequestException Charlotte.OtherException
              Charlotte.RequestException [Charlotte.Page (Some <$> Samples.page1)]
              5000 H1 H2 H3 eq_refl eq_refl eq_refl)
    as (_ & Hne & _ & _ & Hsave & Hlast & _).
  split_and!; [exact H1 | exact H2 | exact H3 | exact Hne | exact Hsave | exact Hlast].
Defined.

(** C9 as stated fails: for a record with no issue date and no status the
    sentinel stored in both fields is "N/A", not "unknown". *)
Lemma sentinel_is_not_unknown :
  let p := Charlotte.normalize Samples.bare_record in
  Charlotte.raw_issued_date Samples.bare_record = None
  ∧ Charlotte.raw_status Samples.bare_record = None
  ∧ Charlotte.issued_date p = "N/A" ∧ Charlotte.issued_date p ≠ "unknown"
  ∧ Charlotte.status p = "N/A" ∧ Charlotte.status p ≠ "unknown".
Proof. cbv zeta. split_and!; (reflexivity || discriminate). Qed.

(** C9 as amended, on the record numbered 1, whose cost is "$12,500" and
    whose date is "2024-01-01T00:00:00.000", and on the record in which
    every column is missing. *)
Lemma normalize_defaults_witness :
  let p := Charlotte.normalize (Samples.record_of 1) in
  let q := Charlotte.normalize Samples.bare_record in
  Charlotte.value p = @PyVal.PyFloat Samples.runtime 12500%Z
  ∧ Charlotte.issued_date p = "2024-01-01"
  ∧ Charlotte.status p = "Issued"
  ∧ Charlotte.value q = PyVal.PyInt 0
  ∧ Charlotte.issued_date q = "N/A"
  ∧ Charlotte.status q = "N/A".
Proof.
  cbv zeta.
  destruct (normalize_defaults (py := Samples.runtime) (Samples.record_of 1))
    as (_ & Hvalue & _ & _ & _ & _ & _ & Hdate & _ & Hstatus).
  destruct (normalize_defaults (py := Samples.runtime) Samples.bare_record)
    as (Hzero & _ & _ & _ & _ & _ & Hnodate & _ & Hnostatus & _).
  split_and!.
  - exact (Hvalue "$12,500" eq_refl ltac:(discriminate)).
  - exact (Hdate "2024-01-01T00:00:00.000" eq_refl ltac:(discriminate)).
  - exact (Hstatus "Issued" eq_refl ltac:(discriminate)).
  - exact (Hzero eq_refl).
  - exact (Hnodate (or_introl eq_refl)).
  - exact (Hnostatus (or_introl eq_refl)).
Defined.

(** C10 on two calls on one Charlotte object: the first collects P1, P2,
    P3; the second is answered with P3 and P4 and returns P1, P2, P3, P4.
    Likewise on one Milwaukee object with M1, M2 and then M2, M3. *)
Lemma state_accumulates_witness :
  let first := Charlotte.scrape_permits [Charlotte.Page Samples.short_page] 5000
                 Charlotte.init in
  let second := Charlotte.scrape_permits
                  [Charlotte.Page [Some (Samples.record_of 3); Some (Samples.record_of 4)]]
                  5000 first.2 in
  let mfirst := Milwaukee.get_permits
                  [Milwaukee.Page [Some (Samples.milwaukee_record 1);
                                   Some (Samples.milwaukee_record 2)]]
                  5000 Milwaukee.init in
  let msecond := Milwaukee.get_permits
                   [Milwaukee.Page [Some (Samples.milwaukee_record 2);
                                    Some (Samples.milwaukee_record 3)]]
                   5000 mfirst.2 in
  first.1 `prefix_of` second.1
  ∧ NoDup (Charlotte.ids second.1)
  ∧ Charlotte.ids first.1 = ["P1"; "P2"; "P3"]
  ∧ Charlotte.ids second.1 = ["P1"; "P2"; "P3"; "P4"]
  ∧ mfirst.1 `prefix_of` msecond.1
  ∧ NoDup (Milwaukee.ids msecond.1)
  ∧ Milwaukee.ids mfirst.1 = ["M1"; "M2"]
  ∧ Milwaukee.ids msecond.1 = ["M1"; "M2"; "M3"].
Proof.
  cbv zeta.
  destruct (state_accumulates (py := Samples.runtime)
              [Charlotte.Page [Some (Samples.record_of 3); Some (Samples.record_of 4)]]
              5000
              (Charlotte.scrape_permits [Charlotte.Page Samples.short_page] 5000
                 Charlotte.init).2
              [Milwaukee.Page [Some (Samples.milwaukee_record 2);
                               Some (Samples.milwaukee_record 3)]]
              (Milwaukee.get_permits
                 [Milwaukee.Page [Some (Samples.milwaukee_record 1);
                                  Some (Samples.milwaukee_record 2)]]
                 5000 Milwaukee.init).2)
    as [(_ & _ & _ & _ & _ & Htwice) (_ & _ & _ & _ & _ & Hmtwice)].
  destruct (Htwice [Charlotte.Page Samples.short_page] 5000 eq_refl) as [Hprefix Hnodup].
  destruct (Hmtwice [Milwaukee.Page [Some (Samples.milwaukee_record 1);
                                     Some (Samples.milwaukee_record 2)]] 5000 eq_refl)
    as [Hmprefix Hmnodup].
  split_and!; [exact Hprefix | exact Hnodup | reflexivity | reflexivity
              | exact Hmprefix | exact Hmnodup | reflexivity | reflexivity].
Defined.

(** * Further properties of the embedded code *)

(** ** The scheduler's bookkeeping (backend/scheduler.py) *)

Section SchedulerBookkeeping.
Import Scheduler.
Context {permit : Type}.
Implicit Types (w : world permit) (st : state) (plan : list (string * world permit)).

Lemma record_failure_maps city err st :
  failure_counts (record_failure city err st)
    = <[city := S (count_of (failure_counts st) city)]> (failure_counts st)
  ∧ last_success (record_failure city err st) = last_success st.
Proof. unfold record_failure, send_alert_email. by destruct (negb _). Qed.

(** One cycle on [city] leaves the entries of every other city alone. *)
Lemma run_scraper_other_city w city other max_retries st :
  other ≠ city →
  failure_counts (run_scraper w city max_retries st).2 !! other
    = failure_counts st !! other
  ∧ last_success (run_scraper w city max_retries st).2 !! other
    = last_success st !! other.
Proof.
  intros Hne. destruct (scraper_for city) as [c|] eqn:Hc.
  - destruct (run_scraper_cases w city c max_retries st Hc)
      as [[_ [err ->]]|(k & permits & _ & _ & _ & _ & _ & ->)]; cbn [snd].
    + destruct (record_failure_maps city err (logged st (retry_log c 0 max_retries)))
        as [-> ->].
      cbn. by rewrite lookup_insert_ne.
    + cbn. by rewrite !lookup_insert_ne.
  - by rewrite (run_scraper_unconfigured _ _ _ _ Hc).
Qed.

(** One cycle on a city with a scraper moves the city's counter as the
    hand-kept counter moves. *)
Lemma run_scraper_count w city c max_retries st :
  scraper_for city = Some c →
  count_of (failure_counts (run_scraper w city max_retries st).2) city
  = if all_fruitless w c max_retries then S (count_of (failure_counts st) city) else 0.
Proof.
  intros Hc.
  destruct (run_scraper_cases w city c max_retries st Hc)
    as [[Hall [err ->]]|(k & permits & Hk & Hf & _ & _ & _ & ->)]; cbn [snd].
  - apply all_fruitless_spec in Hall. rewrite Hall. by rewrite record_failure_count.
  - destruct (all_fruitless w c max_retries) eqn:Hall.
    + apply all_fruitless_spec with (a := k) in Hall; [congruence | done].
    + cbn. apply count_of_insert.
Qed.

(** X1: whatever cities are harvested, in whatever order and with
    whatever outcomes, the failure counter of a city is the number of its
    own failed cycles since its last successful one: cycles on other cities
    and on cities without a scraper do not move it, a success resets it, a
    failure adds one. *)
Theorem failure_count_is_streak plan city st :
  count_of (failure_counts (cycles plan st)) city
  = foldl (streak_step city) (count_of (failure_counts st) city) plan.
Proof.
  revert st. induction plan as [|[city' w] plan IH]; intros st; [done|].
  cbn [cycles foldl]. rewrite IH. f_equal.
  unfold streak_step. cbn [fst snd]. case_decide as Heq.
  - subst city'. destruct (scraper_for city) as [c|] eqn:Hc.
    + by apply run_scraper_count.
    + by rewrite (run_scraper_unconfigured _ _ _ _ Hc).
  - unfold count_of.
    by destruct (run_scraper_other_city w city' city 2 st) as [-> _].
Qed.

(** X2: cycles on other cities never touch a city's entries: after any
    plan that does not name [city], its failure count and its last-success
    time stamp are what they were. *)
Theorem other_cities_isolated plan city st :
  Forall (λ cw, cw.1 ≠ city) plan →
  failure_counts (cycles plan st) !! city = failure_counts st !! city
  ∧ last_success (cycles plan st) !! city = last_success st !! city.
Proof.
  revert st. induction plan as [|[city' w] plan IH]; intros st Hall; [done|].
  apply Forall_cons in Hall as [Hne Hall]. cbn [fst] in Hne. cbn [cycles].
  destruct (IH (run_scraper w city' 2 st).2 Hall) as [-> ->].
  apply run_scraper_other_city. done.
Qed.

(** What one cycle adds to the log, by the way it ends. *)
Lemma run_scraper_new_events w city max_retries st :
  events (run_scraper w city max_retries st).2
  = events st ++ new_events st (run_scraper w city max_retries st).2
  ∧ ((scraper_for city = None
      ∧ new_events st (run_scraper w city max_retries st).2 = [NoScraperConfigured city])
     ∨ (∃ c k (permits : list permit), scraper_for city = Some c ∧ k ≤ max_retries
          ∧ new_events st (run_scraper w city max_retries st).2
            = retry_log c 0 k ++ [Scraped city (length permits)])
     ∨ (∃ c err, scraper_for city = Some c
          ∧ new_events st (run_scraper w city max_retries st).2
            = retry_log c 0 max_retries
              ++ (if decide (S (count_of (failure_counts st) city) mod 3 = 0)
                  then [AlertEmail city err (S (count_of (failure_counts st) city))]
                  else []))).
Proof.
  destruct (scraper_for city) as [c|] eqn:Hc.
  - destruct (run_scraper_cases w city c max_retries st Hc)
      as [[_ [err ->]]|(k & permits & Hk & _ & _ & _ & _ & ->)]; cbn [snd].
    + unfold new_events. rewrite record_failure_events. cbn [logged events failure_counts].
      rewrite <- (assoc_L (++)), drop_app_length. split; [done|].
      right. right. by exists c, err.
    + unfold new_events. cbn [record_success logged events].
      rewrite drop_app_length. split; [done|].
      right. left. by exists c, k, permits.
  - rewrite (run_scraper_unconfigured _ _ _ _ Hc). cbn [snd].
    unfold new_events. cbn [emit events]. rewrite drop_app_length. split; [done|].
    by left.
Qed.

Lemma sum_sleeps k : 2 * sum_list (map (λ n, 5 * n) (seq 1 k)) = 5 * k * (k + 1).
Proof.
  induction k as [|k IH]; [done|].
  rewrite seq_S, map_app, sum_list_with_app.
  change (sum_list (map (λ n, 5 * n) [1 + k])) with (5 * (1 + k) + 0). lia.
Qed.

(** X3: one cycle, whatever the city and whatever the scrapers do, runs a
    scraper at most [max_retries + 1] times, sleeps at most
    5 + 10 + ... + [5 * max_retries] seconds in all (15 seconds for the two
    retries the main loop asks for), sends at most one alert, and on a city
    without a scraper does none of these. *)
Theorem cycle_is_bounded w city max_retries st :
  let new := new_events st (run_scraper w city max_retries st).2 in
  length (invocations new) ≤ max_retries + 1
  ∧ 2 * sum_list (sleeps new) ≤ 5 * max_retries * (max_retries + 1)
  ∧ length (alerts new) ≤ 1
  ∧ (scraper_for city = None →
       invocations new = [] ∧ sleeps new = [] ∧ alerts new = []
       ∧ failure_counts (run_scraper w city max_retries st).2 = failure_counts st
       ∧ last_success (run_scraper w city max_retries st).2 = last_success st).
Proof.
  intros new.
  destruct (run_scraper_new_events w city max_retries st)
    as [_ [[Hc Hnew]|[(c & k & permits & Hc & Hk & Hnew)|(c & err & Hc & Hnew)]]];
    subst new; rewrite Hnew.
  - cbn. split_and!; try lia. intros _.
    rewrite (run_scraper_unconfigured _ _ _ _ Hc). done.
  - rewrite invocations_app, sleeps_app, alerts_app, retry_log_invocations,
      retry_log_sleeps, retry_log_alerts.
    change (invocations [Scraped city (length permits)]) with (@nil (scraper_class * nat)).
    change (sleeps [Scraped city (length permits)]) with (@nil nat).
    change (alerts [Scraped city (length permits)]) with (@nil (string * nat)).
    rewrite !(right_id_L [] (++)), length_map, length_seq.
    pose proof (sum_sleeps k) as Hsum.
    split_and!; [lia | nia | cbn; lia | congruence].
  - rewrite invocations_app, sleeps_app, alerts_app, retry_log_invocations,
      retry_log_sleeps, retry_log_alerts.
    rewrite length_app, length_map, length_seq, sum_list_with_app.
    pose proof (sum_sleeps max_retries) as Hsum.
    case_decide; unfold invocations, sleeps, alerts;
      cbn [omap list_omap length sum_list_with app];
      (split_and!; [lia | lia | lia | congruence]).
Qed.

(** One cycle moves the counter of any city as the hand-kept counter
    moves. *)
Lemma run_scraper_streak_step w city' city st :
  count_of (failure_counts (run_scraper w city' 2 st).2) city
  = streak_step city (count_of (failure_counts st) city) (city', w).
Proof.
  unfold streak_step. cbn [fst snd]. case_decide as Heq.
  - subst city'. destruct (scraper_for city) as [c|] eqn:Hc.
    + by apply run_scraper_count.
    + by rewrite (run_scraper_unconfigured _ _ _ _ Hc).
  - unfold count_of.
    by destruct (run_scraper_other_city w city' city 2 st) as [-> _].
Qed.

Lemma streak_at plan city st :
  count_of (failure_counts (cycles plan st)) city
  = foldl (streak_step city) (count_of (failure_counts st) city) plan.
Proof.
  revert st. induction plan as [|[city' w] plan IH]; intros st; [done|].
  cbn [cycles foldl]. by rewrite IH, run_scraper_streak_step.
Qed.

Lemma streak_unconfigured plan city n :
  scraper_for city = None → foldl (streak_step city) n plan = n.
Proof.
  intros Hc. induction plan as [|cw plan IH]; [done|].
  cbn [foldl]. unfold streak_step at 2. rewrite Hc.
  by case_decide.
Qed.

Lemma cycles_app plan1 plan2 st :
  cycles (plan1 ++ plan2) st = cycles plan2 (cycles plan1 st).
Proof.
  revert st. induction plan1 as [|[city w] plan1 IH]; intros st; [done|].
  cbn [app cycles]. apply IH.
Qed.

(** The alerts of the cycle that follows the cycles [pre] from process
    start, read off the plan alone. *)
Lemma cycle_alerts pre city w :
  let st := cycles pre initial in
  let streak := foldl (streak_step city) 0 (pre ++ [(city, w)]) in
  alerts (new_events st (run_scraper w city 2 st).2)
  = if decide (streak ≠ 0 ∧ streak mod 3 = 0) then [(city, streak)] else [].
Proof.
  cbv zeta. rewrite foldl_app. cbn [foldl].
  assert (Hcount : count_of (failure_counts (cycles pre initial)) city
                   = foldl (streak_step city) 0 pre) by apply streak_at.
  rewrite <- Hcount. set (st := cycles pre initial) in *.
  assert (Hstep : ∀ k, streak_step city k (city, w)
                       = match scraper_for city with
                         | Some c => if all_fruitless w c 2 then S k else 0
                         | None => k
                         end).
  { intros k. unfold streak_step. cbn [fst snd]. by rewrite decide_True. }
  rewrite Hstep. clear Hstep.
  destruct (scraper_for city) as [c|] eqn:Hc.
  - destruct (run_scraper_cases w city c 2 st Hc)
      as [[Hall [err ->]]|(k & permits & Hk & Hf & _ & _ & _ & ->)]; cbn [snd].
    + apply all_fruitless_spec in Hall. rewrite Hall, failed_cycle_alerts.
      case_decide as Hmod.
      * by rewrite decide_True.
      * rewrite decide_False; [done | by intros [_ ?]].
    + assert (all_fruitless w c 2 = false) as ->.
      { destruct (all_fruitless w c 2) eqn:Hall; [|done].
        apply all_fruitless_spec with (a := k) in Hall; [congruence | done]. }
      rewrite decide_False by (by intros [? _]).
      unfold new_events. cbn [record_success logged events].
      by rewrite drop_app_length, alerts_app, retry_log_alerts.
  - rewrite (run_scraper_unconfigured _ _ _ _ Hc). cbn [snd].
    rewrite Hcount, (streak_unconfigured _ _ _ Hc).
    rewrite decide_False by (by intros [? _]).
    unfold new_events. cbn [emit events]. by rewrite drop_app_length.
Qed.

(** X4: in a run from process start, a cycle sends an alert exactly when
    it is the third, sixth, ninth, ... failed cycle in a row of its city,
    where cycles on other cities in between do not count and a successful
    cycle of the city starts the row again; the alert carries that number.
    So no alert is sent before three consecutive failed cycles of the city,
    and every alert in the log of the run names a city that has a scraper
    and was sent by a cycle of the plan at which the row of failures of that
    city had just the length the alert carries. *)
Theorem alerts_are_throttled plan :
  (∀ pre city w post, plan = pre ++ (city, w) :: post →
     let st := cycles pre initial in
     let r := run_scraper w city 2 st in
     let streak := foldl (streak_step city) 0 (pre ++ [(city, w)]) in
     cycles (pre ++ [(city, w)]) initial = r.2
     ∧ events r.2 = events st ++ new_events st r.2
     ∧ alerts (new_events st r.2)
       = if decide (streak ≠ 0 ∧ streak mod 3 = 0) then [(city, streak)] else [])
  ∧ (∀ city n, (city, n) ∈ alerts (events (cycles plan initial)) →
       0 < n ∧ n mod 3 = 0 ∧ is_Some (scraper_for city) ∧ city ∈ plan.*1
       ∧ ∃ pre w post, plan = pre ++ (city, w) :: post
                       ∧ foldl (streak_step city) 0 (pre ++ [(city, w)]) = n).
Proof.
  split.
  - intros pre city w post _. cbv zeta. split_and!.
    + by rewrite cycles_app.
    + by destruct (run_scraper_new_events w city 2 (cycles pre initial)) as [-> _].
    + apply cycle_alerts.
  - induction plan as [|[c w] plan IH] using rev_ind; intros city n Hin.
    { by apply elem_of_nil in Hin. }
    rewrite cycles_app in Hin. cbn [cycles] in Hin.
    destruct (run_scraper_new_events w c 2 (cycles plan initial)) as [Hev _].
    rewrite Hev, alerts_app in Hin. apply elem_of_app in Hin as [Hin|Hin].
    + destruct (IH city n Hin) as (Hpos & Hmod & Hsome & Hcity & pre & w' & post & -> & Hn).
      split_and!; [done | done | done | |].
      * rewrite fmap_app. apply elem_of_app. by left.
      * exists pre, w', (post ++ [(c, w)]). split; [|done].
        by rewrite <- (assoc_L (++)).
    + rewrite cycle_alerts in Hin. case_decide as Hstreak; [|by apply elem_of_nil in Hin].
      apply list_elem_of_singleton in Hin. injection Hin as -> Hn.
      destruct Hstreak as [Hne Hmod]. rewrite <- Hn in Hne, Hmod.
      split_and!; [lia | done | | |].
      * destruct (scraper_for c) as [sc|] eqn:Hc; [done|].
        rewrite (streak_unconfigured _ _ _ Hc) in Hn. lia.
      * rewrite fmap_app. apply elem_of_app. right. cbn. by left.
      * by exists plan, w, [].
Qed.

End SchedulerBookkeeping.

(** X2 on two failing cycles of "austin": the entries of "charlotte" stay
    empty. *)
Lemma other_cities_isolated_witness :
  Forall (λ cw : string * Scheduler.world unit, cw.1 ≠ "charlotte")
    [("austin", Samples.barren); ("austin", Samples.barren)]
  ∧ Scheduler.failure_counts
      (Scheduler.cycles [("austin", Samples.barren); ("austin", Samples.barren)]
         Scheduler.initial) !! "charlotte" = None.
Proof.
  assert (Hall : Forall (λ cw : string * Scheduler.world unit, cw.1 ≠ "charlotte")
                   [("austin", Samples.barren); ("austin", Samples.barren)])
    by (repeat constructor; discriminate).
  split; [exact Hall|].
  exact (proj1 (other_cities_isolated _ "charlotte" Scheduler.initial Hall)).
Defined.

(** X4 on three failing cycles of "charlotte": the first sends no alert,
    the third sends the one alert of the run, which carries 3. *)
Lemma alerts_are_throttled_witness :
  let plan := replicate 3 ("charlotte", Samples.barren) in
  Scheduler.alerts
    (Scheduler.new_events Scheduler.initial
       (Scheduler.run_scraper Samples.barren "charlotte" 2 Scheduler.initial).2) = []
  ∧ Scheduler.alerts
      (Scheduler.new_events
         (Scheduler.cycles (replicate 2 ("charlotte", Samples.barren)) Scheduler.initial)
         (Scheduler.run_scraper Samples.barren "charlotte" 2
            (Scheduler.cycles (replicate 2 ("charlotte", Samples.barren))
               Scheduler.initial)).2) = [("charlotte", 3)]
  ∧ ("charlotte", 3) ∈ Scheduler.alerts (Scheduler.events
       (Scheduler.cycles plan Scheduler.initial))
  ∧ is_Some (Scheduler.scraper_for "charlotte").
Proof.
  cbv zeta.
  destruct (alerts_are_throttled (replicate 3 ("charlotte", Samples.barren)))
    as [Hcycle Hlog].
  assert (Hin : ("charlotte", 3) ∈ Scheduler.alerts (Scheduler.events
     (Scheduler.cycles (replicate 3 ("charlotte", Samples.barren)) Scheduler.initial)))
    by (apply list_elem_of_singleton; reflexivity).
  destruct (Hcycle [] "charlotte" Samples.barren
              (replicate 2 ("charlotte", Samples.barren)) eq_refl) as (_ & _ & Hfirst).
  destruct (Hcycle (replicate 2 ("charlotte", Samples.barren)) "charlotte"
              Samples.barren [] eq_refl) as (_ & _ & Hthird).
  destruct (Hlog "charlotte" 3 Hin) as (_ & _ & Hsome & _).
  split_and!; [exact Hfirst | exact Hthird | exact Hin | exact Hsome].
Defined.

(** ** Selection and dispatch together (backend/scheduler.py) *)

Section SelectionDispatch.
Import Scheduler.

Lemma failure_penalty_ceiling failures : (failure_penalty failures ≤ 5)%Z.
Proof. unfold failure_penalty. lia. Qed.

(** X5: whatever the failure counters hold, the pool the scheduler draws
    from has between 19 and 95 entries (the priorities add up to 19 and a
    weight is between one and five times the priority), so a draw never
    finds it empty; and the city drawn is always one of the priority table
    for which [run_scraper] has a scraper, so the main loop never asks for a
    city it cannot harvest. *)
Theorem selection_is_dispatchable (fc : gmap string nat) (choice : nat) :
  19 ≤ length (weighted_cities fc) ≤ 95
  ∧ (choice < length (weighted_cities fc) → is_Some (get_next_city choice fc))
  ∧ (∀ city, get_next_city choice fc = Some city →
       city ∈ CITIES.*1 ∧ is_Some (scraper_for city)).
Proof.
  assert (Hlen : 19 ≤ length (weighted_cities fc) ≤ 95).
  { unfold weighted_cities, CITIES. cbn [foldl]. unfold extend_pool. cbn [fst snd].
    rewrite !length_app, !length_replicate. cbn [length]. unfold weight.
    pose proof (failure_penalty_floor (count_of fc "nashville")).
    pose proof (failure_penalty_ceiling (count_of fc "nashville")).
    pose proof (failure_penalty_floor (count_of fc "chattanooga")).
    pose proof (failure_penalty_ceiling (count_of fc "chattanooga")).
    pose proof (failure_penalty_floor (count_of fc "austin")).
    pose proof (failure_penalty_ceiling (count_of fc "austin")).
    pose proof (failure_penalty_floor (count_of fc "sanantonio")).
    pose proof (failure_penalty_ceiling (count_of fc "sanantonio")).
    pose proof (failure_penalty_floor (count_of fc "houston")).
    pose proof (failure_penalty_ceiling (count_of fc "houston")).
    pose proof (failure_penalty_floor (count_of fc "charlotte")).
    pose proof (failure_penalty_ceiling (count_of fc "charlotte")).
    pose proof (failure_penalty_floor (count_of fc "phoenix")).
    pose proof (failure_penalty_ceiling (count_of fc "phoenix")).
    lia. }
  split_and!; try lia.
  - intros Hlt. by apply lookup_lt_is_Some.
  - intros city Hget. unfold get_next_city in Hget.
    apply list_elem_of_lookup_2 in Hget.
    unfold weighted_cities, CITIES in Hget. cbn [foldl] in Hget.
    unfold extend_pool in Hget. cbn [fst snd] in Hget.
    rewrite !elem_of_app, !elem_of_replicate in Hget.
    destruct Hget as [[[[[[[Hnil|[-> _]]|[-> _]]|[-> _]]|[-> _]]|[-> _]]|[-> _]]|[-> _]];
      [by apply elem_of_nil in Hnil|..];
      (split; [unfold CITIES; cbn; rewrite !elem_of_cons; tauto | by eexists]).
Qed.

End SelectionDispatch.

(** ** The recovery log (auto_recovery.py) *)

Section RecoveryLog.
Import Routing.
Implicit Types (self : AutoRecovery) (cities : list string).

Lemma execute_routing_config now city self :
  routing_config (execute_routing now city self).2 = routing_config self.
Proof. unfold execute_routing. by destruct (routing_config self !! city). Qed.

(** X6: over any sequence of [execute_routing] calls the routing table is
    never changed; each call returns the substitute of its city when the
    city is routed and nothing otherwise; and the in-memory log and the log
    file grow in step, by one ROUTING_EXECUTED entry for each routed city of
    the sequence, in order, and by nothing for the other cities. *)
Theorem routing_calls_are_logged now cities self :
  let r := route_all now cities self in
  routing_config r.2 = routing_config self
  ∧ r.1 = map (λ city, route_to <$> routing_config self !! city) cities
  ∧ ∃ new, recovery_log r.2 = recovery_log self ++ new
           ∧ log_file r.2 = log_file self ++ new
           ∧ map Routing.city new
             = filter (λ city, is_Some (routing_config self !! city)) cities
           ∧ Forall (λ e, action e = "ROUTING_EXECUTED" ∧ timestamp e = now) new.
Proof.
  revert self. induction cities as [|city cities IH]; intros self; cbn zeta.
  - cbn. split_and!; try done. exists []. by rewrite !(right_id_L [] (++)).
  - cbn [route_all].
    pose proof (execute_routing_config now city self) as Hcfg.
    destruct (execute_routing now city self) as [target self1] eqn:Hexec.
    specialize (IH self1). cbv zeta in IH.
    destruct (route_all now cities self1) as [targets self2].
    cbn [fst snd] in *. destruct IH as (Hcfg2 & Htargets & new & Hlog & Hfile & Hcities & Hnew).
    rewrite Hcfg in Hcfg2, Htargets, Hcities.
    unfold execute_routing in Hexec.
    destruct (routing_config self !! city) as [entry|] eqn:Hentry.
    + injection Hexec as <- <-. cbn [log_recovery_action recovery_log log_file] in *.
      split_and!; [done | cbn [map]; by rewrite Htargets, Hentry |].
      eexists (_ :: new). rewrite Hlog, Hfile, <- !(assoc_L (++)).
      split_and!; [done | done | | by constructor].
      cbn [map Routing.city]. rewrite filter_cons_True by (by rewrite Hentry).
      by rewrite Hcities.
    + injection Hexec as <- <-.
      split_and!; [done | cbn [map]; by rewrite Htargets, Hentry |].
      exists new. split_and!; try done.
      rewrite filter_cons_False; [done|]. rewrite Hentry. by intros [? ?].
Qed.

(** X7: routing is one hop deep. Whenever [execute_routing] on the loaded
    table names a substitute for a city, the substitute is one of the
    working cities, the health check passes it, and asking
    [execute_routing] about the substitute names nothing further; the
    routed city itself fails the health check and is not among the working
    cities. *)
Theorem routing_is_one_hop now later city target :
  (execute_routing now city init).1 = Some target →
  let self := (execute_routing now city init).2 in
  target ∈ working_cities self
  ∧ check_city_health target self = true
  ∧ (execute_routing later target self).1 = None
  ∧ check_city_health city self = false
  ∧ city ∉ working_cities self.
Proof.
  intros Hexec self. subst self. unfold execute_routing in *. cbn [init routing_config] in *.
  destruct (CITY_ROUTING !! city) as [entry|] eqn:Hentry; [|done].
  cbn [fst snd log_recovery_action routing_config working_cities] in *.
  injection Hexec as <-.
  unfold check_city_health. cbn [routing_config].
  unfold CITY_ROUTING in Hentry. rewrite !lookup_insert_Some, lookup_empty in Hentry.
  destruct Hentry as [[<- <-]|[_ [[<- <-]|[_ [[<- <-]|[_ ?]]]]]]; [| | |done];
    (split_and!;
       [ apply list_elem_of_In; cbn; repeat (first [left; reflexivity | right])
       | by vm_compute | by vm_compute | by vm_compute
       | rewrite list_elem_of_In; cbn; intros H; repeat destruct H as [H|H];
         done ]).
Qed.

(** X8: the status report counts the working cities and the routed cities
    and shows the latest recovery actions: what it shows is the end of the
    log, the whole log while it has at most five entries and its last five
    otherwise. *)
Theorem status_shows_last_five self :
  let status := get_system_status self in
  total_cities status = length (working_cities self) + size (routing_config self)
  ∧ routed_count status = size (routing_config self)
  ∧ last_recovery_actions status `suffix_of` recovery_log self
  ∧ length (last_recovery_actions status) = length (recovery_log self) `min` 5
  ∧ (length (recovery_log self) ≤ 5 → last_recovery_actions status = recovery_log self)
  ∧ last (last_recovery_actions status) = last (recovery_log self).
Proof.
  cbv zeta. unfold get_system_status.
  cbn [total_cities routed_count last_recovery_actions].
  rewrite length_fmap, length_map_to_list.
  assert (Hlast : (match recovery_log self with
                   | [] => []
                   | _ => drop (length (recovery_log self) - 5) (recovery_log self)
                   end) = drop (length (recovery_log self) - 5) (recovery_log self))
    by (by destruct (recovery_log self)).
  rewrite Hlast. split_and!; try done.
  - apply suffix_drop.
  - rewrite length_drop. lia.
  - intros Hle. replace (length (recovery_log self) - 5) with 0 by lia. done.
  - destruct (decide (length (recovery_log self) = 0)) as [H0|Hpos].
    + apply length_zero_iff_nil in H0. by rewrite H0.
    + rewrite !last_lookup, lookup_drop, length_drop. f_equal. lia.
Qed.

End RecoveryLog.

(** X7 on "charlotte", routed to "raleigh". *)
Lemma routing_is_one_hop_witness :
  (Routing.execute_routing "2024-01-01T05:00:00" "charlotte" Routing.init).1
    = Some "raleigh"
  ∧ (Routing.execute_routing "2024-01-01T06:00:00" "raleigh"
       (Routing.execute_routing "2024-01-01T05:00:00" "charlotte" Routing.init).2).1
    = None.
Proof.
  split; [reflexivity|].
  destruct (routing_is_one_hop "2024-01-01T05:00:00" "2024-01-01T06:00:00"
              "charlotte" "raleigh" eq_refl) as (_ & _ & Hnone & _).
  exact Hnone.
Defined.

(** ** The retry loop in full (backend/scrapers/snohomish.py) *)

Section SnohomishLoop.
Import Snohomish.
Context {py : PyBuiltins}.
Implicit Types (w : world) (log : list event).


Lemma request_log_requests w attempt n :
  requests (request_log w attempt n) = seq attempt (S n).
Proof.
  revert attempt. induction n as [|n IH]; intros attempt; [done|].
  cbn [request_log]. change (requests (?a :: ?b :: ?r)) with (attempt :: requests r).
  by rewrite IH.
Qed.

Lemma request_log_backoffs w attempt n :
  backoffs (request_log w attempt n)
  = map (λ a, (uniform w a, (2 ^ Z.of_nat a)%Z)) (seq attempt n).
Proof.
  revert attempt. induction n as [|n IH]; intros attempt; [done|].
  cbn [request_log].
  change (backoffs (?a :: Backoff ?u ?f :: ?r)) with ((u, f) :: backoffs r).
  by rewrite IH.
Qed.

(** No attempt brings data: the loop runs through its range. *)
Lemma retry_loop_no_data w n :
  ∀ todo attempt leads log,
    attempt + todo = n → 0 < todo →
    (∀ a, attempt ≤ a < n → no_data (fetch w a) = true) →
    retry_loop w n todo attempt leads log
    = (leads, log ++ request_log w attempt (todo - 1)).
Proof.
  induction todo as [|todo IH]; intros attempt leads log Hsum Hpos Hall; [lia|].
  cbn [retry_loop].
  assert (Hnd : no_data (fetch w attempt) = true) by (apply Hall; lia).
  destruct (decide (attempt < n - 1)) as [Hlt|Hge].
  - assert ((attempt <? n - 1) = true) as Hltb by (by apply Nat.ltb_lt).
    replace (S todo - 1) with (S (todo - 1)) by lia. cbn [request_log].
    destruct (fetch w attempt) as [| |rows]; cbn [no_data] in Hnd; rewrite ?Hnd, Hltb;
      (rewrite IH; [| lia | lia | intros a Ha; apply Hall; lia]);
      by rewrite <- !(assoc_L (++)).
  - assert ((attempt <? n - 1) = false) as Hltb by (apply Nat.ltb_ge; lia).
    assert (todo = 0) as -> by lia. cbn [request_log Nat.sub retry_loop].
    destruct (fetch w attempt) as [| |rows]; cbn [no_data] in Hnd; by rewrite ?Hnd, ?Hltb.
Qed.

(** Attempt [k] is the first to bring a table with data rows: the loop
    ends there. *)
Lemma retry_loop_first_table w n k rows :
  fetch w k = Rows rows → 1 < length rows →
  ∀ todo attempt leads log,
    attempt + todo = n → attempt ≤ k < n →
    (∀ a, attempt ≤ a < k → no_data (fetch w a) = true) →
    retry_loop w n todo attempt leads log
    = (leads ++ omap lead_of_row (tail rows),
       log ++ request_log w attempt (k - attempt)).
Proof.
  intros Hk Hlen. induction todo as [|todo IH]; intros attempt leads log Hsum Hle Hall; [lia|].
  cbn [retry_loop]. destruct (decide (attempt = k)) as [->|Hne].
  - rewrite Hk. assert ((length rows <=? 1) = false) as -> by (apply Nat.leb_gt; lia).
    by rewrite Nat.sub_diag.
  - assert (Hnd : no_data (fetch w attempt) = true) by (apply Hall; lia).
    assert ((attempt <? n - 1) = true) as Hltb by (apply Nat.ltb_lt; lia).
    replace (k - attempt) with (S (k - S attempt)) by lia. cbn [request_log].
    destruct (fetch w attempt) as [| |rows']; cbn [no_data] in Hnd; rewrite ?Hnd, Hltb;
      (rewrite IH; [| lia | lia | intros a Ha; apply Hall; lia]);
      by rewrite <- !(assoc_L (++)).
Qed.

Lemma first_table w n :
  (∀ a, a < n → no_data (fetch w a) = true)
  ∨ ∃ k, k < n ∧ no_data (fetch w k) = false
         ∧ ∀ a, a < k → no_data (fetch w a) = true.
Proof.
  induction n as [|n [IH|(k & Hk & Hf & Hb)]].
  - left. lia.
  - destruct (no_data (fetch w n)) eqn:Hn.
    + left. intros a Ha. destruct (decide (a = n)) as [->|]; [done | apply IH; lia].
    + right. exists n. split_and!; [lia | done | done].
  - right. exists k. split_and!; [lia | done | done].
Qed.

Lemma data_is_table w k :
  no_data (fetch w k) = false → ∃ rows, fetch w k = Rows rows ∧ 1 < length rows.
Proof.
  destruct (fetch w k) as [| |rows]; cbn [no_data]; [done | done |].
  intros Hlen%Nat.leb_gt. eauto.
Qed.

(** X9: whatever the site answers, a call makes at most three requests,
    numbered from 0 without a gap, and pauses only between two requests,
    never after the last one: one pause less than requests, each of
    [random.uniform(1, 3)] times 1 before the second request and times 2
    before the third. A city name that is not "snohomish" in some
    capitalisation costs no request at all. *)
Theorem snohomish_requests_bounded w city_name :
  let r := get_leads_for_city w city_name in
  length (requests r.2) ≤ 3
  ∧ requests r.2 = seq 0 (length (requests r.2))
  ∧ length (backoffs r.2) = length (requests r.2) - 1
  ∧ backoffs r.2
    = map (λ a, (uniform w a, (2 ^ Z.of_nat a)%Z)) (seq 0 (length (backoffs r.2)))
  ∧ (PyStr.lower city_name ≠ "snohomish" → r = ([], [])).
Proof.
  cbv zeta. unfold get_leads_for_city.
  case_decide as Hcity; [|cbn; split_and!; (done || lia)].
  unfold max_retries.
  destruct (first_table w 3) as [Hall|(k & Hk & Hf & Hb)].
  - rewrite (retry_loop_no_data w 3 3 0 [] []); [| lia | lia | intros a Ha; apply Hall; lia].
    cbn [snd app]. rewrite request_log_requests, request_log_backoffs.
    rewrite !length_map, !length_seq. cbn [Nat.sub]. split_and!; done.
  - destruct (data_is_table _ _ Hf) as (rows & Hrows & Hlen).
    rewrite (retry_loop_first_table w 3 k rows Hrows Hlen 3 0 [] []);
      [| lia | lia | intros a Ha; apply Hb; lia].
    cbn [snd app]. rewrite Nat.sub_0_r, request_log_requests, request_log_backoffs.
    rewrite !length_map, !length_seq. split_and!; (done || lia).
Qed.


(** X11: when no attempt finds a table with data rows, whether because the
    request raised or because the page had no table or only a header, the
    call makes its three requests with the two pauses between them and
    returns the empty list. *)
Theorem snohomish_gives_up_empty w city_name :
  PyStr.lower city_name = "snohomish" →
  (∀ a, a < 3 → no_data (fetch w a) = true) →
  get_leads_for_city w city_name
  = ([], [Request 0; Backoff (uniform w 0) 1; Request 1;
          Backoff (uniform w 1) 2; Request 2]).
Proof.
  intros Hcity Hall. unfold get_leads_for_city. rewrite decide_True by done.
  unfold max_retries.
  by rewrite (retry_loop_no_data w 3 3 0 [] []); [| lia | lia | intros a Ha; apply Hall; lia].
Qed.

End SnohomishLoop.


(** X11 on a site that serves a page without a table, fails in
    transport, and then serves a table with only its header. *)
Lemma snohomish_gives_up_empty_witness :
  Snohomish.get_leads_for_city (py := Samples.runtime) Samples.empty_tables "SNOHOMISH"
  = ([], [ Snohomish.Request 0; Snohomish.Backoff 2 1; Snohomish.Request 1;
           Snohomish.Backoff 2 2; Snohomish.Request 2 ]).
Proof.
  apply (snohomish_gives_up_empty (py := Samples.runtime) Samples.empty_tables
           "SNOHOMISH" eq_refl).
  intros a Ha. destruct a as [|[|[|a]]]; [reflexivity | reflexivity | reflexivity | lia].
Defined.

(** ** The pagination loop in full (backend/scrapers/charlotte.py) *)

Section CharlotteLoop.
Import PyVal Store Charlotte.
Context {py : PyBuiltins}.
Implicit Types (self : scraper) (data : list (option raw_record)).

Lemma batch_size_pos : 0 < batch_size.
Proof. apply Nat.ltb_lt. by vm_compute. Qed.

Local Opaque batch_size.

Lemma add_records_events data self :
  events (add_records data self).1 = events self.
Proof.
  revert self. induction data as [|[record|] data IH]; intros self; cbn; [done | | done].
  by rewrite IH, add_record_events.
Qed.

Lemma fetches_app l1 l2 : fetches (l1 ++ l2) = fetches l1 ++ fetches l2.
Proof. apply omap_app. Qed.

Lemma on_failure_events cf self :
  match on_failure cf self with
  | inl self' | inr (_, self') =>
    ∃ mid, events self' = events self ++ mid ∧ fetches mid = []
  end.
Proof.
  unfold on_failure. destruct (max_consecutive_failures <=? S cf).
  - destruct (permits self); [exists []; by rewrite (right_id_L [] (++))|].
    by eexists [_].
  - by eexists [_].
Qed.

Lemma paged_stop offset max_permits limit :
  1 ≤ limit ≤ batch_size → limit ≤ max_permits →
  paged offset max_permits [(offset, limit)].
Proof.
  intros Hl Hm. split; cbn; [f_equal; lia|]. constructor; [done | constructor].
Qed.

Lemma paged_step offset max_permits limit l :
  1 ≤ limit ≤ batch_size → limit ≤ max_permits →
  paged (offset + batch_size) max_permits l →
  paged offset max_permits ((offset, limit) :: l).
Proof.
  intros Hl Hm [Hoff Hlim]. split.
  - cbn [fmap list_fmap fst length seq map]. rewrite Hoff. f_equal; [lia|].
    rewrite <- seq_shift, map_map. apply map_ext. intros i. lia.
  - cbn. constructor; [done | exact Hlim].
Qed.

(** The fetches of the loop, from any point of a run. *)
Lemma scrape_loop_paged replies max_permits :
  ∀ offset total cf self,
    ∃ new, events (scrape_loop replies max_permits offset total cf self)
           = events self ++ new
           ∧ paged offset max_permits (fetches new)
           ∧ length (fetches new) ≤ length replies + 1.
Proof.
  pose proof batch_size_pos as Hbs.
  induction replies as [|reply replies IH]; intros offset total cf self;
    cbn [scrape_loop]; destruct (total <? max_permits) eqn:Hlt; cbn [negb];
    try (exists []; rewrite (right_id_L [] (++)); split_and!; [done | by split | cbn; lia]).
  - apply Nat.ltb_lt in Hlt. eexists [_]. split_and!; [done | | cbn; lia].
    apply paged_stop; lia.
  - apply Nat.ltb_lt in Hlt.
    set (limit := batch_size `min` (max_permits - total)).
    assert (Hlimit : 1 ≤ limit ≤ batch_size ∧ limit ≤ max_permits) by (subst limit; lia).
    destruct Hlimit as [Hl Hm].
    assert (Hcont : ∀ mid self' total' cf',
      events self' = events (emit (Fetch offset limit) self) ++ mid → fetches mid = [] →
      ∃ new, events (scrape_loop replies max_permits (offset + batch_size) total' cf' self')
             = events self ++ new
             ∧ paged offset max_permits (fetches new)
             ∧ length (fetches new) ≤ length (reply :: replies) + 1).
    { intros mid self' total' cf' Hev Hmid.
      destruct (IH (offset + batch_size) total' cf' self') as (new & Hnew & Hpaged & Hlen).
      exists ([Fetch offset limit] ++ mid ++ new).
      rewrite Hnew, Hev. cbn [emit events]. rewrite <- !(assoc_L (++)).
      split; [done|]. rewrite !fetches_app, Hmid. cbn [app fetches omap list_omap].
      split; [by apply paged_step | cbn; lia]. }
    assert (Hstop : ∀ mid self',
      events self' = events (emit (Fetch offset limit) self) ++ mid → fetches mid = [] →
      ∃ new, events self' = events self ++ new
             ∧ paged offset max_permits (fetches new)
             ∧ length (fetches new) ≤ length (reply :: replies) + 1).
    { intros mid self' Hev Hmid. exists ([Fetch offset limit] ++ mid).
      rewrite Hev. cbn [emit events]. rewrite <- !(assoc_L (++)).
      split; [done|]. rewrite fetches_app, Hmid. cbn [app fetches omap list_omap].
      split; [by apply paged_stop | cbn; lia]. }
    destruct reply as [[|item data]| |].
    + apply (Hstop []); [by rewrite (right_id_L [] (++)) | done].
    + pose proof (add_records_events (item :: data) (emit (Fetch offset limit) self)) as Hev.
      destruct (add_records (item :: data) (emit (Fetch offset limit) self))
        as [self2 [|]]; cbn [fst] in Hev.
      * pose proof (on_failure_events 0 self2) as Hfail.
        destruct (on_failure 0 self2) as [self3|[cf' self3]];
          destruct Hfail as (mid & Hmid & Hf); rewrite Hev in Hmid.
        -- by apply (Hstop mid).
        -- by apply (Hcont mid).
      * destruct (length (item :: data) <? batch_size).
        -- apply (Hstop []); [by rewrite (right_id_L [] (++)) | done].
        -- apply (Hcont [Sleep (1 # 2)]); [|done].
           cbn [emit events]. by rewrite Hev.
    + pose proof (on_failure_events cf (emit (Fetch offset limit) self)) as Hfail.
      destruct (on_failure cf (emit (Fetch offset limit) self)) as [self3|[cf' self3]];
        destruct Hfail as (mid & Hmid & Hf).
      * by apply (Hstop mid).
      * by apply (Hcont mid).
    + pose proof (on_failure_events cf (emit (Fetch offset limit) self)) as Hfail.
      destruct (on_failure cf (emit (Fetch offset limit) self)) as [self3|[cf' self3]];
        destruct Hfail as (mid & Hmid & Hf).
      * by apply (Hstop mid).
      * by apply (Hcont mid).
Qed.

(** X12: whatever the source answers, the fetches of one call walk
    forward through the source: the first asks for offset 0 and each
    further one for the offset 1000 beyond the last, whether the fetch
    before it succeeded or failed, so no offset is asked for twice and a
    page whose fetch failed is not asked for again. Every fetch asks for at
    least one and at most 1000 records, never more than [max_permits], and
    a call makes at most one fetch more than the source gave answers. *)
Theorem fetches_walk_forward replies max_permits self :
  let new := logged_since self (scrape_permits replies max_permits self).2 in
  (fetches new).*1 = map (λ i, i * batch_size) (seq 0 (length (fetches new)))
  ∧ Forall (λ limit, 1 ≤ limit ≤ batch_size ∧ limit ≤ max_permits) (fetches new).*2
  ∧ length (fetches new) ≤ length replies + 1
  ∧ NoDup (fetches new).*1.
Proof.
  cbv zeta.
  destruct (scrape_loop_paged replies max_permits 0 0 0 self)
    as (new & Hnew & [Hoff Hlim] & Hlen).
  assert (Hlog : fetches (logged_since self (scrape_permits replies max_permits self).2)
                 = fetches new).
  { unfold logged_since, scrape_permits. cbv zeta. cbn [snd].
    destruct (permits (scrape_loop replies max_permits 0 0 0 self));
      cbn [emit events]; rewrite Hnew, <- (assoc_L (++)), drop_app_length, fetches_app;
      cbn; by rewrite (right_id_L [] (++)). }
  rewrite Hlog. split_and!; [done | done | done |].
  rewrite Hoff. pose proof batch_size_pos.
  apply NoDup_fmap_2_strong; [|apply NoDup_seq].
  intros i j _ _ Heq. nia.
Qed.

Lemma permits_emit (e : event) self : permits (emit e self) = permits self.
Proof. done. Qed.

Lemma events_emit (e : event) self : events (emit e self) = events self ++ [e].
Proof. done. Qed.

Lemma scrape_loop_done replies max_permits offset total cf self :
  max_permits ≤ total →
  scrape_loop replies max_permits offset total cf self = self.
Proof.
  intros Hle. destruct replies; cbn [scrape_loop];
    by assert ((total <? max_permits) = false) as -> by (by apply Nat.ltb_ge).
Qed.

Lemma scrape_loop_end replies max_permits offset total cf self :
  total < max_permits →
  replies = [] ∨ (∃ rest, replies = Page [] :: rest) →
  scrape_loop replies max_permits offset total cf self
  = emit (Fetch offset (batch_size `min` (max_permits - total))) self.
Proof.
  intros Hlt [-> | [rest ->]]; cbn [scrape_loop];
    by assert ((total <? max_permits) = true) as -> by (by apply Nat.ltb_lt).
Qed.

Lemma scrape_loop_short records replies max_permits offset total cf self :
  total < max_permits → records ≠ [] → length records < batch_size →
  scrape_loop (Page (Some <$> records) :: replies) max_permits offset total cf self
  = collect records (emit (Fetch offset (batch_size `min` (max_permits - total))) self).
Proof.
  intros Hlt Hne Hshort. cbn [scrape_loop].
  assert ((total <? max_permits) = true) as -> by (by apply Nat.ltb_lt). cbn [negb].
  destruct (Some <$> records) as [|item data] eqn:Hdata; [by destruct records|].
  rewrite <- Hdata, add_records_collect, length_fmap.
  by assert ((length records <? batch_size) = true) as -> by (by apply Nat.ltb_lt).
Qed.

Lemma scrape_loop_malformed data replies max_permits offset total cf self :
  total < max_permits →
  scrape_loop (Page (None :: data) :: replies) max_permits offset total cf self
  = scrape_loop replies max_permits (offset + batch_size) total 1
      (emit (Sleep 2)
         (emit (Fetch offset (batch_size `min` (max_permits - total))) self)).
Proof.
  intros Hlt. cbn [scrape_loop add_records].
  by assert ((total <? max_permits) = true) as -> by (by apply Nat.ltb_lt).
Qed.

Lemma scrape_loop_threshold_empty reply replies max_permits offset total cf self :
  total < max_permits → is_exception reply = true →
  max_consecutive_failures ≤ S cf → permits self = [] →
  scrape_loop (reply :: replies) max_permits offset total cf self
  = emit (Fetch offset (batch_size `min` (max_permits - total))) self.
Proof.
  intros Hlt Hex Hcf Hnil. cbn [scrape_loop].
  assert ((total <? max_permits) = true) as -> by (by apply Nat.ltb_lt). cbn [negb].
  unfold on_failure.
  assert ((max_consecutive_failures <=? S cf) = true) as -> by (by apply Nat.leb_le).
  cbn [emit permits]. rewrite Hnil. by destruct reply.
Qed.

(** X13: a call that finds the source empty (its first answer is an empty
    page or no data at all), or that is asked for no permits, collects
    nothing, makes at most one fetch and returns the list the object
    already had. What it reports to the health check depends on that list
    alone: a failure on a fresh object, but a success, with the old count,
    on an object that holds permits from an earlier call. *)
Theorem empty_source_reports_old_state replies max_permits self :
  max_permits = 0 ∨ replies = [] ∨ (∃ rest, replies = Page [] :: rest) →
  let r := scrape_permits replies max_permits self in
  r.1 = permits self
  ∧ seen_permit_ids r.2 = seen_permit_ids self
  ∧ length (fetches (logged_since self r.2)) ≤ 1
  ∧ last (events r.2)
    = Some (match permits self with
            | [] => HealthFailure "No permits retrieved"
            | _ => HealthSuccess (length (permits self))
            end).
Proof.
  intros Hcase. cbv zeta.
  assert (Hloop : ∃ mid, scrape_loop replies max_permits 0 0 0 self
                         = Scraper (permits self) (seen_permit_ids self)
                                   (events self ++ mid)
                         ∧ length (fetches mid) ≤ 1).
  { destruct (decide (max_permits = 0)) as [->|Hpos].
    - rewrite scrape_loop_done by lia. exists []. rewrite (right_id_L [] (++)).
      split; [by destruct self | cbn; lia].
    - destruct Hcase as [?|Hcase]; [done|].
      rewrite scrape_loop_end by (done || lia). eexists [_].
      split; [by destruct self | cbn; lia]. }
  destruct Hloop as (mid & Hloop & Hlen).
  unfold scrape_permits, logged_since. cbv zeta. rewrite Hloop. cbn [permits snd fst].
  destruct (permits self) eqn:Hp; unfold emit;
    cbn [events seen_permit_ids permits fst snd];
    rewrite last_snoc, <- (assoc_L (++)), drop_app_length, fetches_app, length_app;
    cbn; (split_and!; [done | done | lia | done]).
Qed.

(** X14: three exceptions in a row met by a fresh scraper end the call
    after three fetches and two pauses of two seconds; nothing has been
    collected, so nothing is saved as a partial result, the empty list is
    returned and a failure is reported. What the source would answer next
    is not asked. *)
Theorem three_exceptions_nothing_saved e1 e2 e3 rest max_permits :
  0 < max_permits →
  is_exception e1 = true → is_exception e2 = true → is_exception e3 = true →
  let limit := batch_size `min` max_permits in
  scrape_permits (e1 :: e2 :: e3 :: rest) max_permits init
  = ([], Scraper [] ∅
           [ Fetch 0 limit; Sleep 2; Fetch batch_size limit; Sleep 2;
             Fetch (2 * batch_size) limit;
             HealthFailure "No permits retrieved" ]).
Proof.
  intros Hmax He1 He2 He3 limit. unfold scrape_permits. cbv zeta.
  rewrite scrape_loop_exception by (done || lia || (unfold max_consecutive_failures; lia)).
  rewrite scrape_loop_exception by (done || lia || (unfold max_consecutive_failures; lia)).
  rewrite scrape_loop_threshold_empty
    by (done || lia || (unfold max_consecutive_failures; lia)).
  unfold emit, init, Store.init. cbn [permits seen_permit_ids events app]. subst limit.
  repeat f_equal; lia.
Qed.

(** X15: the count of consecutive failures starts again after a page
    that was fetched and handled. Two exceptions, a full page, two more
    exceptions and then the end of the data make four failed fetches, but
    never three in a row: the call runs to the end of the data, saves no
    partial result, and returns the permits of the page. *)
Theorem failure_count_starts_again e1 e2 records e3 e4 rest max_permits :
  length records = batch_size → batch_size < max_permits →
  is_exception e1 = true → is_exception e2 = true →
  is_exception e3 = true → is_exception e4 = true →
  let r := scrape_permits
             (e1 :: e2 :: Page (Some <$> records) :: e3 :: e4 :: Page [] :: rest)
             max_permits init in
  r.1 = permits (collect records init)
  ∧ partial_saves (events r.2) = []
  ∧ (fetches (events r.2)).*1
    = [0; batch_size; 2 * batch_size; 3 * batch_size; 4 * batch_size; 5 * batch_size]
  ∧ pauses (events r.2) = [2%Q; 2%Q; (1 # 2)%Q; 2%Q; 2%Q]
  ∧ last (events r.2) = Some (HealthSuccess (length r.1)).
Proof.
  intros Hlen Hmax He1 He2 He3 He4. cbv zeta.
  pose proof batch_size_pos as Hbs.
  assert (Hne : records ≠ []) by (intros ->; cbn in Hlen; lia).
  unfold scrape_permits. cbv zeta.
  rewrite scrape_loop_exception by (done || lia || (unfold max_consecutive_failures; lia)).
  rewrite scrape_loop_exception by (done || lia || (unfold max_consecutive_failures; lia)).
  rewrite scrape_loop_full_page by (done || lia).
  rewrite scrape_loop_exception by (done || lia || (unfold max_consecutive_failures; lia)).
  rewrite scrape_loop_exception by (done || lia || (unfold max_consecutive_failures; lia)).
  rewrite scrape_loop_end by (lia || (right; by eexists)).
  rewrite !collect_emit.
  destruct (collect records init) as [ps seen evs] eqn:E.
  assert (evs = []) as ->.
  { change evs with (events (Scraper ps seen evs)). by rewrite <- E, collect_events. }
  assert (ps ≠ []) as Hps.
  { change ps with (permits (Scraper ps seen (@nil event))). rewrite <- E.
    destruct records as [|record records]; [done|]. apply collect_init_nonempty. }
  rewrite !permits_emit. cbn [permits]. destruct ps as [|p ps]; [done|].
  cbn [fst snd]. rewrite !events_emit, !permits_emit. cbn [permits events app].
  split_and!; [done | done | | done | done].
  cbn. repeat f_equal; lia.
Qed.

(** X16: pages that cannot be handled do not count towards the stop.
    When every answer of the source is a page whose first element is not a
    JSON object, each turn of the loop resets the failure count before it
    fails, so the count never passes 1: the call pauses two seconds after
    each such page and goes on to the next offset for as long as the source
    answers, collects nothing and saves no partial result. *)
Theorem malformed_pages_never_stop replies max_permits self :
  0 < max_permits →
  Forall (λ reply, ∃ data, reply = Page (None :: data)) replies →
  let r := scrape_permits replies max_permits self in
  r.1 = permits self
  ∧ length (fetches (logged_since self r.2)) = length replies + 1
  ∧ length (pauses (logged_since self r.2)) = length replies
  ∧ partial_saves (logged_since self r.2) = []
  ∧ pauses (logged_since self r.2) = replicate (length replies) 2%Q.
Proof.
  intros Hmax Hall. cbv zeta.
  assert (Hloop : ∀ offset cf self,
    ∃ new, scrape_loop replies max_permits offset 0 cf self
           = Scraper (permits self) (seen_permit_ids self) (events self ++ new)
           ∧ length (fetches new) = length replies + 1
           ∧ pauses new = replicate (length replies) 2%Q
           ∧ partial_saves new = []).
  { clear self. induction Hall as [|reply replies [data ->] _ IH]; intros offset cf self.
    - rewrite scrape_loop_end by (lia || by left). by eexists [_].
    - rewrite scrape_loop_malformed by lia.
      destruct (IH (offset + batch_size) 1
                  (emit (Sleep 2)
                     (emit (Fetch offset (batch_size `min` (max_permits - 0))) self)))
        as (new & -> & Hf & Hp & Hs).
      eexists (_ :: _ :: new). cbn [emit permits seen_permit_ids events].
      rewrite <- !(assoc_L (++)). split; [done|].
      change (fetches (Fetch ?o ?l :: Sleep ?q :: new)) with ((o, l) :: fetches new).
      change (pauses (Fetch ?o ?l :: Sleep ?q :: new)) with (q :: pauses new).
      change (partial_saves (Fetch ?o ?l :: Sleep ?q :: new)) with (partial_saves new).
      cbn [length replicate]. rewrite Hf, Hp. split_and!; [lia | done | done]. }
  destruct (Hloop 0 0 self) as (new & Hnew & Hf & Hp & Hs).
  unfold scrape_permits, logged_since. cbv zeta. rewrite Hnew. cbn [permits fst snd].
  assert (Hlog : ∀ e, drop (length (events self)) ((events self ++ new) ++ [e])
                      = new ++ [e])
    by (intros e; by rewrite <- (assoc_L (++)), drop_app_length).
  destruct (permits self) eqn:Hperm; cbn [emit events fst snd]; rewrite Hlog;
    unfold pauses, partial_saves; rewrite fetches_app, !omap_app, !length_app;
    fold (pauses new); fold (partial_saves new); rewrite Hf, Hp, Hs;
    rewrite length_replicate; cbn [omap list_omap length app];
    rewrite !(right_id_L [] (++));
    (split_and!; [done | cbn; lia | lia | done | done]).
Qed.

(** X17: a first page with fewer than 1000 records ends the call after
    that one fetch: what follows in the source is not asked, the permits
    are those collected from the page, at least one, and a success is
    reported with their number. *)
Theorem short_page_ends_call records rest max_permits :
  records ≠ [] → length records < batch_size → 0 < max_permits →
  let r := scrape_permits (Page (Some <$> records) :: rest) max_permits init in
  r.1 = permits (collect records init)
  ∧ r.1 ≠ []
  ∧ events r.2 = [ Fetch 0 (batch_size `min` max_permits);
                   HealthSuccess (length r.1) ].
Proof.
  intros Hne Hshort Hmax. cbv zeta. unfold scrape_permits. cbv zeta.
  rewrite scrape_loop_short by (done || lia). rewrite collect_emit.
  destruct (collect records init) as [ps seen evs] eqn:E.
  assert (evs = []) as ->.
  { change evs with (events (Scraper ps seen evs)). by rewrite <- E, collect_events. }
  assert (ps ≠ []) as Hps.
  { change ps with (permits (Scraper ps seen (@nil event))). rewrite <- E.
    destruct records as [|record records]; [done|]. apply collect_init_nonempty. }
  unfold emit. cbn [permits seen_permit_ids events app fst snd].
  destruct ps as [|p ps]; [done|]. cbn [permits events app fst snd].
  split_and!; [done | done |]. repeat f_equal; lia.
Qed.

Lemma scrape_loop_budget replies max_permits :
  Forall (λ reply, ∃ records, reply = Page (Some <$> records)
                              ∧ length records = batch_size) replies →
  ∀ offset total cf self,
    ∃ new, events (scrape_loop replies max_permits offset total cf self)
           = events self ++ new
           ∧ length (fetches new) * batch_size < (max_permits - total) + batch_size.
Proof.
  pose proof batch_size_pos as Hbs.
  induction 1 as [|reply replies (records & -> & Hlen) _ IH]; intros offset total cf self;
    (destruct (decide (total < max_permits)) as [Hlt|Hge];
     [| rewrite scrape_loop_done by lia; exists [];
        rewrite (right_id_L [] (++)); split; [done | cbn; lia]]).
  - rewrite scrape_loop_end by (done || by left). eexists [_]. split; [done|]. cbn. lia.
  - rewrite scrape_loop_full_page
      by (done || lia || (intros ->; cbn in Hlen; lia)).
    edestruct IH as (new & -> & Hnew).
    eexists (_ :: _ :: new). unfold emit at 1. cbn [events].
    rewrite collect_events. unfold emit at 1. cbn [events].
    rewrite <- !(assoc_L (++)). split; [done|].
    change (fetches (Fetch ?o ?l :: Sleep ?q :: new)) with ((o, l) :: fetches new).
    cbn [length]. rewrite Hlen in Hnew.
    destruct (length (fetches new)) as [|k]; rewrite ?Nat.mul_succ_l in *; lia.
Qed.

(** X18: the limit counts the records fetched, not the permits kept. As
    long as the source answers with full pages of 1000 records, a call
    makes no more fetches than it takes for the pages to add up to
    [max_permits], whether the pages bring new permits or repeat the same
    ones. *)
Theorem charlotte_limit_counts_fetched_records replies max_permits self :
  Forall (λ reply, ∃ records, reply = Page (Some <$> records)
                              ∧ length records = batch_size) replies →
  let new := logged_since self (scrape_permits replies max_permits self).2 in
  length (fetches new) * batch_size < max_permits + batch_size.
Proof.
  intros Hfull. cbv zeta.
  destruct (scrape_loop_budget replies max_permits Hfull 0 0 0 self) as (new & Hnew & Hlen).
  unfold scrape_permits, logged_since. cbv zeta.
  destruct (permits (scrape_loop replies max_permits 0 0 0 self)); unfold emit;
    cbn [snd events]; rewrite Hnew, <- (assoc_L (++)), drop_app_length, fetches_app,
      length_app; cbn [fetches omap list_omap length]; lia.
Qed.

Lemma collect_seen records self :
  Forall (λ record, permit_id_of record ∈ seen_permit_ids self) records →
  collect records self = self.
Proof.
  induction 1 as [|record records Hin _ IH]; [done|].
  by rewrite collect_cons, add_record_seen.
Qed.

(** X24: a record without a permit number, a permit id or an id is not
    passed over: it is kept under the empty permit number, which from then
    on counts as seen. Of the records without any id on a page only the
    first becomes a permit; the others are dropped as its duplicates. *)
Theorem records_without_id_collapse record records rest max_permits :
  Forall (λ r, permit_id_of r = "") (record :: records) →
  length (record :: records) < batch_size → 0 < max_permits →
  let r := scrape_permits (Page (Some <$> record :: records) :: rest) max_permits init in
  r.1 = [normalize record]
  ∧ permit_number (normalize record) = ""
  ∧ seen_permit_ids r.2 = {[""]}.
Proof.
  intros Hids Hshort Hmax. cbv zeta.
  apply Forall_cons in Hids as [Hid Hids].
  assert (Hcollect : collect (record :: records) init
                     = Scraper [normalize record] {[""]} []).
  { rewrite collect_cons. unfold add_record, add, init, Store.init.
    cbn [seen_permit_ids permits events]. rewrite Hid.
    rewrite decide_False by apply not_elem_of_empty. cbn [app].
    rewrite (right_id_L ∅ (∪)). apply collect_seen.
    eapply Forall_impl; [exact Hids|]. intros r ->. cbn [seen_permit_ids].
    by apply elem_of_singleton. }
  unfold scrape_permits. cbv zeta.
  rewrite scrape_loop_short by (done || lia). rewrite collect_emit, Hcollect.
  cbn [emit permits seen_permit_ids fst snd]. split_and!; [done | exact Hid | done].
Qed.

End CharlotteLoop.

(** X24 on a page of two records in which every column is missing but,
    in the second, the address. *)
Lemma records_without_id_collapse_witness :
  let r := Charlotte.scrape_permits (py := Samples.runtime)
             [Charlotte.Page [Some Samples.bare_record; Some Samples.nameless_record]]
             5000 Charlotte.init in
  Charlotte.permit_id_of Samples.nameless_record = ""
  ∧ r.1 = [Charlotte.normalize Samples.bare_record].
Proof.
  cbv zeta.
  assert (Hids : Forall (λ r, Charlotte.permit_id_of r = "")
                   [Samples.bare_record; Samples.nameless_record])
    by (constructor; [reflexivity|]; constructor; [reflexivity | constructor]).
  assert (H2 : length [Samples.bare_record; Samples.nameless_record]
               < Charlotte.batch_size) by (apply Nat.ltb_lt; reflexivity).
  assert (H3 : 0 < 5000) by (apply Nat.ltb_lt; reflexivity).
  destruct (records_without_id_collapse (py := Samples.runtime) Samples.bare_record
              [Samples.nameless_record] [] 5000 Hids H2 H3) as (Hres & _ & _).
  split; [reflexivity | exact Hres].
Defined.

(** X13 on a fresh scraper and a source without data. *)
Lemma empty_source_reports_old_state_witness :
  let r := Charlotte.scrape_permits (py := Samples.runtime) [] 5000 Charlotte.init in
  r.1 = []
  ∧ last (Store.events r.2) = Some (Charlotte.HealthFailure "No permits retrieved").
Proof.
  cbv zeta.
  destruct (empty_source_reports_old_state (py := Samples.runtime) [] 5000 Charlotte.init
              (or_intror (or_introl eq_refl))) as (Hres & _ & _ & Hlast).
  split; [exact Hres | exact Hlast].
Defined.

(** X14 on a transport error, another exception and a transport error,
    with a full page behind them that is never asked for. *)
Lemma three_exceptions_nothing_saved_witness :
  let r := Charlotte.scrape_permits (py := Samples.runtime)
             [ Charlotte.RequestException; Charlotte.OtherException;
               Charlotte.RequestException; Charlotte.Page (Some <$> Samples.page1) ]
             5000 Charlotte.init in
  r.1 = [] ∧ Charlotte.partial_saves (Store.events r.2) = [].
Proof.
  cbv zeta.
  assert (Hmax : 0 < 5000) by (apply Nat.ltb_lt; reflexivity).
  rewrite (three_exceptions_nothing_saved (py := Samples.runtime)
             Charlotte.RequestException Charlotte.OtherException
             Charlotte.RequestException [Charlotte.Page (Some <$> Samples.page1)]
             5000 Hmax eq_refl eq_refl eq_refl).
  split; reflexivity.
Defined.

(** X15 on the first full page, with the default limit of 5000 permits. *)
Lemma failure_count_starts_again_witness :
  let r := Charlotte.scrape_permits (py := Samples.runtime)
             [ Charlotte.RequestException; Charlotte.OtherException;
               Charlotte.Page (Some <$> Samples.page1);
               Charlotte.OtherException; Charlotte.RequestException;
               Charlotte.Page [] ]
             5000 Charlotte.init in
  length Samples.page1 = Charlotte.batch_size
  ∧ Charlotte.partial_saves (Store.events r.2) = []
  ∧ last (Store.events r.2) = Some (Charlotte.HealthSuccess (length r.1)).
Proof.
  cbv zeta.
  assert (H1 : length Samples.page1 = Charlotte.batch_size) by reflexivity.
  assert (H2 : Charlotte.batch_size < 5000) by (apply Nat.ltb_lt; reflexivity).
  destruct (failure_count_starts_again (py := Samples.runtime)
              Charlotte.RequestException Charlotte.OtherException Samples.page1
              Charlotte.OtherException Charlotte.RequestException [] 5000
              H1 H2 eq_refl eq_refl eq_refl eq_refl) as (_ & Hsave & _ & _ & Hlast).
  split_and!; [exact H1 | exact Hsave | exact Hlast].
Defined.

(** X16 on two pages that open with an element that is not an object. *)
Lemma malformed_pages_never_stop_witness :
  let replies := [ Charlotte.Page [None];
                   Charlotte.Page [None; Some (Samples.record_of 1)] ] in
  let r := Charlotte.scrape_permits (py := Samples.runtime) replies 5000 Charlotte.init in
  r.1 = []
  ∧ length (Charlotte.fetches (Charlotte.logged_since Charlotte.init r.2)) = 3
  ∧ Charlotte.partial_saves (Charlotte.logged_since Charlotte.init r.2) = [].
Proof.
  cbv zeta.
  assert (Hmax : 0 < 5000) by (apply Nat.ltb_lt; reflexivity).
  assert (Hall : Forall (λ reply, ∃ data, reply = Charlotte.Page (None :: data))
                   [ Charlotte.Page [None];
                     Charlotte.Page [None; Some (Samples.record_of 1)] ]).
  { constructor; [by eexists|]. constructor; [by eexists | constructor]. }
  destruct (malformed_pages_never_stop (py := Samples.runtime) _ 5000 Charlotte.init
              Hmax Hall) as (Hres & Hfetch & _ & Hsave & _).
  split_and!; [exact Hres | exact Hfetch | exact Hsave].
Defined.

(** X17 on a page of two records. *)
Lemma short_page_ends_call_witness :
  let records := [Samples.record_of 1; Samples.record_of 2] in
  let r := Charlotte.scrape_permits (py := Samples.runtime)
             [ Charlotte.Page (Some <$> records);
               Charlotte.Page (Some <$> Samples.page1) ]
             5000 Charlotte.init in
  length records < Charlotte.batch_size
  ∧ r.1 ≠ []
  ∧ Store.events r.2 = [ Charlotte.Fetch 0 (Charlotte.batch_size `min` 5000);
                         Charlotte.HealthSuccess (length r.1) ].
Proof.
  cbv zeta.
  assert (H1 : [Samples.record_of 1; Samples.record_of 2] ≠ []) by discriminate.
  assert (H2 : length [Samples.record_of 1; Samples.record_of 2] < Charlotte.batch_size)
    by (apply Nat.ltb_lt; reflexivity).
  assert (H3 : 0 < 5000) by (apply Nat.ltb_lt; reflexivity).
  destruct (short_page_ends_call (py := Samples.runtime) _
              [Charlotte.Page (Some <$> Samples.page1)] 5000 H1 H2 H3)
    as (_ & Hne & Hev).
  split_and!; [exact H2 | exact Hne | exact Hev].
Defined.

(** X18 on a source that sends the first full page twice, with a limit
    of 1500 permits. *)
Lemma charlotte_limit_counts_fetched_records_witness :
  let replies := [ Charlotte.Page (Some <$> Samples.page1);
                   Charlotte.Page (Some <$> Samples.page1) ] in
  let new := Charlotte.logged_since Charlotte.init
               (Charlotte.scrape_permits (py := Samples.runtime) replies 1500
                  Charlotte.init).2 in
  length (Charlotte.fetches new) * Charlotte.batch_size < 1500 + Charlotte.batch_size.
Proof.
  cbv zeta.
  assert (H1 : length Samples.page1 = Charlotte.batch_size) by reflexivity.
  apply (charlotte_limit_counts_fetched_records (py := Samples.runtime)).
  constructor; [by exists Samples.page1|]. constructor; [by exists Samples.page1|].
  constructor.
Defined.

(** ** The ArcGIS loop (scrapers/dallas.py) *)

Section DallasLoop.
Import PyVal Store Dallas.
Context {py : PyBuiltins}.
Implicit Types (self : scraper) (f : feature) (features : list (option feature)).

Lemma dallas_batch_size_pos : 0 < batch_size.
Proof. apply Nat.ltb_lt. by vm_compute. Qed.

Local Opaque batch_size.

Lemma arcgis_loop_extends replies max_permits offset cf self :
  extends permit_number self (arcgis_loop replies max_permits offset cf self).
Proof.
  apply arcgis_loop_steps;
    eauto using extends_refl, extends_trans, extends_emit, add_features_extends.
Qed.

Lemma add_feature_from (Q : permit → Prop) f self :
  (PyStr.truthy (PERMIT_No f) = true → Q (normalize f)) →
  Forall Q (permits self) → Forall Q (permits (add_feature f self)).
Proof.
  intros Hf Hall. unfold add_feature. destruct (PyStr.truthy (PERMIT_No f)); [|done].
  unfold add. case_decide; [done|]. cbn [permits].
  apply Forall_app. split; [done|]. constructor; [by apply Hf | constructor].
Qed.

Lemma add_features_from (Q : permit → Prop) features self :
  (∀ f, Some f ∈ features → PyStr.truthy (PERMIT_No f) = true → Q (normalize f)) →
  Forall Q (permits self) → Forall Q (permits (add_features features self).1).
Proof.
  revert self. induction features as [|[f|] features IH]; intros self Hf Hall; cbn;
    [done | | done].
  apply IH; [intros f' Hin; apply Hf; by right|].
  apply add_feature_from; [apply Hf; by left | done].
Qed.

Lemma on_failure_permits cf self :
  match on_failure cf self with
  | inl self' | inr (_, self') => permits self' = permits self
  end.
Proof.
  unfold on_failure. destruct (max_consecutive_failures <=? S cf); [|done].
  destruct (permits self) eqn:Hp; [done | exact Hp].
Qed.

(** Whatever holds of the permit built from each feature of the source
    that has an id holds of every permit the loop leaves in the object. *)
Lemma arcgis_loop_from (Q : permit → Prop) replies :
  ∀ max_permits offset cf self,
    (∀ features f, Features features ∈ replies → Some f ∈ features →
                   PyStr.truthy (PERMIT_No f) = true → Q (normalize f)) →
    Forall Q (permits self) →
    Forall Q (permits (arcgis_loop replies max_permits offset cf self)).
Proof.
  induction replies as [|reply replies IH]; intros max_permits offset cf self Hsrc Hall;
    cbn [arcgis_loop];
    (destruct (negb (length (permits self) <? max_permits)); [done|]); [done|].
  set (self1 := emit _ self).
  assert (Hrest : ∀ features f, Features features ∈ replies → Some f ∈ features →
                                PyStr.truthy (PERMIT_No f) = true → Q (normalize f))
    by (intros features f Hin; apply Hsrc; by right).
  assert (Hfail : ∀ cf s, Forall Q (permits s) →
    Forall Q (permits match on_failure cf s with
                      | inl s' => s'
                      | inr (cf', s') =>
                        arcgis_loop replies max_permits (offset + batch_size) cf' s'
                      end)).
  { intros cf0 s Hs. pose proof (on_failure_permits cf0 s) as Hp.
    destruct (on_failure cf0 s) as [s'|[cf' s']]; [by rewrite Hp|].
    apply IH; [done | by rewrite Hp]. }
  destruct reply as [[|item features]| |]; [done | | by apply Hfail | by apply Hfail].
  pose proof (add_features_from Q (item :: features) self1) as Hadd.
  destruct (add_features (item :: features) self1) as [self2 [|]]; cbn [fst] in Hadd.
  - apply Hfail, Hadd; [|done]. intros f Hin. apply (Hsrc (item :: features)); [by left | done].
  - assert (Forall Q (permits self2)) as H2.
    { apply Hadd; [|done]. intros f Hin. apply (Hsrc (item :: features)); [by left | done]. }
    case_match; [done|]. by apply IH.
Qed.

(** X19: nothing is made up. Every permit a fresh scraper returns was
    built from a feature of one of the pages the source sent, and its
    permit number is not empty: a feature without one is passed over. *)
Theorem dallas_permits_come_from_source replies max_permits :
  Forall (λ p, PyStr.truthy (permit_number p) = true
               ∧ ∃ features f, Features features ∈ replies ∧ Some f ∈ features
                               ∧ p = normalize f)
         (scrape_permits replies max_permits init).1.
Proof.
  destruct (dallas_scrape_permits_result replies max_permits init) as [-> | ->];
    [|constructor].
  apply arcgis_loop_from; [|constructor].
  intros features f Hpage Hf Hid. split; [done | by exists features, f].
Qed.

(** X20: the report reads the object, not the call. On a scraper object
    that already holds permits, a call returns at least those permits and
    reports success whatever the source answers, also when every fetch of
    the call fails. *)
Theorem dallas_reused_object_reports_success replies max_permits self :
  permits self ≠ [] →
  let r := scrape_permits replies max_permits self in
  (∃ added, r.1 = permits self ++ added)
  ∧ r.1 = permits r.2
  ∧ last (events r.2) = Some (HealthSuccess (length r.1)).
Proof.
  intros Hne. cbv zeta. unfold scrape_permits, _try_arcgis_api. cbv zeta.
  destruct (arcgis_loop_extends replies max_permits 0 0 self) as (added & Hadd & _).
  destruct (permits (arcgis_loop replies max_permits 0 0 self)) as [|p ps] eqn:Hp.
  { destruct (permits self); [done | discriminate Hadd]. }
  cbn [length Nat.ltb Nat.leb andb fst snd]. unfold emit. cbn [permits events].
  rewrite Hp, last_snoc. split_and!; [by exists added | done | done].
Qed.

Lemma add_feature_length f self :
  length (permits (add_feature f self)) ≤ S (length (permits self)).
Proof.
  unfold add_feature. case_match; [|lia]. unfold add. case_decide; [lia|].
  cbn [permits]. rewrite length_app. cbn. lia.
Qed.

Lemma add_features_length features self :
  length (permits (add_features features self).1)
  ≤ length (permits self) + length features.
Proof.
  revert self. induction features as [|[f|] features IH]; intros self; cbn; [lia | | lia].
  etrans; [apply IH|]. pose proof (add_feature_length f self). lia.
Qed.

Lemma add_features_events features self :
  events (add_features features self).1 = events self.
Proof.
  revert self. induction features as [|[f|] features IH]; intros self; cbn;
    [done | | done].
  rewrite IH. unfold add_feature. case_match; [apply add_events | done].
Qed.

Lemma add_features_some (fs : list feature) self :
  (add_features (Some <$> fs) self).2 = false.
Proof. revert self. induction fs as [|f fs IH]; intros self; [done | apply IH]. Qed.

Lemma dallas_fetches_app (l1 l2 : list event) :
  fetches (l1 ++ l2) = fetches l1 ++ fetches l2.
Proof. apply omap_app. Qed.

(** A full page of features that can all be read: the loop handles it,
    pauses and goes on to the next offset. *)
Lemma arcgis_loop_full_page (fs : list feature) replies max_permits offset cf self :
  length (permits self) < max_permits → batch_size ≤ length fs →
  arcgis_loop (Features (Some <$> fs) :: replies) max_permits offset cf self
  = arcgis_loop replies max_permits (offset + batch_size) 0
      (emit (Sleep (1 # 2))
         (add_features (Some <$> fs)
            (emit (Fetch offset (batch_size `min` (max_permits - length (permits self))))
               self)).1).
Proof.
  intros Hlt Hfull. pose proof dallas_batch_size_pos as Hbs. cbn [arcgis_loop].
  assert ((length (permits self) <? max_permits) = true) as -> by (by apply Nat.ltb_lt).
  cbn [negb]. destruct (Some <$> fs) as [|item features] eqn:Hfs.
  { destruct fs; [cbn in Hfull; lia | done]. }
  rewrite <- Hfs. set (self1 := emit _ self).
  pose proof (add_features_some fs self1) as Hok.
  destruct (add_features (Some <$> fs) self1) as [self2 flag]. cbn [fst snd] in *.
  subst flag. rewrite length_fmap.
  by assert ((length fs <? batch_size) = false) as -> by (apply Nat.ltb_ge; lia).
Qed.

Lemma arcgis_loop_end max_permits offset cf self :
  length (permits self) < max_permits →
  arcgis_loop [] max_permits offset cf self
  = emit (Fetch offset (batch_size `min` (max_permits - length (permits self)))) self.
Proof.
  intros Hlt. cbn [arcgis_loop].
  by assert ((length (permits self) <? max_permits) = true) as -> by (by apply Nat.ltb_lt).
Qed.

(** Once a full page has been handled, the same page again changes
    nothing, and the loop goes on to the next offset. *)
Lemma arcgis_loop_same_page (fs : list feature) max_permits first n :
  length fs = batch_size →
  ∀ offset cf self,
    seen_permit_ids (add_features (Some <$> fs) first).1 ⊆ seen_permit_ids self →
    length (permits self) < max_permits →
    ∃ new, arcgis_loop (replicate n (Features (Some <$> fs))) max_permits offset cf self
           = Scraper (permits self) (seen_permit_ids self) (events self ++ new)
           ∧ length (fetches new) = n + 1.
Proof.
  intros Hlen.
  induction n as [|n IH]; intros offset cf self Hseen Hlt; cbn [replicate].
  { rewrite arcgis_loop_end by done. by eexists [_]. }
  rewrite arcgis_loop_full_page by (done || lia).
  set (self1 := emit (Fetch _ _) self).
  rewrite (add_features_again (Some <$> fs) first self1) by exact Hseen. cbn [fst].
  destruct (IH (offset + batch_size) 0 (emit (Sleep (1 # 2)) self1))
    as (new & -> & Hnew); [exact Hseen | exact Hlt |].
  eexists (_ :: _ :: new). unfold self1, emit. cbn [permits seen_permit_ids events].
  rewrite <- !(assoc_L (++)). split; [done|].
  change (fetches (Fetch ?o ?l :: Sleep ?q :: new)) with ((o, l) :: fetches new).
  cbn [length]. by rewrite Hnew.
Qed.

(** X21: the limit counts the permits kept, not the records fetched. A
    source that answers every request with the same full page, whatever
    the offset, is asked again for as long as it answers: with [n] such
    answers a call makes [n + 1] fetches however small the limit above one
    page is, and keeps no more than the permits of one page. *)
Theorem dallas_repeated_page_is_refetched (fs : list feature) n max_permits :
  length fs = batch_size → batch_size < max_permits →
  let r := scrape_permits (replicate n (Features (Some <$> fs))) max_permits init in
  length (fetches (events r.2)) = n + 1
  ∧ length r.1 ≤ batch_size.
Proof.
  intros Hlen Hmax. cbv zeta. pose proof dallas_batch_size_pos as Hbs.
  assert (Hloop : ∃ s, arcgis_loop (replicate n (Features (Some <$> fs))) max_permits
                         0 0 init = s
                       ∧ length (fetches (events s)) = n + 1
                       ∧ length (permits s) ≤ batch_size).
  { destruct n as [|n]; cbn [replicate].
    { rewrite arcgis_loop_end by (cbn; lia). eexists. split; [done|]. cbn. lia. }
    rewrite arcgis_loop_full_page by (cbn [init Store.init permits length]; lia).
    set (first := emit _ init).
    pose proof (add_features_length (Some <$> fs) first) as Hgrow.
    pose proof (add_features_events (Some <$> fs) first) as Hev.
    rewrite length_fmap in Hgrow.
    change (length (permits first)) with 0 in Hgrow.
    change (events first) with [Fetch 0 (batch_size `min` (max_permits - 0))] in Hev.
    destruct (arcgis_loop_same_page fs max_permits first n Hlen (0 + batch_size) 0
                (emit (Sleep (1 # 2)) (add_features (Some <$> fs) first).1))
      as (new & -> & Hnew); [done | cbn [emit permits]; lia |].
    eexists. split; [done|]. cbn [permits events emit]. rewrite Hev.
    split; [|lia]. rewrite !dallas_fetches_app, !length_app, Hnew. cbn. lia. }
  destruct Hloop as (s & Hs & Hf & Hp).
  unfold scrape_permits, _try_arcgis_api. cbv zeta. rewrite Hs.
  destruct (_ && _); cbn [fst snd emit events];
    rewrite dallas_fetches_app, length_app, Hf; cbn; lia.
Qed.

End DallasLoop.

(** X20 on an object that holds one permit, with a source that fails
    three times. *)
Lemma dallas_reused_object_reports_success_witness :
  let r := Dallas.scrape_permits
             [Dallas.RequestException; Dallas.RequestException; Dallas.RequestException]
             5000 Samples.dallas_used in
  Store.permits Samples.dallas_used ≠ []
  ∧ last (Store.events r.2) = Some (Dallas.HealthSuccess (length r.1)).
Proof.
  cbv zeta.
  assert (H1 : Store.permits Samples.dallas_used ≠ []) by discriminate.
  destruct (dallas_reused_object_reports_success (py := Samples.runtime)
              [Dallas.RequestException; Dallas.RequestException; Dallas.RequestException]
              5000 Samples.dallas_used H1) as (_ & _ & Hlast).
  split; [exact H1 | exact Hlast].
Defined.

(** X21 on a source that sends the same full page three times, with the
    default limit of 5000 permits. *)
Lemma dallas_repeated_page_is_refetched_witness :
  let r := Dallas.scrape_permits (py := Samples.runtime)
             (replicate 3 (Dallas.Features (Some <$> Samples.feature_full_page)))
             5000 Dallas.init in
  length Samples.feature_full_page = Dallas.batch_size
  ∧ length (Dallas.fetches (Store.events r.2)) = 4
  ∧ length r.1 ≤ Dallas.batch_size.
Proof.
  cbv zeta.
  assert (H1 : length Samples.feature_full_page = Dallas.batch_size) by reflexivity.
  assert (H2 : Dallas.batch_size < 5000) by (apply Nat.ltb_lt; reflexivity).
  destruct (dallas_repeated_page_is_refetched (py := Samples.runtime)
              Samples.feature_full_page 3 5000 H1 H2) as (Hfetch & Hlen).
  split_and!; [exact H1 | exact Hfetch | exact Hlen].
Defined.

(** ** The endpoint loop (scrapers/milwaukee.py) *)

Section MilwaukeeLoop.
Import PyVal Store Milwaukee.
Implicit Types (self : scraper) (record : raw_record) (data : list (option raw_record)).

Lemma before_has_none c s : PyStr.contains c (PyStr.before c s) = false.
Proof.
  induction s as [|a s IH]; [done|]. cbn [PyStr.before].
  case_decide; [done|]. cbn [PyStr.contains]. by rewrite decide_False.
Qed.

Lemma get_or_truthy v default :
  PyStr.truthy default = true → PyStr.truthy (get_or v default) = true.
Proof. intros Hd. unfold get_or. destruct v as [s|]; [|done]. by destruct (PyStr.truthy s) eqn:Hs. Qed.

Lemma milwaukee_add_record_from (Q : permit → Prop) record self :
  (∀ pid, raw_permit_number record = Some pid → PyStr.truthy pid = true →
          Q (normalize pid record)) →
  Forall Q (permits self) → Forall Q (permits (add_record record self)).
Proof.
  intros Hrec Hall. unfold add_record.
  destruct (raw_permit_number record) as [pid|]; [|done].
  destruct (PyStr.truthy pid) eqn:Hpid; [|done].
  unfold add. case_decide; [done|]. cbn [permits].
  apply Forall_app. split; [done|]. constructor; [by apply Hrec | constructor].
Qed.

Lemma milwaukee_add_records_from (Q : permit → Prop) data self :
  (∀ record pid, Some record ∈ data → raw_permit_number record = Some pid →
                 PyStr.truthy pid = true → Q (normalize pid record)) →
  Forall Q (permits self) → Forall Q (permits (add_records data self).1).
Proof.
  revert self. induction data as [|[record|] data IH]; intros self Hrec Hall; cbn;
    [done | | done].
  apply IH; [intros record' pid Hin; apply Hrec; by right|].
  apply milwaukee_add_record_from; [intros pid; apply Hrec; by left | done].
Qed.

Lemma milwaukee_add_records_events data self :
  events (add_records data self).1 = events self.
Proof.
  revert self. induction data as [|[record|] data IH]; intros self; cbn;
    [done | | done].
  rewrite IH. unfold add_record. repeat case_match; try done. apply add_events.
Qed.

(** Whatever holds of the permit built from each record of the source
    that has a permit number holds of every permit the loop leaves in the
    object. *)
Lemma endpoint_loop_from (Q : permit → Prop) replies :
  ∀ max_permits offset self,
    (∀ data record pid, Page data ∈ replies → Some record ∈ data →
                        raw_permit_number record = Some pid →
                        PyStr.truthy pid = true → Q (normalize pid record)) →
    Forall Q (permits self) →
    Forall Q (permits (endpoint_loop replies max_permits offset self)).
Proof.
  induction replies as [|reply replies IH]; intros max_permits offset self Hsrc Hall;
    cbn [endpoint_loop];
    (destruct (negb (length (permits self) <? max_permits)); [done|]); [done|].
  set (self1 := emit _ self).
  destruct reply as [[|item data]|]; [done | | done].
  pose proof (milwaukee_add_records_from Q (item :: data) self1) as Hadd.
  assert (Forall Q (permits (add_records (item :: data) self1).1)) as H2.
  { apply Hadd; [|done]. intros record pid Hin.
    apply (Hsrc (item :: data)); [by left | done]. }
  destruct (add_records (item :: data) self1) as [self2 [|]]; cbn [fst] in H2; [done|].
  case_match; [done|]. apply IH; [|done].
  intros data' record pid Hin. apply Hsrc. by right.
Qed.

(** X22: every permit a fresh scraper returns was built from a record of
    one of the pages the source sent, under that record's permit number,
    which is not empty; its city is "Milwaukee", its address and permit
    type are never empty ("N/A" stands in), and its date, cut at the first
    'T', holds none. *)
Theorem milwaukee_permit_shape replies max_permits :
  Forall (λ p, PyStr.truthy (permit_number p) = true
               ∧ city p = "Milwaukee"
               ∧ PyStr.truthy (address p) = true
               ∧ PyStr.truthy (permit_type p) = true
               ∧ PyStr.contains "T" (date p) = false
               ∧ ∃ data record, Page data ∈ replies ∧ Some record ∈ data
                                ∧ raw_permit_number record = Some (permit_number p)
                                ∧ p = normalize (permit_number p) record)
         (get_permits replies max_permits init).1.
Proof.
  unfold get_permits. cbn [fst]. apply endpoint_loop_from; [|constructor].
  intros data record pid Hpage Hrec Hpid Hne. cbn [normalize permit_number city address
    permit_type date].
  split_and!; [done | done | by apply get_or_truthy | by apply get_or_truthy | |].
  - destruct (raw_issue_date record) as [s|]; [|done].
    destruct (PyStr.truthy s); [apply before_has_none | done].
  - by exists data, record.
Qed.

Lemma endpoint_loop_log replies :
  ∀ max_permits offset self,
    ∃ n tail, n ≤ length replies + 1 ∧ (tail = [] ∨ tail = [LogError])
              ∧ events (endpoint_loop replies max_permits offset self)
                = events self ++ map (λ i, Fetch (offset + i * 1000)) (seq 0 n) ++ tail.
Proof.
  assert (Hone : ∀ offset self tail,
    events self ++ [Fetch offset] ++ tail
    = events self ++ map (λ i, Fetch (offset + i * 1000)) (seq 0 1) ++ tail).
  { intros offset self tail. cbn [seq map]. by rewrite Nat.mul_0_l, Nat.add_0_r. }
  induction replies as [|reply replies IH]; intros max_permits offset self;
    cbn [endpoint_loop];
    (destruct (negb (length (permits self) <? max_permits));
     [exists 0, []; split_and!;
        [lia | by left | cbn [seq map app]; by rewrite (right_id_L [] (++))]|]).
  { exists 1, []. split_and!; [cbn; lia | by left |]. by rewrite <- Hone. }
  set (self1 := emit _ self).
  destruct reply as [[|item data]|].
  - exists 1, []. split_and!; [cbn [length]; lia | by left |]. by rewrite <- Hone.
  - pose proof (milwaukee_add_records_events (item :: data) self1) as Hev.
    destruct (add_records (item :: data) self1) as [self2 [|]]; cbn [fst] in Hev.
    + exists 1, [LogError]. split_and!; [cbn [length]; lia | by right |].
      rewrite <- Hone. cbn [emit events]. rewrite Hev. cbn [self1 emit events].
      by rewrite <- !(assoc_L (++)).
    + case_match.
      * exists 1, []. split_and!; [cbn [length]; lia | by left |].
        rewrite <- Hone, Hev. done.
      * destruct (IH max_permits (offset + 1000) self2) as (n & tail & Hn & Htail & ->).
        exists (S n), tail. split_and!; [cbn [length]; lia | done |].
        assert (map (λ i, Fetch (offset + i * 1000)) (seq 0 (S n))
                = Fetch offset :: map (λ i, Fetch (offset + 1000 + i * 1000)) (seq 0 n))
          as ->.
        { cbn [seq map]. rewrite <- seq_shift, map_map, Nat.mul_0_l, Nat.add_0_r.
          f_equal. apply map_ext. intros i. f_equal. rewrite Nat.mul_succ_l. lia. }
        rewrite Hev. cbn [self1 emit events]. by rewrite <- !(assoc_L (++)).
  - exists 1, [LogError]. split_and!; [cbn [length]; lia | by right |].
    rewrite <- Hone. cbn [emit events self1]. by rewrite <- !(assoc_L (++)).
Qed.

(** X23: an exception does not leave the call and ends it. The log of a
    call is a run of fetches at the offsets 0, 1000, 2000, ..., at most
    one more than the source has answers, followed by at most one logged
    error, which is then the last thing the call does; in either case the
    list returned is the object's own list, with everything it held before
    the call at its front. *)
Theorem milwaukee_error_ends_call replies max_permits self :
  let r := get_permits replies max_permits self in
  (∃ n tail, n ≤ length replies + 1 ∧ (tail = [] ∨ tail = [LogError])
             ∧ events r.2
               = events self ++ map (λ i, Fetch (i * 1000)) (seq 0 n) ++ tail)
  ∧ r.1 = permits r.2
  ∧ ∃ added, r.1 = permits self ++ added.
Proof.
  cbv zeta. split_and!; [| done |].
  - unfold get_permits. cbn [snd].
    destruct (endpoint_loop_log replies max_permits 0 self) as (n & tail & Hn & Ht & ->).
    by exists n, tail.
  - destruct (get_permits_extends replies max_permits self) as (added & Hadd & _).
    by exists added.
Qed.

End MilwaukeeLoop.
